(** * NabBot: legacy SQLite to PostgreSQL migration

    A shallow embedding of [cogs/utils/database_migration.py].  The target
    store is a record of tables (lists of rows in insertion order, with the
    [serial] sequences next to the tables they feed), every SQL statement of
    the importers is a function on that record that enforces the constraints
    of the table definitions, and the four importers are written in a small
    state-and-exception monad that mirrors the control flow of the Python
    code ([for] loops, [continue], uncaught exceptions).

    What the embedding fixes: legacy columns have the types the importers
    use them at (integers and texts), apart from the value of a server
    property, which is any of the five values [sqlite3] returns ([NULL],
    [INTEGER], [REAL], [TEXT], [BLOB]), and the columns of the two role
    tables, which may be [NULL]; timestamps are whole seconds and the
    process runs in UTC.  What is left open: [json.loads], [json.dumps],
    the clock behind [now()], and the codecs of the connection, namely
    what a [jsonb] column stores for a [str] argument and what a [text[]]
    column does with an argument that is no list of [str] and [None], are
    parameters of the importers.

    The schema manager ([check_database], [create_database], [set_version],
    [get_version]) is embedded in the module [Schema], over the catalog of
    the database: a [CREATE] statement of the lists [tables], [functions]
    and [triggers] is the object it creates together with the objects it
    needs, and the [jsonb] codec of the connection is a parameter. *)

From Stdlib Require Import ZArith List String Ascii Bool Lia Permutation Sorted.
From Stdlib Require Import PrimFloat DecimalString.
Import ListNotations.
Local Open Scope Z_scope.

Set Implicit Arguments.

(* ------------------------------------------------------------------ *)
(** ** Values *)

(** SQL [NULL] / Python [None] is [None]; timestamps are whole seconds
    since the Unix epoch. *)
Definition timestamp := Z.

(** A value of the legacy [server_properties.value] column as [sqlite3]
    hands it to Python: [None] for [NULL], an [int] for an [INTEGER], a
    [str] for a [TEXT], a [float] for a [REAL] and [bytes] for a [BLOB]
    (a byte string is a string of 8-bit characters). *)
Inductive pyvalue :=
| PyNone
| PyInt (z : Z)
| PyStr (s : string)
| PyFloat (f : float)
| PyBytes (b : string).

(** A JSON document, as stored in a [jsonb] column, and the Python object
    [json.loads] returns for it and [json.dumps] takes: [None], a [bool],
    an [int], a [str], a [list], a [dict] with [str] keys, a [float]. *)
#[local] Unset Elimination Schemes.
Inductive json :=
| JNull
| JBool (b : bool)
| JNum (z : Z)
| JStr (s : string)
| JArr (l : list json)
| JObj (l : list (string * json))
| JFloat (f : float).
#[local] Set Elimination Schemes.

(** Exceptions that reach the caller of an importer. *)
Inductive exn :=
| DataError                  (* asyncpg: argument does not fit the column type *)
| ValueError                 (* utcfromtimestamp: year out of range *)
| TypeError                  (* json.loads on something that is not text *)
| JSONDecodeError
| UniqueViolationError
| ForeignKeyViolationError
| NotNullViolationError.

(** [smallint] columns: asyncpg refuses an argument outside 16 bits. *)
Definition int2 (z : Z) : bool := (-32768 <=? z) && (z <=? 32767).

(** [datetime.datetime.utcfromtimestamp] on an integer: defined for the
    years 1 to 9999. *)
Definition utcfromtimestamp (t : Z) : option timestamp :=
  if (-62135596800 <=? t) && (t <=? 253402300799) then Some t else None.

(** Python's [bool()] on an integer, and on a legacy property value. *)
Definition bool_of_int (z : Z) : bool := negb (z =? 0).

(** A float is false when it equals zero: [0.0] and [-0.0], not [nan]. *)
Definition py_bool (v : pyvalue) : bool :=
  match v with
  | PyNone => false
  | PyInt z => negb (z =? 0)
  | PyStr s => negb (s =? "")%string
  | PyFloat f => negb (PrimFloat.eqb f PrimFloat.zero)
  | PyBytes b => negb (b =? "")%string
  end.

(** The object [json.dumps] is given for a legacy value; it raises
    [TypeError] on [bytes], here [None]. *)
Definition json_of_pyvalue (v : pyvalue) : option json :=
  match v with
  | PyNone => Some JNull
  | PyInt z => Some (JNum z)
  | PyStr s => Some (JStr s)
  | PyFloat f => Some (JFloat f)
  | PyBytes _ => None
  end.

(** A value of a [text[]] column: a one-dimensional array of texts and
    [NULL]s, or the array asyncpg makes of another Python object. *)
Inductive text_array_value :=
| TextArray (items : list (option string))
| OtherArray (j : json).

(** The items of a list of [str] and [None]. *)
Fixpoint text_items (l : list json) : option (list (option string)) :=
  match l with
  | [] => Some []
  | JStr s :: l' => option_map (cons (Some s)) (text_items l')
  | JNull :: l' => option_map (cons None) (text_items l')
  | _ :: _ => None
  end.

(* ------------------------------------------------------------------ *)
(** ** Python's [sorted(..., key=...)]: a stable sort *)

Section Sorting.
Variable A : Type.
Variable key : A -> Z.

Fixpoint insert_sorted (x : A) (l : list A) : list A :=
  match l with
  | [] => [x]
  | y :: l' => if key x <=? key y then x :: l else y :: insert_sorted x l'
  end.

Fixpoint sorted (l : list A) : list A :=
  match l with
  | [] => []
  | x :: l' => insert_sorted x (sorted l')
  end.
End Sorting.

(* ------------------------------------------------------------------ *)
(** ** The legacy store (SQLite) *)

Record LegacyCharacter := {
  lc_id : Z; lc_user_id : Z; lc_name : string; lc_level : Z;
  lc_vocation : option string; lc_world : option string;
  lc_guild : option string }.

Record LegacyLevelUp := { ll_char_id : Z; ll_level : Z; ll_date : Z }.

Record LegacyDeath := {
  ld_char_id : Z; ld_level : Z; ld_date : Z; ld_killer : string;
  ld_byplayer : Z }.

(** [lp_server_id] is the server as [int(server)] reads it. *)
Record LegacyServerProperty := {
  lp_server_id : Z; lp_name : string; lp_value : pyvalue }.

Record LegacyEvent := {
  le_id : Z; le_creator : Z; le_name : string; le_start : Z; le_active : Z;
  le_status : Z; le_description : option string; le_server : Z;
  le_joinable : Z; le_slots : Z }.

Record LegacyEventSubscriber := { ls_event_id : Z; ls_user_id : Z }.
Record LegacyEventParticipant := { lpt_event_id : Z; lpt_char_id : Z }.

(** The two role tables are handed to the target as they are read, so a
    [NULL] of theirs reaches it. *)
Record LegacyAutoRole := {
  lar_server_id : option Z; lar_role_id : option Z; lar_guild : option string }.
Record LegacyJoinableRole := { ljr_server_id : option Z; ljr_role_id : option Z }.

Record Legacy := {
  chars : list LegacyCharacter;
  char_levelups : list LegacyLevelUp;
  char_deaths : list LegacyDeath;
  server_properties : list LegacyServerProperty;
  events : list LegacyEvent;
  event_subscribers : list LegacyEventSubscriber;
  event_participants : list LegacyEventParticipant;
  auto_roles : list LegacyAutoRole;
  joinable_roles : list LegacyJoinableRole }.

(** The tuples the importers collect between their passes. *)
Definition levelup_tuple : Type := Z * Z * Z.                 (* char_id, level, date *)
Definition death_tuple : Type := Z * Z * Z * string * Z.      (* char_id, level, date, killer, byplayer *)

(** [SELECT id, user_id, name, level, vocation, world, guild FROM chars
    ORDER By id ASC] *)
Definition select_chars (c : Legacy) : list LegacyCharacter :=
  sorted lc_id (chars c).

(** [SELECT ?, level, date FROM char_levelups WHERE char_id = ? ORDER BY
    date ASC] *)
Definition select_levelups (c : Legacy) (char_id old_id : Z) : list levelup_tuple :=
  map (fun l => (char_id, ll_level l, ll_date l))
      (sorted ll_date (filter (fun l => ll_char_id l =? old_id) (char_levelups c))).

(** [SELECT ?, level, date, killer, byplayer FROM char_deaths WHERE
    char_id = ?] *)
Definition select_deaths (c : Legacy) (char_id old_id : Z) : list death_tuple :=
  map (fun d => (char_id, ld_level d, ld_date d, ld_killer d, ld_byplayer d))
      (filter (fun d => ld_char_id d =? old_id) (char_deaths c)).

(** [SELECT ?, user_id FROM event_subscribers WHERE event_id = ?] *)
Definition select_subscribers (c : Legacy) (event_id old_id : Z) : list (Z * Z) :=
  map (fun s => (event_id, ls_user_id s))
      (filter (fun s => ls_event_id s =? old_id) (event_subscribers c)).

(** The rows of [chars] joined to one participant: every character whose
    [id] is the participant's [char_id], or a single all-[NULL] row. *)
Definition left_join_chars (c : Legacy) (p : LegacyEventParticipant) : list (option string) :=
  match filter (fun ch => lc_id ch =? lpt_char_id p) (chars c) with
  | [] => [None]
  | matches => map (fun ch => Some (lc_name ch)) matches
  end.

(** [SELECT ?, name FROM event_participants LEFT JOIN chars ON id = char_id
    WHERE event_id = ?] *)
Definition select_participants (c : Legacy) (event_id old_id : Z) : list (Z * option string) :=
  map (fun n => (event_id, n))
      (flat_map (left_join_chars c)
                (filter (fun p => lpt_event_id p =? old_id) (event_participants c))).

(* ------------------------------------------------------------------ *)
(** ** The target store (PostgreSQL) *)

Record Character := {
  ch_id : Z; ch_user_id : Z; ch_name : string; ch_level : option Z;
  ch_world : option string; ch_vocation : option string;
  ch_guild : option string; ch_modified : option timestamp;
  ch_created : option timestamp }.

Record CharacterDeath := {
  d_id : Z; d_character_id : Z; d_level : option Z; d_date : option timestamp }.

Record CharacterDeathKiller := {
  k_death_id : Z; k_position : Z; k_name : string; k_player : option bool }.

Record CharacterLevelUp := {
  lu_id : Z; lu_character_id : Z; lu_level : option Z; lu_date : option timestamp }.

Record Event := {
  ev_id : Z; ev_user_id : Z; ev_server_id : Z; ev_name : string;
  ev_description : option string; ev_start : timestamp; ev_active : bool;
  ev_reminder : Z; ev_joinable : bool; ev_slots : Z; ev_modified : timestamp;
  ev_created : timestamp }.

Record EventParticipant := { ep_event_id : Z; ep_character_id : Z }.
Record EventSubscriber := { es_event_id : Z; es_user_id : Z }.
Record ServerProperty := { sp_server_id : Z; sp_key : string; sp_value : option json }.
Record ServerPrefixes := { spx_server_id : Z; spx_prefixes : text_array_value }.
Record RoleAuto := { ra_server_id : Z; ra_role_id : Z; ra_rule : string }.
Record RoleJoinable := { rj_server_id : Z; rj_role_id : Z }.

(** The tables the importers touch.  A [_seq] field is the next value of
    the sequence behind a [serial] column. *)
Record Db := {
  character : list Character;
  character_seq : Z;
  character_death : list CharacterDeath;
  character_death_seq : Z;
  character_death_killer : list CharacterDeathKiller;
  character_levelup : list CharacterLevelUp;
  character_levelup_seq : Z;
  event : list Event;
  event_seq : Z;
  event_participant : list EventParticipant;
  event_subscriber : list EventSubscriber;
  server_property : list ServerProperty;
  server_prefixes : list ServerPrefixes;
  role_auto : list RoleAuto;
  role_joinable : list RoleJoinable }.

Definition empty_db : Db :=
  {| character := []; character_seq := 1;
     character_death := []; character_death_seq := 1;
     character_death_killer := [];
     character_levelup := []; character_levelup_seq := 1;
     event := []; event_seq := 1;
     event_participant := []; event_subscriber := [];
     server_property := []; server_prefixes := [];
     role_auto := []; role_joinable := [] |}.

(** What [print] wrote. *)
Inductive report :=
| SkippedDeaths (n : nat)       (* "Skipped {n:,} duplicate deaths." *)
| SkippedLevelUps (n : nat).    (* "Skipped {n:,} duplicate level ups." *)

(** The state an importer runs in: the target store, the number of
    statements sent to it so far, and standard output. *)
Record World := { db : Db; stmts : nat; stdout : list report }.

Definition start (d : Db) : World := {| db := d; stmts := 0; stdout := [] |}.

(** Replacing one table of the store. *)
Definition with_character (d : Db) (rows : list Character) (next : Z) : Db :=
  {| character := rows; character_seq := next;
     character_death := character_death d;
     character_death_seq := character_death_seq d;
     character_death_killer := character_death_killer d;
     character_levelup := character_levelup d;
     character_levelup_seq := character_levelup_seq d;
     event := event d; event_seq := event_seq d;
     event_participant := event_participant d;
     event_subscriber := event_subscriber d;
     server_property := server_property d;
     server_prefixes := server_prefixes d;
     role_auto := role_auto d; role_joinable := role_joinable d |}.

Definition with_character_death (d : Db) (rows : list CharacterDeath) (next : Z) : Db :=
  {| character := character d; character_seq := character_seq d;
     character_death := rows; character_death_seq := next;
     character_death_killer := character_death_killer d;
     character_levelup := character_levelup d;
     character_levelup_seq := character_levelup_seq d;
     event := event d; event_seq := event_seq d;
     event_participant := event_participant d;
     event_subscriber := event_subscriber d;
     server_property := server_property d;
     server_prefixes := server_prefixes d;
     role_auto := role_auto d; role_joinable := role_joinable d |}.

Definition with_character_death_killer (d : Db) (rows : list CharacterDeathKiller) : Db :=
  {| character := character d; character_seq := character_seq d;
     character_death := character_death d;
     character_death_seq := character_death_seq d;
     character_death_killer := rows;
     character_levelup := character_levelup d;
     character_levelup_seq := character_levelup_seq d;
     event := event d; event_seq := event_seq d;
     event_participant := event_participant d;
     event_subscriber := event_subscriber d;
     server_property := server_property d;
     server_prefixes := server_prefixes d;
     role_auto := role_auto d; role_joinable := role_joinable d |}.

Definition with_character_levelup (d : Db) (rows : list CharacterLevelUp) (next : Z) : Db :=
  {| character := character d; character_seq := character_seq d;
     character_death := character_death d;
     character_death_seq := character_death_seq d;
     character_death_killer := character_death_killer d;
     character_levelup := rows; character_levelup_seq := next;
     event := event d; event_seq := event_seq d;
     event_participant := event_participant d;
     event_subscriber := event_subscriber d;
     server_property := server_property d;
     server_prefixes := server_prefixes d;
     role_auto := role_auto d; role_joinable := role_joinable d |}.

Definition with_event (d : Db) (rows : list Event) (next : Z) : Db :=
  {| character := character d; character_seq := character_seq d;
     character_death := character_death d;
     character_death_seq := character_death_seq d;
     character_death_killer := character_death_killer d;
     character_levelup := character_levelup d;
     character_levelup_seq := character_levelup_seq d;
     event := rows; event_seq := next;
     event_participant := event_participant d;
     event_subscriber := event_subscriber d;
     server_property := server_property d;
     server_prefixes := server_prefixes d;
     role_auto := role_auto d; role_joinable := role_joinable d |}.

Definition with_event_participant (d : Db) (rows : list EventParticipant) : Db :=
  {| character := character d; character_seq := character_seq d;
     character_death := character_death d;
     character_death_seq := character_death_seq d;
     character_death_killer := character_death_killer d;
     character_levelup := character_levelup d;
     character_levelup_seq := character_levelup_seq d;
     event := event d; event_seq := event_seq d;
     event_participant := rows;
     event_subscriber := event_subscriber d;
     server_property := server_property d;
     server_prefixes := server_prefixes d;
     role_auto := role_auto d; role_joinable := role_joinable d |}.

Definition with_event_subscriber (d : Db) (rows : list EventSubscriber) : Db :=
  {| character := character d; character_seq := character_seq d;
     character_death := character_death d;
     character_death_seq := character_death_seq d;
     character_death_killer := character_death_killer d;
     character_levelup := character_levelup d;
     character_levelup_seq := character_levelup_seq d;
     event := event d; event_seq := event_seq d;
     event_participant := event_participant d;
     event_subscriber := rows;
     server_property := server_property d;
     server_prefixes := server_prefixes d;
     role_auto := role_auto d; role_joinable := role_joinable d |}.

Definition with_server_property (d : Db) (rows : list ServerProperty) : Db :=
  {| character := character d; character_seq := character_seq d;
     character_death := character_death d;
     character_death_seq := character_death_seq d;
     character_death_killer := character_death_killer d;
     character_levelup := character_levelup d;
     character_levelup_seq := character_levelup_seq d;
     event := event d; event_seq := event_seq d;
     event_participant := event_participant d;
     event_subscriber := event_subscriber d;
     server_property := rows;
     server_prefixes := server_prefixes d;
     role_auto := role_auto d; role_joinable := role_joinable d |}.

Definition with_server_prefixes (d : Db) (rows : list ServerPrefixes) : Db :=
  {| character := character d; character_seq := character_seq d;
     character_death := character_death d;
     character_death_seq := character_death_seq d;
     character_death_killer := character_death_killer d;
     character_levelup := character_levelup d;
     character_levelup_seq := character_levelup_seq d;
     event := event d; event_seq := event_seq d;
     event_participant := event_participant d;
     event_subscriber := event_subscriber d;
     server_property := server_property d;
     server_prefixes := rows;
     role_auto := role_auto d; role_joinable := role_joinable d |}.

Definition with_role_auto (d : Db) (rows : list RoleAuto) : Db :=
  {| character := character d; character_seq := character_seq d;
     character_death := character_death d;
     character_death_seq := character_death_seq d;
     character_death_killer := character_death_killer d;
     character_levelup := character_levelup d;
     character_levelup_seq := character_levelup_seq d;
     event := event d; event_seq := event_seq d;
     event_participant := event_participant d;
     event_subscriber := event_subscriber d;
     server_property := server_property d;
     server_prefixes := server_prefixes d;
     role_auto := rows; role_joinable := role_joinable d |}.

Definition with_role_joinable (d : Db) (rows : list RoleJoinable) : Db :=
  {| character := character d; character_seq := character_seq d;
     character_death := character_death d;
     character_death_seq := character_death_seq d;
     character_death_killer := character_death_killer d;
     character_levelup := character_levelup d;
     character_levelup_seq := character_levelup_seq d;
     event := event d; event_seq := event_seq d;
     event_participant := event_participant d;
     event_subscriber := event_subscriber d;
     server_property := server_property d;
     server_prefixes := server_prefixes d;
     role_auto := role_auto d; role_joinable := rows |}.

(* ------------------------------------------------------------------ *)
(** ** SQL statements against the target store

    A statement takes the value of [now()] and the store, and gives either
    the exception it raises or its result, with the store it leaves. *)

Definition statement (A : Type) : Type := timestamp -> Db -> (exn + A) * Db.

(** A [SELECT]: no effect on the store. *)
Definition query (A : Type) (f : Db -> A) : statement A :=
  fun _ d => (inr (f d), d).

(** The trigger function [update_modified_column], which [create_database]
    installs as [update_character_modified], [BEFORE UPDATE] on every row
    of [character]: [NEW.modified = now()]. *)
Definition update_modified_column (now : timestamp) (r : Character) : Character :=
  {| ch_id := ch_id r; ch_user_id := ch_user_id r; ch_name := ch_name r;
     ch_level := ch_level r; ch_world := ch_world r;
     ch_vocation := ch_vocation r; ch_guild := ch_guild r;
     ch_modified := Some now; ch_created := ch_created r |}.

(** [SET name = EXCLUDED.name] *)
Definition set_name (r : Character) (name : string) : Character :=
  {| ch_id := ch_id r; ch_user_id := ch_user_id r; ch_name := name;
     ch_level := ch_level r; ch_world := ch_world r;
     ch_vocation := ch_vocation r; ch_guild := ch_guild r;
     ch_modified := ch_modified r; ch_created := ch_created r |}.

(** [INSERT INTO "character" (user_id, name, level, vocation, world, guild)
    VALUES ($1, $2, $3, $4, $5, $6)
    ON CONFLICT(name) DO UPDATE SET name=EXCLUDED.name RETURNING id]

    The sequence is advanced before the conflict on [name] is looked for.
    [modified] and [created] of a new row default to [now()]. *)
Definition upsert_character (user_id : Z) (name : string) (level : Z)
    (vocation world guild : option string) : statement Z :=
  fun now d =>
    if negb (int2 level) then (inl DataError, d) else
    let id := character_seq d in
    match find (fun r => (ch_name r =? name)%string) (character d) with
    | Some old =>
        (inr (ch_id old),
         with_character d
           (map (fun r => if (ch_name r =? name)%string
                          then update_modified_column now (set_name r name)
                          else r) (character d))
           (id + 1))
    | None =>
        if existsb (fun r => ch_id r =? id) (character d)
        then (inl UniqueViolationError, with_character d (character d) (id + 1))
        else
          (inr id,
           with_character d
             (character d ++
                [{| ch_id := id; ch_user_id := user_id; ch_name := name;
                    ch_level := Some level; ch_world := world;
                    ch_vocation := vocation; ch_guild := guild;
                    ch_modified := Some now; ch_created := Some now |}])
             (id + 1))
    end.

Definition has_character (d : Db) (id : Z) : bool :=
  existsb (fun r => ch_id r =? id) (character d).

(** [date = $1 AND character_id = $2] *)
Definition death_matches (date : timestamp) (char_id : Z) (r : CharacterDeath) : bool :=
  match d_date r with
  | Some t => (t =? date) && (d_character_id r =? char_id)
  | None => false
  end.

(** [SELECT id FROM character_death WHERE date = $1 AND character_id = $2],
    first row *)
Definition select_death (date : timestamp) (char_id : Z) : statement (option Z) :=
  query (fun d => option_map d_id (find (death_matches date char_id) (character_death d))).

(** [INSERT INTO character_death(character_id, level, date)
    VALUES ($1, $2, $3) RETURNING id] *)
Definition insert_death (char_id level : Z) (date : timestamp) : statement Z :=
  fun _ d =>
    if negb (int2 level) then (inl DataError, d) else
    let id := character_death_seq d in
    let d1 := with_character_death d (character_death d) (id + 1) in
    if existsb (fun r => d_id r =? id) (character_death d)
       || existsb (death_matches date char_id) (character_death d)
    then (inl UniqueViolationError, d1)
    else if negb (has_character d char_id)
    then (inl ForeignKeyViolationError, d1)
    else
      (inr id,
       with_character_death d
         (character_death d ++
            [{| d_id := id; d_character_id := char_id; d_level := Some level;
                d_date := Some date |}])
         (id + 1)).

(** [INSERT INTO character_death_killer(death_id, name, player)
    VALUES ($1, $2, $3)]; [position] defaults to 0. *)
Definition insert_killer (death_id : Z) (name : string) (player : bool) : statement unit :=
  fun _ d =>
    if negb (existsb (fun r => d_id r =? death_id) (character_death d))
    then (inl ForeignKeyViolationError, d)
    else
      (inr tt,
       with_character_death_killer d
         (character_death_killer d ++
            [{| k_death_id := death_id; k_position := 0; k_name := name;
                k_player := Some player |}])).

(** [GREATEST($2-date,date-$2) <= interval '15' second] *)
Definition within_margin (new : timestamp) (date : option timestamp) : bool :=
  match date with
  | Some t => Z.max (new - t) (t - new) <=? 15
  | None => false
  end.

Definition levelup_matches (char_id : Z) (date : timestamp) (r : CharacterLevelUp) : bool :=
  (lu_character_id r =? char_id) && within_margin date (lu_date r).

(** [SELECT id FROM character_levelup WHERE character_id = $1 AND
    GREATEST($2-date,date-$2) <= interval '15' second], first row *)
Definition select_levelup (char_id : Z) (date : timestamp) : statement (option Z) :=
  query (fun d => option_map lu_id (find (levelup_matches char_id date) (character_levelup d))).

(** [INSERT INTO character_levelup(character_id, level, date)
    VALUES ($1, $2, $3)] *)
Definition insert_levelup (char_id level : Z) (date : timestamp) : statement unit :=
  fun _ d =>
    if negb (int2 level) then (inl DataError, d) else
    let id := character_levelup_seq d in
    let d1 := with_character_levelup d (character_levelup d) (id + 1) in
    if existsb (fun r => lu_id r =? id) (character_levelup d)
    then (inl UniqueViolationError, d1)
    else if negb (has_character d char_id)
    then (inl ForeignKeyViolationError, d1)
    else
      (inr tt,
       with_character_levelup d
         (character_levelup d ++
            [{| lu_id := id; lu_character_id := char_id; lu_level := Some level;
                lu_date := Some date |}])
         (id + 1)).

(** [INSERT INTO server_prefixes(server_id, prefixes) VALUES($1, $2)
    ON CONFLICT DO NOTHING]; [prefixes] is [NOT NULL], and a violation of
    that is no conflict. *)
Definition insert_server_prefixes (server : Z) (prefixes : option text_array_value)
    : statement unit :=
  fun _ d =>
    match prefixes with
    | None => (inl NotNullViolationError, d)
    | Some prefixes =>
        if existsb (fun r => spx_server_id r =? server) (server_prefixes d)
        then (inr tt, d)
        else
          (inr tt,
           with_server_prefixes d
             (server_prefixes d ++
                [{| spx_server_id := server; spx_prefixes := prefixes |}]))
    end.

(** [INSERT INTO server_property(server_id, key, value) VALUES($1, $2, $3)
    ON CONFLICT(server_id, key) DO NOTHING] *)
Definition insert_server_property (server : Z) (key : string) (value : json) : statement unit :=
  fun _ d =>
    if existsb (fun r => (sp_server_id r =? server) && (sp_key r =? key)%string) (server_property d)
    then (inr tt, d)
    else
      (inr tt,
       with_server_property d
         (server_property d ++
            [{| sp_server_id := server; sp_key := key; sp_value := Some value |}])).

(** [INSERT INTO event(user_id, name, start, active, description, server_id,
    joinable, slots, reminder) VALUES($1, ..., $9) RETURNING id] *)
Definition insert_event (user_id : Z) (name : string) (start : timestamp)
    (active : bool) (description : option string) (server_id : Z)
    (joinable : bool) (slots reminder : Z) : statement Z :=
  fun now d =>
    if negb (int2 slots && int2 reminder) then (inl DataError, d) else
    let id := event_seq d in
    if existsb (fun r => ev_id r =? id) (event d)
    then (inl UniqueViolationError, with_event d (event d) (id + 1))
    else
      (inr id,
       with_event d
         (event d ++
            [{| ev_id := id; ev_user_id := user_id; ev_server_id := server_id;
                ev_name := name; ev_description := description;
                ev_start := start; ev_active := active;
                ev_reminder := reminder; ev_joinable := joinable;
                ev_slots := slots; ev_modified := now; ev_created := now |}])
         (id + 1)).

Definition has_event (d : Db) (id : Z) : bool :=
  existsb (fun r => ev_id r =? id) (event d).

(** [INSERT INTO event_subscriber(event_id, user_id) VALUES($1, $2)
    ON CONFLICT(event_id, user_id) DO NOTHING] *)
Definition insert_event_subscriber (event_id user_id : Z) : statement unit :=
  fun _ d =>
    if existsb (fun r => (es_event_id r =? event_id) && (es_user_id r =? user_id))
               (event_subscriber d)
    then (inr tt, d)
    else if negb (has_event d event_id)
    then (inl ForeignKeyViolationError, d)
    else
      (inr tt,
       with_event_subscriber d
         (event_subscriber d ++
            [{| es_event_id := event_id; es_user_id := user_id |}])).

(** [SELECT id FROM "character" WHERE name = $1], first value; a [NULL]
    argument matches no row. *)
Definition select_character_id (name : option string) : statement (option Z) :=
  query (fun d =>
           match name with
           | Some n => option_map ch_id (find (fun r => (ch_name r =? n)%string) (character d))
           | None => None
           end).

(** [INSERT INTO event_participant(event_id, character_id) VALUES($1, $2)
    ON CONFLICT(event_id, character_id) DO NOTHING] *)
Definition insert_event_participant (event_id char_id : Z) : statement unit :=
  fun _ d =>
    if existsb (fun r => (ep_event_id r =? event_id) && (ep_character_id r =? char_id))
               (event_participant d)
    then (inr tt, d)
    else if negb (has_event d event_id && has_character d char_id)
    then (inl ForeignKeyViolationError, d)
    else
      (inr tt,
       with_event_participant d
         (event_participant d ++
            [{| ep_event_id := event_id; ep_character_id := char_id |}])).

(** [INSERT INTO role_auto(server_id, role_id, rule) VALUES($1, $2, $3)
    ON CONFLICT(server_id, role_id, rule) DO NOTHING]; the three columns
    are [NOT NULL], and a violation of that is no conflict. *)
Definition insert_role_auto (server_id role_id : option Z) (rule : option string)
    : statement unit :=
  fun _ d =>
    match server_id, role_id, rule with
    | Some server_id, Some role_id, Some rule =>
        if existsb (fun r => (ra_server_id r =? server_id) && (ra_role_id r =? role_id)
                             && (ra_rule r =? rule)%string) (role_auto d)
        then (inr tt, d)
        else
          (inr tt,
           with_role_auto d
             (role_auto d ++
                [{| ra_server_id := server_id; ra_role_id := role_id;
                    ra_rule := rule |}]))
    | _, _, _ => (inl NotNullViolationError, d)
    end.

(** [INSERT INTO role_joinable(server_id, role_id) VALUES($1, $2)
    ON CONFLICT(server_id, role_id) DO NOTHING]; both columns are
    [NOT NULL]. *)
Definition insert_role_joinable (server_id role_id : option Z) : statement unit :=
  fun _ d =>
    match server_id, role_id with
    | Some server_id, Some role_id =>
        if existsb (fun r => (rj_server_id r =? server_id) && (rj_role_id r =? role_id))
                   (role_joinable d)
        then (inr tt, d)
        else
          (inr tt,
           with_role_joinable d
             (role_joinable d ++
                [{| rj_server_id := server_id; rj_role_id := role_id |}]))
    | _, _ => (inl NotNullViolationError, d)
    end.

(* ------------------------------------------------------------------ *)
(** ** Running Python: state and uncaught exceptions *)

Inductive outcome (A : Type) :=
| Ok (a : A) (w : World)
| Raised (e : exn) (w : World).
Arguments Raised {A} e w.

Definition M (A : Type) : Type := World -> outcome A.

Definition ret (A : Type) (a : A) : M A := fun w => Ok a w.

Definition bind (A B : Type) (m : M A) (k : A -> M B) : M B :=
  fun w =>
    match m w with
    | Ok a w' => k a w'
    | Raised e w' => Raised e w'
    end.

Definition raise (A : Type) (e : exn) : M A := fun w => Raised e w.
Arguments raise {A} e.

Notation "x <- m ;; k" := (bind m (fun x => k))
  (at level 61, m at next level, right associativity).
Notation "m ;; k" := (bind m (fun _ => k))
  (at level 61, right associativity).

(** [print(...)] *)
Definition print (r : report) : M unit :=
  fun w => Ok tt {| db := db w; stmts := stmts w; stdout := stdout w ++ [r] |}.

(** [for x in l: body], with the local variables the body assigns to
    threaded through it. *)
Fixpoint for_ (A B : Type) (l : list A) (body : B -> A -> M B) (acc : B) : M B :=
  match l with
  | [] => ret acc
  | x :: l' => acc' <- body acc x ;; for_ l' body acc'
  end.

(** [itemgetter(2)] on the collected tuples. *)
Definition death_date (t : death_tuple) : Z :=
  let '(_, _, date, _, _) := t in date.

Definition levelup_date (t : levelup_tuple) : Z :=
  let '(_, _, date) := t in date.

(** [itemgetter(0)]: the id the tuple was collected under. *)
Definition death_char_id (t : death_tuple) : Z :=
  let '(char_id, _, _, _, _) := t in char_id.

Definition levelup_char_id (t : levelup_tuple) : Z :=
  let '(char_id, _, _) := t in char_id.

(* ------------------------------------------------------------------ *)
(** ** Small legacy stores to run the importers on *)

Definition example_clock (n : nat) : timestamp := 1000 + Z.of_nat n.

Definition legacy_character (id : Z) (name : string) (level : Z) : LegacyCharacter :=
  {| lc_id := id; lc_user_id := 42; lc_name := name; lc_level := level;
     lc_vocation := Some "Knight"%string; lc_world := Some "Antica"%string;
     lc_guild := None |}.

Definition legacy_of (cs : list LegacyCharacter) (lus : list LegacyLevelUp)
    (ds : list LegacyDeath) : Legacy :=
  {| chars := cs; char_levelups := lus; char_deaths := ds;
     server_properties := []; events := []; event_subscribers := [];
     event_participants := []; auto_roles := []; joinable_roles := [] |}.

(** One character with two level-ups, at [t1] and [t2]. *)
Definition two_levelups (t1 t2 : Z) : Legacy :=
  legacy_of [legacy_character 7 "Bob" 50]
            [{| ll_char_id := 7; ll_level := 49; ll_date := t1 |};
             {| ll_char_id := 7; ll_level := 50; ll_date := t2 |}]
            [].

(** One character with two deaths at the same second. *)
Definition two_deaths (t : Z) : Legacy :=
  legacy_of [legacy_character 7 "Bob" 50] []
            [{| ld_char_id := 7; ld_level := 50; ld_date := t;
                ld_killer := "a dragon"; ld_byplayer := 0 |};
             {| ld_char_id := 7; ld_level := 50; ld_date := t;
                ld_killer := "Alice"; ld_byplayer := 1 |}].

(** A reader for the JSON documents made of arrays, strings without
    escapes, integers and the three literals, to stand for [json.loads]
    where an example needs one.  It gives [None] on anything else. *)
Definition is_space (a : ascii) : bool :=
  (a =? " ")%char || (a =? "009")%char || (a =? "010")%char || (a =? "013")%char.

Fixpoint skip_space (s : list ascii) : list ascii :=
  match s with
  | a :: s' => if is_space a then skip_space s' else s
  | [] => []
  end.

Fixpoint read_string (s : list ascii) : option (string * list ascii) :=
  match s with
  | [] => None
  | a :: s' =>
      if (a =? "034")%char then Some (EmptyString, s')
      else if (a =? "092")%char || (nat_of_ascii a <? 32)%nat then None
      else match read_string s' with
           | Some (str, rest) => Some (String a str, rest)
           | None => None
           end
  end.

Definition digit (a : ascii) : option Z :=
  let n := nat_of_ascii a in
  if ((48 <=? n) && (n <=? 57))%nat then Some (Z.of_nat n - 48) else None.

Fixpoint read_digits (acc : Z) (s : list ascii) : Z * list ascii :=
  match s with
  | a :: s' =>
      match digit a with
      | Some d => read_digits (10 * acc + d) s'
      | None => (acc, s)
      end
  | [] => (acc, [])
  end.

Definition read_natural (s : list ascii) : option (Z * list ascii) :=
  match s with
  | a :: s' =>
      match digit a with
      | Some 0 =>
          match s' with
          | b :: _ => match digit b with Some _ => None | None => Some (0, s') end
          | [] => Some (0, [])
          end
      | Some d => Some (read_digits d s')
      | None => None
      end
  | [] => None
  end.

Definition read_number (s : list ascii) : option (json * list ascii) :=
  let (sign, s1) :=
    match s with
    | a :: s' => if (a =? "-")%char then (-1, s') else (1, s)
    | [] => (1, s)
    end in
  match read_natural s1 with
  | Some (n, rest) =>
      match rest with
      | b :: _ =>
          if (b =? ".")%char || (b =? "e")%char || (b =? "E")%char then None
          else Some (JNum (sign * n), rest)
      | [] => Some (JNum (sign * n), rest)
      end
  | None => None
  end.

Fixpoint read_value (fuel : nat) (s : list ascii) {struct fuel}
    : option (json * list ascii) :=
  match fuel with
  | O => None
  | S fuel' =>
      match skip_space s with
      | a :: s1 =>
          if (a =? "[")%char then
            match skip_space s1 with
            | b :: s2 =>
                if (b =? "]")%char then Some (JArr [], s2)
                else match read_items fuel' s1 with
                     | Some (items, rest) => Some (JArr items, rest)
                     | None => None
                     end
            | [] => None
            end
          else if (a =? "034")%char then
            match read_string s1 with
            | Some (str, rest) => Some (JStr str, rest)
            | None => None
            end
          else
            match a :: s1 with
            | "n" :: "u" :: "l" :: "l" :: rest => Some (JNull, rest)
            | "t" :: "r" :: "u" :: "e" :: rest => Some (JBool true, rest)
            | "f" :: "a" :: "l" :: "s" :: "e" :: rest => Some (JBool false, rest)
            | _ => read_number (a :: s1)
            end%char
      | [] => None
      end
  end
with read_items (fuel : nat) (s : list ascii) {struct fuel}
    : option (list json * list ascii) :=
  match fuel with
  | O => None
  | S fuel' =>
      match read_value fuel' s with
      | Some (v, s1) =>
          match skip_space s1 with
          | a :: s2 =>
              if (a =? ",")%char then
                match read_items fuel' s2 with
                | Some (items, rest) => Some (v :: items, rest)
                | None => None
                end
              else if (a =? "]")%char then Some ([v], s2)
              else None
          | [] => None
          end
      | None => None
      end
  end.

Definition example_json_loads (s : string) : option json :=
  match read_value (2 * String.length s + 2) (list_ascii_of_string s) with
  | Some (v, rest) =>
      match skip_space rest with
      | [] => Some v
      | _ :: _ => None
      end
  | None => None
  end.

Definition quotation_mark : string := String "034" EmptyString.

(** A writer for the same documents, to stand for [json.dumps]; it is
    right on them only (an object or a float comes out as [null]). *)
Fixpoint write_value (j : json) : string :=
  match j with
  | JBool true => "true"
  | JBool false => "false"
  | JNum z => NilEmpty.string_of_int (Z.to_int z)
  | JStr s => quotation_mark ++ s ++ quotation_mark
  | JArr l =>
      "[" ++ (fix write_items (l : list json) : string :=
                match l with
                | [] => ""
                | [x] => write_value x
                | x :: l' => write_value x ++ ", " ++ write_items l'
                end) l ++ "]"
  | JNull | JObj _ | JFloat _ => "null"
  end%string.

Definition example_json_dumps (j : json) : string := write_value j.

(** [json.loads] on bytes that are ASCII text. *)
Definition example_json_loads_bytes (b : string) : exn + json :=
  match example_json_loads b with
  | Some j => inr j
  | None => inl JSONDecodeError
  end.

(** The two codecs a connection may have for [jsonb].  asyncpg's own
    takes a [str] and hands it to the server, which parses it.  One made
    of [json.dumps] and [json.loads] dumps the [str] it is given once
    more, so that the text is stored as a JSON string. *)
Definition text_jsonb (s : string) : exn + json :=
  match example_json_loads s with
  | Some j => inr j
  | None => inl DataError
  end.

Definition dumps_jsonb (s : string) : exn + json := inr (JStr s).

(** A [text[]] codec that refuses whatever is no list of [str] and
    [None]. *)
Definition example_text_array_other (j : json) : option exn := Some DataError.

(** The text [["!","."]], with its quotation marks. *)
Definition prefixes_text : string :=
  ("[" ++ quotation_mark ++ "!" ++ quotation_mark ++ ","
       ++ quotation_mark ++ "." ++ quotation_mark ++ "]")%string.

Definition prefixes_row : LegacyServerProperty :=
  {| lp_server_id := 1; lp_name := "prefixes"; lp_value := PyStr prefixes_text |}.

Definition commandsonly_row : LegacyServerProperty :=
  {| lp_server_id := 1; lp_name := "commandsonly"; lp_value := PyStr "0" |}.

(** A legacy store with two characters of one name, a third character,
    near and exact duplicates, two events, and a participant whose
    character is gone. *)
Definition small_legacy : Legacy :=
  {| chars := [legacy_character 7 "Bob" 50; legacy_character 3 "Bob" 20;
               legacy_character 9 "Eve" 10];
     char_levelups :=
       [{| ll_char_id := 7; ll_level := 49; ll_date := 0 |};
        {| ll_char_id := 7; ll_level := 50; ll_date := 10 |};
        {| ll_char_id := 3; ll_level := 20; ll_date := 100 |};
        {| ll_char_id := 9; ll_level := 10; ll_date := 5 |}];
     char_deaths :=
       [{| ld_char_id := 7; ld_level := 50; ld_date := 5;
           ld_killer := "a dragon"; ld_byplayer := 0 |};
        {| ld_char_id := 3; ld_level := 20; ld_date := 5;
           ld_killer := "Alice"; ld_byplayer := 1 |};
        {| ld_char_id := 9; ld_level := 10; ld_date := 7;
           ld_killer := "a rat"; ld_byplayer := 0 |}];
     server_properties := [prefixes_row; commandsonly_row];
     events :=
       [{| le_id := 1; le_creator := 42; le_name := "Hunt"; le_start := 500;
           le_active := 1; le_status := 1; le_description := None;
           le_server := 1; le_joinable := 1; le_slots := 5 |};
        {| le_id := 2; le_creator := 42; le_name := "Quest"; le_start := 900;
           le_active := 0; le_status := 4;
           le_description := Some "Done"%string;
           le_server := 1; le_joinable := 0; le_slots := 0 |}];
     event_subscribers := [{| ls_event_id := 1; ls_user_id := 43 |}];
     event_participants :=
       [{| lpt_event_id := 1; lpt_char_id := 7 |};
        {| lpt_event_id := 1; lpt_char_id := 99 |};
        {| lpt_event_id := 2; lpt_char_id := 9 |}];
     auto_roles := [{| lar_server_id := Some 1; lar_role_id := Some 2;
                       lar_guild := Some "Redd"%string |}];
     joinable_roles := [{| ljr_server_id := Some 1; ljr_role_id := Some 3 |}] |}.

(** A store that already has a character called Bob, last modified at
    second 5. *)
Definition bob_row : Character :=
  {| ch_id := 1; ch_user_id := 42; ch_name := "Bob"; ch_level := Some 50;
     ch_world := Some "Antica"%string; ch_vocation := Some "Knight"%string;
     ch_guild := None; ch_modified := Some 5; ch_created := Some 5 |}.

Definition bob_store : Db := with_character empty_db [bob_row] 2.

(** A store where Bob has a level-up at second 0 and a death at second 5. *)
Definition bob_history : Db :=
  with_character_levelup
    (with_character_death bob_store
       [{| d_id := 1; d_character_id := 1; d_level := Some 50; d_date := Some 5 |}] 2)
    [{| lu_id := 1; lu_character_id := 1; lu_level := Some 49; lu_date := Some 0 |}] 2.

Definition bob_legacy : Legacy := legacy_of [legacy_character 7 "Bob" 50] [] [].

(** Two characters, the first with a level no [smallint] holds. *)
Definition overflowing_legacy : Legacy :=
  legacy_of [legacy_character 1 "Alice" 40000; legacy_character 2 "Bob" 50] [] [].

(** A legacy store whose second property is no JSON text. *)
Definition unreadable_row : LegacyServerProperty :=
  {| lp_server_id := 1; lp_name := "times"; lp_value := PyStr "[" |}.

Definition unreadable_legacy : Legacy :=
  {| chars := []; char_levelups := []; char_deaths := [];
     server_properties := [commandsonly_row; unreadable_row];
     events := []; event_subscribers := []; event_participants := [];
     auto_roles := [{| lar_server_id := Some 1; lar_role_id := Some 2;
                       lar_guild := Some "Redd"%string |}];
     joinable_roles := [] |}.

(** A legacy store whose second event has more slots than a [smallint]
    holds; both events have a subscriber. *)
Definition hunt_event : LegacyEvent :=
  {| le_id := 1; le_creator := 42; le_name := "Hunt"; le_start := 500;
     le_active := 1; le_status := 1; le_description := None;
     le_server := 1; le_joinable := 1; le_slots := 5 |}.

Definition crowded_event : LegacyEvent :=
  {| le_id := 2; le_creator := 42; le_name := "War"; le_start := 900;
     le_active := 1; le_status := 0; le_description := None;
     le_server := 1; le_joinable := 1; le_slots := 40000 |}.

Definition unfit_legacy : Legacy :=
  {| chars := []; char_levelups := []; char_deaths := [];
     server_properties := [];
     events := [hunt_event; crowded_event];
     event_subscribers := [{| ls_event_id := 1; ls_user_id := 43 |};
                           {| ls_event_id := 2; ls_user_id := 44 |}];
     event_participants := [];
     auto_roles := []; joinable_roles := [] |}.

(** Bob with three deaths, the second at a level no [smallint] holds,
    and one level-up. *)
Definition fatal_death_legacy : Legacy :=
  legacy_of [legacy_character 7 "Bob" 50]
            [{| ll_char_id := 7; ll_level := 49; ll_date := 0 |}]
            [{| ld_char_id := 7; ld_level := 50; ld_date := 5;
                ld_killer := "a dragon"; ld_byplayer := 0 |};
             {| ld_char_id := 7; ld_level := 40000; ld_date := 7;
                ld_killer := "a rat"; ld_byplayer := 0 |};
             {| ld_char_id := 7; ld_level := 50; ld_date := 9;
                ld_killer := "Alice"; ld_byplayer := 1 |}].

(** Bob with one death and three level-ups, the second at a level no
    [smallint] holds. *)
Definition fatal_levelup_legacy : Legacy :=
  legacy_of [legacy_character 7 "Bob" 50]
            [{| ll_char_id := 7; ll_level := 49; ll_date := 0 |};
             {| ll_char_id := 7; ll_level := 40000; ll_date := 100 |};
             {| ll_char_id := 7; ll_level := 51; ll_date := 200 |}]
            [{| ld_char_id := 7; ld_level := 50; ld_date := 5;
                ld_killer := "a dragon"; ld_byplayer := 0 |}].

(** Two automatic roles, the second for any guild: its [guild] is
    [NULL]. *)
Definition any_guild_role : LegacyAutoRole :=
  {| lar_server_id := Some 1; lar_role_id := Some 3; lar_guild := None |}.

Definition any_guild_legacy : Legacy :=
  {| chars := []; char_levelups := []; char_deaths := [];
     server_properties := []; events := [];
     event_subscribers := []; event_participants := [];
     auto_roles := [{| lar_server_id := Some 1; lar_role_id := Some 2;
                       lar_guild := Some "Redd"%string |};
                    any_guild_role];
     joinable_roles := [{| ljr_server_id := Some 1; ljr_role_id := Some 3 |}] |}.

(** The property [commandsonly] stored as an empty [BLOB]. *)
Definition empty_blob_row : LegacyServerProperty :=
  {| lp_server_id := 1; lp_name := "commandsonly"; lp_value := PyBytes "" |}.

Definition empty_blob_legacy : Legacy :=
  {| chars := []; char_levelups := []; char_deaths := [];
     server_properties := [empty_blob_row]; events := [];
     event_subscribers := []; event_participants := [];
     auto_roles := []; joinable_roles := [] |}.

(** A legacy store with the one property [prefixes]. *)
Definition prefixes_legacy : Legacy :=
  {| chars := []; char_levelups := []; char_deaths := [];
     server_properties := [prefixes_row]; events := [];
     event_subscribers := []; event_participants := [];
     auto_roles := []; joinable_roles := [] |}.

(** A store where server 1 has the prefix [?]. *)
Definition question_store : Db :=
  with_server_prefixes empty_db
    [{| spx_server_id := 1; spx_prefixes := TextArray [Some "?"%string] |}].

(* ------------------------------------------------------------------ *)
(** ** The schema manager *)

Module Schema.

(** What PostgreSQL refuses a [CREATE] statement or a query with. *)
Inductive ddl_exn :=
| DuplicateTableError
| UndefinedTableError
| DuplicateFunctionError
| UndefinedFunctionError
| DuplicateObjectError.

(** An exception that leaves the schema manager: one of PostgreSQL's, or
    one of Python's and of asyncpg's check of a query argument. *)
Inductive pg_exn :=
| Postgres (e : ddl_exn)
| Python (e : exn).

(** The part of the target database the schema manager reads and writes:
    the names of its tables and of its functions, its triggers (name and
    table), and the rows of [global_property] (key and value; they mean
    something only while the table exists). *)
Record Catalog := {
  pg_class : list string;
  pg_proc : list string;
  pg_trigger : list (string * string);
  global_property : list (string * option json) }.

Definition empty_catalog : Catalog :=
  {| pg_class := []; pg_proc := []; pg_trigger := []; global_property := [] |}.

(** The statements of [tables], [functions] and [triggers], by what they
    create: a table, with the tables its foreign keys reference; a
    function; a trigger on a table that calls a function. *)
Inductive ddl :=
| CreateTable (name : string) (references : list string)
| CreateFunction (name : string)
| CreateTrigger (name table procedure : string).

Definition tables : list ddl :=
  [ CreateTable "character" [];
    CreateTable "character_death" ["character"%string];
    CreateTable "character_death_killer" ["character_death"%string];
    CreateTable "character_levelup" ["character"%string];
    CreateTable "event" [];
    CreateTable "event_participant" ["event"%string; "character"%string];
    CreateTable "event_subscriber" ["event"%string];
    CreateTable "highscores" [];
    CreateTable "highscores_entry" [];
    CreateTable "role_auto" [];
    CreateTable "role_joinable" [];
    CreateTable "server_property" [];
    CreateTable "server_prefixes" [];
    CreateTable "global_property" [];
    CreateTable "watchlist_entry" [];
    CreateTable "command" [] ].

Definition functions : list ddl :=
  [ CreateFunction "update_modified_column" ].

Definition triggers : list ddl :=
  [ CreateTrigger "update_character_modified" "character" "update_modified_column";
    CreateTrigger "update_event_modified" "event" "update_modified_column" ].

Definition LATEST_VERSION : Z := 1.

(** Coroutines on a connection: a state, and an exception or a result. *)
Definition run (A : Type) : Type := Catalog -> (pg_exn + A) * Catalog.

Definition pure (A : Type) (a : A) : run A := fun K => (inr a, K).

Definition throw (A : Type) (e : pg_exn) : run A := fun K => (inl e, K).

Arguments throw {A} e.

Definition await (A B : Type) (m : run A) (k : A -> run B) : run B :=
  fun K =>
    match m K with
    | (inr a, K1) => k a K1
    | (inl e, K1) => (inl e, K1)
    end.

Fixpoint for_each (A : Type) (l : list A) (body : A -> run unit) : run unit :=
  match l with
  | [] => pure tt
  | x :: l' => await (body x) (fun _ => for_each l' body)
  end.

Definition has (name : string) (l : list string) : bool :=
  existsb (String.eqb name) l.

Definition has_trigger (name table : string) (l : list (string * string)) : bool :=
  existsb (fun t => (fst t =? name)%string && (snd t =? table)%string) l.

(** [await con.execute(query)] for a [CREATE] statement.  The statement is
    its own transaction: when PostgreSQL refuses it the catalog is as it
    was.  A new table is empty. *)
Definition execute (q : ddl) : run unit :=
  fun K =>
    match q with
    | CreateTable name references =>
        if has name (pg_class K)
        then (inl (Postgres DuplicateTableError), K)
        else if negb (forallb (fun r => has r (pg_class K)) references)
        then (inl (Postgres UndefinedTableError), K)
        else
          (inr tt,
           {| pg_class := pg_class K ++ [name];
              pg_proc := pg_proc K;
              pg_trigger := pg_trigger K;
              global_property :=
                if (name =? "global_property")%string then []
                else global_property K |})
    | CreateFunction name =>
        if has name (pg_proc K)
        then (inl (Postgres DuplicateFunctionError), K)
        else
          (inr tt,
           {| pg_class := pg_class K;
              pg_proc := pg_proc K ++ [name];
              pg_trigger := pg_trigger K;
              global_property := global_property K |})
    | CreateTrigger name table procedure =>
        if negb (has table (pg_class K))
        then (inl (Postgres UndefinedTableError), K)
        else if negb (has procedure (pg_proc K))
        then (inl (Postgres UndefinedFunctionError), K)
        else if has_trigger name table (pg_trigger K)
        then (inl (Postgres DuplicateObjectError), K)
        else
          (inr tt,
           {| pg_class := pg_class K;
              pg_proc := pg_proc K;
              pg_trigger := pg_trigger K ++ [(name, table)];
              global_property := global_property K |})
    end.

(** The value stored under [db_version]; [None] for no row and for a
    [NULL]. *)
Definition db_version (K : Catalog) : option json :=
  match find (fun r => (fst r =? "db_version")%string) (global_property K) with
  | Some r => snd r
  | None => None
  end.

(** [await con.fetchval("SELECT value FROM global_property WHERE key =
    'db_version'")] *)
Definition fetch_version : run (option json) :=
  fun K =>
    if negb (has "global_property" (pg_class K))
    then (inl (Postgres UndefinedTableError), K)
    else (inr (db_version K), K).

(** What [get_version] returns: what [fetchval] gave, or the [0] of the
    [except] branch. *)
Inductive version :=
| Fetched (value : option json)
| Int (z : Z).

Section Connection.

(** The codec of the connection for [jsonb] is set where the pool is
    made, outside this file.  [jsonb_encoder z] is what it makes of the
    Python int [z] passed as a query argument, [inl] the exception it
    raises; [version_le_0 j] is what [version <= 0] gives on the Python
    value it decodes the document [j] to. *)
Variable jsonb_encoder : Z -> exn + json.
Variable version_le_0 : json -> exn + bool.

(** [INSERT INTO global_property (key, value) VALUES ('db_version',$1)
    ON CONFLICT (key) DO UPDATE SET value = EXCLUDED.value]: the statement
    is prepared, then the argument is encoded. *)
Definition set_version (version : Z) : run unit :=
  fun K =>
    if negb (has "global_property" (pg_class K))
    then (inl (Postgres UndefinedTableError), K)
    else
      match jsonb_encoder version with
      | inl e => (inl (Python e), K)
      | inr j =>
          (inr tt,
           {| pg_class := pg_class K;
              pg_proc := pg_proc K;
              pg_trigger := pg_trigger K;
              global_property :=
                if existsb (fun r => (fst r =? "db_version")%string) (global_property K)
                then map (fun r => if (fst r =? "db_version")%string
                                   then (fst r, Some j) else r)
                         (global_property K)
                else global_property K ++ [("db_version"%string, Some j)] |})
      end.

Definition get_version : run version :=
  fun K =>
    match fetch_version K with
    | (inr value, K1) => (inr (Fetched value), K1)
    | (inl (Postgres UndefinedTableError), K1) => (inr (Int 0), K1)
    | (inl e, K1) => (inl e, K1)
    end.

(** [version <= 0]; Python 3 has no order between [None] and an int. *)
Definition le_0 (v : version) : run bool :=
  match v with
  | Int z => pure (z <=? 0)
  | Fetched None => throw (Python TypeError)
  | Fetched (Some j) =>
      match version_le_0 j with
      | inr b => pure b
      | inl e => throw (Python e)
      end
  end.

Definition create_database : run unit :=
  await (for_each tables execute) (fun _ =>
  await (for_each functions execute) (fun _ =>
  await (for_each triggers execute) (fun _ =>
  set_version LATEST_VERSION))).

Definition check_database : run unit :=
  await get_version (fun version =>
  await (le_0 version) (fun nonpositive =>
  if nonpositive
  then await create_database (fun _ => set_version 1)
  else pure tt)).

End Connection.

(** *** Vocabulary of the properties *)

(** The connection's codec is [json.dumps] and [json.loads]: an int is
    stored as a number and comes back as an int, [True] and [False] are
    the ints 1 and 0, a float compares as a number, no other value has
    an order with 0. *)
Definition json_encoder (z : Z) : exn + json := inr (JNum z).

Definition json_le_0 (j : json) : exn + bool :=
  match j with
  | JNum z => inr (z <=? 0)
  | JBool b => inr (negb b)
  | JFloat f => inr (PrimFloat.leb f PrimFloat.zero)
  | _ => inl TypeError
  end.

(** The connection has asyncpg's own codec: [jsonb] goes in and out as
    text, an int argument is refused and a text has no order with 0. *)
Definition text_encoder (z : Z) : exn + json := inl DataError.

Definition text_le_0 (j : json) : exn + bool := inl TypeError.

(** The catalog objects a statement looks for before it creates its
    own. *)
Definition absent (K : Catalog) (q : ddl) : bool :=
  match q with
  | CreateTable name _ => negb (has name (pg_class K))
  | CreateFunction name => negb (has name (pg_proc K))
  | CreateTrigger name table _ => negb (has_trigger name table (pg_trigger K))
  end.

(** None of the objects of [create_database] is in the catalog. *)
Definition fresh (K : Catalog) : bool :=
  forallb (absent K) (tables ++ functions ++ triggers).

(** The objects of [D] next to those of [K]; [global_property] is the
    table of [D] if [D] has one. *)
Definition onto (K D : Catalog) : Catalog :=
  {| pg_class := pg_class K ++ pg_class D;
     pg_proc := pg_proc K ++ pg_proc D;
     pg_trigger := pg_trigger K ++ pg_trigger D;
     global_property :=
       if has "global_property" (pg_class D) then global_property D
       else global_property K |}.

(** All the objects of [create_database], and the given rows of
    [global_property]. *)
Definition schema (rows : list (string * option json)) : Catalog :=
  {| pg_class :=
       ["character"; "character_death"; "character_death_killer";
        "character_levelup"; "event"; "event_participant"; "event_subscriber";
        "highscores"; "highscores_entry"; "role_auto"; "role_joinable";
        "server_property"; "server_prefixes"; "global_property";
        "watchlist_entry"; "command"]%string;
     pg_proc := ["update_modified_column"%string];
     pg_trigger := [("update_character_modified", "character");
                    ("update_event_modified", "event")]%string;
     global_property := rows |}.

(** [K'] is [K] after some [CREATE] statements: the tables of [K] are
    there, and [global_property] is as in [K] or new and empty. *)
Definition created_from (K K' : Catalog) : Prop :=
  (forall n, has n (pg_class K) = true -> has n (pg_class K') = true) /\
  ((global_property K' = global_property K /\
    has "global_property" (pg_class K') = has "global_property" (pg_class K)) \/
   (global_property K' = [] /\ has "global_property" (pg_class K') = true)).

(** A database in which a table called [event] is in the way, and one
    that has the schema and a property of its own. *)
Definition occupied : Catalog :=
  {| pg_class := ["event"%string]; pg_proc := []; pg_trigger := [];
     global_property := [] |}.

Definition configured : Catalog :=
  schema [("motd"%string, Some (JStr "hello"))].

End Schema.

Section Importers.

(** [clock n] is the value of [now()] in the [n]-th statement the target
    store receives. *)
Variable clock : nat -> timestamp.

(** [json.loads] of the standard library, [None] where it raises
    [JSONDecodeError]. *)
Variable json_loads : string -> option json.

(** [json.loads] on [bytes], which decodes them first: the object, or the
    exception of the decoding or of the parse. *)
Variable json_loads_bytes : string -> exn + json.

(** [json.dumps] of the standard library. *)
Variable json_dumps : json -> string.

(** The codec of the connection for [jsonb], set where the pool is made,
    outside this file: the document stored for a [str] argument, or the
    exception raised.  (In [Schema] the same codec is asked for an [int].) *)
Variable jsonb_of_str : string -> exn + json.

(** asyncpg's codec for [text[]] on an object that is no list of [str]
    and [None]: the exception it raises, if it raises. *)
Variable text_array_other : json -> option exn.

(** [await conn.fetchval(...)], [conn.fetchrow(...)], [conn.execute(...)]:
    each statement is its own transaction. *)
Definition execute (A : Type) (q : statement A) : M A :=
  fun w =>
    let (r, d) := q (clock (stmts w)) (db w) in
    let w' := {| db := d; stmts := S (stmts w); stdout := stdout w |} in
    match r with
    | inr a => Ok a w'
    | inl e => Raised e w'
    end.

(** *** import_characters *)

(** The body of the first loop: upsert the character, then collect its
    level-ups and deaths under the id the upsert returned. *)
Definition import_character (c : Legacy)
    (acc : list levelup_tuple * list death_tuple) (row : LegacyCharacter)
    : M (list levelup_tuple * list death_tuple) :=
  let old_id := lc_id row in
  char_id <- execute (upsert_character (lc_user_id row) (lc_name row)
                        (lc_level row) (lc_vocation row) (lc_world row)
                        (lc_guild row)) ;;
  ret (fst acc ++ select_levelups c char_id old_id,
       snd acc ++ select_deaths c char_id old_id).

(** The body of the second loop; the accumulator is [skipped_deaths]. *)
Definition import_death (skipped_deaths : nat) (death : death_tuple) : M nat :=
  let '(char_id, level, date, killer, byplayer) := death in
  let byplayer := byplayer =? 1 in
  match utcfromtimestamp date with
  | None => raise ValueError
  | Some date =>
      exists_ <- execute (select_death date char_id) ;;
      match exists_ with
      | Some _ => ret (S skipped_deaths)
      | None =>
          death_id <- execute (insert_death char_id level date) ;;
          execute (insert_killer death_id killer byplayer) ;;
          ret skipped_deaths
      end
  end.

(** The body of the third loop; the accumulator is [skipped_levelups]. *)
Definition import_levelup (skipped_levelups : nat) (levelup : levelup_tuple) : M nat :=
  let '(char_id, level, date) := levelup in
  match utcfromtimestamp date with
  | None => raise ValueError
  | Some date =>
      exists_ <- execute (select_levelup char_id date) ;;
      match exists_ with
      | Some _ => ret (S skipped_levelups)
      | None =>
          execute (insert_levelup char_id level date) ;;
          ret skipped_levelups
      end
  end.

Definition import_characters (c : Legacy) : M unit :=
  let rows := select_chars c in
  collected <- for_ rows (import_character c) ([], []) ;;
  let (levelups, deaths) := collected in
  let deaths := sorted death_date deaths in
  skipped_deaths <- for_ deaths import_death 0%nat ;;
  (if (0 <? skipped_deaths)%nat then print (SkippedDeaths skipped_deaths) else ret tt) ;;
  let levelups := sorted levelup_date levelups in
  skipped_levelups <- for_ levelups import_levelup 0%nat ;;
  (if (0 <? skipped_levelups)%nat then print (SkippedLevelUps skipped_levelups) else ret tt).

(** *** import_server_properties *)

(** [json.loads(value)]: the argument has to be text or bytes. *)
Definition loads (value : pyvalue) : M json :=
  match value with
  | PyStr s =>
      match json_loads s with
      | Some j => ret j
      | None => raise JSONDecodeError
      end
  | PyBytes b =>
      match json_loads_bytes b with
      | inr j => ret j
      | inl e => raise e
      end
  | _ => raise TypeError
  end.

(** [json.dumps(value)] on a legacy value. *)
Definition dumps (value : pyvalue) : M string :=
  match json_of_pyvalue value with
  | Some j => ret (json_dumps j)
  | None => raise TypeError
  end.

(** The [str] argument of a [jsonb] parameter, through the codec of the
    connection. *)
Definition jsonb (text : string) : M json :=
  match jsonb_of_str text with
  | inr j => ret j
  | inl e => raise e
  end.

(** The argument of a [text[]] parameter: [None] is [NULL], a list of
    [str] and [None] is the array of its items; the rest is up to asyncpg. *)
Definition text_array (j : json) : M (option text_array_value) :=
  let other :=
    match text_array_other j with
    | Some e => raise e
    | None => ret (Some (OtherArray j))
    end in
  match j with
  | JNull => ret None
  | JArr l =>
      match text_items l with
      | Some items => ret (Some (TextArray items))
      | None => other
      end
  | _ => other
  end.

Definition import_server_property (_ : unit) (row : LegacyServerProperty) : M unit :=
  let server := lp_server_id row in
  let key := lp_name row in
  let value := lp_value row in
  if (key =? "prefixes")%string then
    j <- loads value ;;
    prefixes <- text_array j ;;
    execute (insert_server_prefixes server prefixes)
  else
    value <- (if (key =? "times")%string then j <- loads value ;; ret (json_dumps j)
              else if (key =? "commandsonly")%string
              then ret (json_dumps (JBool (py_bool value)))
              else dumps value) ;;
    document <- jsonb value ;;
    execute (insert_server_property server key document).

Definition import_server_properties (c : Legacy) : M unit :=
  for_ (server_properties c) import_server_property tt.

(** *** import_events *)

Definition import_event (c : Legacy)
    (acc : list (Z * Z) * list (Z * option string)) (row : LegacyEvent)
    : M (list (Z * Z) * list (Z * option string)) :=
  let old_id := le_id row in
  match utcfromtimestamp (le_start row) with
  | None => raise ValueError
  | Some start =>
      let active := bool_of_int (le_active row) in
      let joinable := bool_of_int (le_joinable row) in
      let status := 4 - le_status row in
      event_id <- execute (insert_event (le_creator row) (le_name row) start
                             active (le_description row) (le_server row)
                             joinable (le_slots row) status) ;;
      ret (fst acc ++ select_subscribers c event_id old_id,
           snd acc ++ select_participants c event_id old_id)
  end.

Definition import_subscriber (_ : unit) (row : Z * Z) : M unit :=
  execute (insert_event_subscriber (fst row) (snd row)).

Definition import_participant (_ : unit) (row : Z * option string) : M unit :=
  let (event_id, name) := row in
  char_id <- execute (select_character_id name) ;;
  match char_id with
  | None => ret tt
  | Some char_id => execute (insert_event_participant event_id char_id)
  end.

Definition import_events (c : Legacy) : M unit :=
  collected <- for_ (events c) (import_event c) ([], []) ;;
  let (event_subscribers, event_participants) := collected in
  for_ event_subscribers import_subscriber tt ;;
  for_ event_participants import_participant tt.

(** *** import_roles *)

Definition import_roles (c : Legacy) : M unit :=
  for_ (auto_roles c)
       (fun _ row => execute (insert_role_auto (lar_server_id row)
                                (lar_role_id row) (lar_guild row))) tt ;;
  for_ (joinable_roles c)
       (fun _ row => execute (insert_role_joinable (ljr_server_id row)
                                (ljr_role_id row))) tt.

(** *** import_legacy_db *)

Definition import_legacy_db (c : Legacy) : M unit :=
  import_characters c ;;
  import_server_properties c ;;
  import_roles c ;;
  import_events c.

(* ---------------------------------------------------------------- *)
(** ** Vocabulary of the properties *)

(** The world a run ends in, whether it returned or raised. *)
Definition after (A : Type) (o : outcome A) : World :=
  match o with
  | Ok _ w => w
  | Raised _ w => w
  end.

(** The world after a [SELECT]. *)
Definition tick (w : World) : World :=
  {| db := db w; stmts := S (stmts w); stdout := stdout w |}.

(** [steps R m]: running [m] takes every store to an [R]-related one,
    also when [m] raises. *)
Definition steps (R : Db -> Db -> Prop) (A : Type) (m : M A) : Prop :=
  forall w, R (db w) (db (after (m w))).

(** [respects R q]: the statement [q] takes every store to an
    [R]-related one, also when it fails. *)
Definition respects (R : Db -> Db -> Prop) (A : Type) (q : statement A) : Prop :=
  forall now d, R d (snd (q now d)).

(** Two [character] rows that agree on every column but [modified]. *)
Definition unchanged_except_modified (r r' : Character) : Prop :=
  ch_id r' = ch_id r /\ ch_user_id r' = ch_user_id r /\
  ch_name r' = ch_name r /\ ch_level r' = ch_level r /\
  ch_world r' = ch_world r /\ ch_vocation r' = ch_vocation r /\
  ch_guild r' = ch_guild r /\ ch_created r' = ch_created r.

(** The [character] table after some upserts: the old rows in place, up
    to [modified], followed by the new ones. *)
Definition chars_grow (rows rows' : list Character) : Prop :=
  exists olds news,
    rows' = olds ++ news /\ Forall2 unchanged_except_modified rows olds.

Definition extends (A : Type) (l l' : list A) : Prop :=
  exists news, l' = l ++ news.

(** No statement of the importers deletes a row or changes one, apart
    from [modified] of a character. *)
Definition grows (d d' : Db) : Prop :=
  chars_grow (character d) (character d') /\
  extends (character_death d) (character_death d') /\
  extends (character_death_killer d) (character_death_killer d') /\
  extends (character_levelup d) (character_levelup d') /\
  extends (event d) (event d') /\
  extends (event_participant d) (event_participant d') /\
  extends (event_subscriber d) (event_subscriber d') /\
  extends (server_property d) (server_property d') /\
  extends (server_prefixes d) (server_prefixes d').

(** The tables of characters, deaths and level-ups. *)
Definition character_tables (d : Db)
    : list Character * list CharacterDeath * list CharacterLevelUp :=
  (character d, character_death d, character_levelup d).

(** What a pass prints for [n] skipped records. *)
Definition reported (r : nat -> report) (n : nat) : list report :=
  if (0 <? n)%nat then [r n] else [].

(** [keeps f]: the part [f] of the store is left as it was. *)
Definition keeps (T : Type) (f : Db -> T) (d d' : Db) : Prop := f d' = f d.

(** The id of the character called [name], if there is one. *)
Definition name_id (rows : list Character) (name : string) : option Z :=
  option_map ch_id (find (fun r => (ch_name r =? name)%string) rows).

Definition resolve (d : Db) (name : string) : option Z :=
  name_id (character d) name.

(** The level-ups and deaths the first loop collects when the character
    of each legacy row has the id [id_of] gives its name. *)
Definition collected_levelups (c : Legacy) (id_of : string -> Z)
    (rows : list LegacyCharacter) : list levelup_tuple :=
  flat_map (fun ch => select_levelups c (id_of (lc_name ch)) (lc_id ch)) rows.

Definition collected_deaths (c : Legacy) (id_of : string -> Z)
    (rows : list LegacyCharacter) : list death_tuple :=
  flat_map (fun ch => select_deaths c (id_of (lc_name ch)) (lc_id ch)) rows.

Definition resolved (d : Db) (name : string) : Z :=
  match resolve d name with
  | Some id => id
  | None => 0
  end.

Definition death_present (d : Db) (char_id : Z) (date : timestamp) : Prop :=
  exists r, In r (character_death d) /\ d_character_id r = char_id /\
            d_date r = Some date.

Definition levelup_near (d : Db) (char_id : Z) (date : timestamp) : Prop :=
  exists r e, In r (character_levelup d) /\ lu_character_id r = char_id /\
              lu_date r = Some e /\ Z.max (date - e) (e - date) <= 15.

(** What a store holds once the characters of [c] have been imported
    into it: every name is there, and every death and level-up collected
    under the id of its character's name is found by the duplicate
    checks. *)
Definition characters_imported (c : Legacy) (d : Db) : Prop :=
  (forall ch, In ch (select_chars c) ->
              int2 (lc_level ch) = true /\ resolve d (lc_name ch) <> None) /\
  (forall t, In t (collected_deaths c (resolved d) (select_chars c)) ->
             death_present d (death_char_id t) (death_date t) /\
             utcfromtimestamp (death_date t) = Some (death_date t)) /\
  (forall t, In t (collected_levelups c (resolved d) (select_chars c)) ->
             levelup_near d (levelup_char_id t) (levelup_date t) /\
             utcfromtimestamp (levelup_date t) = Some (levelup_date t)).

(** The constraints [UNIQUE(name)] of [character] and
    [UNIQUE(character_id, date)] of [character_death]. *)
Definition unique_names (d : Db) : Prop :=
  NoDup (map ch_name (character d)).

Definition unique_deaths (d : Db) : Prop :=
  forall char_id date,
    (List.length (filter (death_matches date char_id) (character_death d)) <= 1)%nat.

(** The [event] row made from a legacy event. *)
Definition imported_event (e : LegacyEvent) (r : Event) : Prop :=
  ev_reminder r = 4 - le_status e /\
  ev_name r = le_name e /\ ev_user_id r = le_creator e /\
  ev_server_id r = le_server e /\ ev_slots r = le_slots e.

(** What the lookup of a participant's name gives. *)
Definition lookup (d : Db) (name : option string) : option Z :=
  match name with
  | Some n => resolve d n
  | None => None
  end.


(** [ServerProperty] rows under the key [prefixes] are those of [d]. *)
Definition no_new_prefixes_property (d d' : Db) : Prop :=
  forall r, In r (server_property d') -> sp_key r = "prefixes"%string ->
            In r (server_property d).

(** The target row a legacy role rule stands for; none when one of its
    columns is [NULL]. *)
Definition role_auto_of (r : LegacyAutoRole) : option RoleAuto :=
  match lar_server_id r, lar_role_id r, lar_guild r with
  | Some server_id, Some role_id, Some rule =>
      Some {| ra_server_id := server_id; ra_role_id := role_id; ra_rule := rule |}
  | _, _, _ => None
  end.

Definition role_joinable_of (r : LegacyJoinableRole) : option RoleJoinable :=
  match ljr_server_id r, ljr_role_id r with
  | Some server_id, Some role_id =>
      Some {| rj_server_id := server_id; rj_role_id := role_id |}
  | _, _ => None
  end.

(** The text a legacy property other than [prefixes] is handed to the
    connection as, or the exception raised on the way. *)
Definition property_text (row : LegacyServerProperty) : exn + string :=
  if (lp_name row =? "times")%string then
    match lp_value row with
    | PyStr s =>
        match json_loads s with
        | Some j => inr (json_dumps j)
        | None => inl JSONDecodeError
        end
    | PyBytes b =>
        match json_loads_bytes b with
        | inr j => inr (json_dumps j)
        | inl e => inl e
        end
    | _ => inl TypeError
    end
  else if (lp_name row =? "commandsonly")%string
  then inr (json_dumps (JBool (py_bool (lp_value row))))
  else
    match json_of_pyvalue (lp_value row) with
    | Some j => inr (json_dumps j)
    | None => inl TypeError
    end.

(** The document the connection stores for it. *)
Definition property_document (row : LegacyServerProperty) : exn + json :=
  match property_text row with
  | inr text => jsonb_of_str text
  | inl e => inl e
  end.

Definition same_property (server : Z) (key : string) (r : ServerProperty) : bool :=
  (sp_server_id r =? server) && (sp_key r =? key)%string.

(** The primary keys of [server_property] and [server_prefixes]. *)
Definition property_keys (d : Db) : list (Z * string) :=
  map (fun r => (sp_server_id r, sp_key r)) (server_property d).

Definition prefixes_keys (d : Db) : list Z :=
  map spx_server_id (server_prefixes d).

(** A legacy store that has server properties only. *)
Definition legacy_properties (l : list LegacyServerProperty) : Legacy :=
  {| chars := []; char_levelups := []; char_deaths := [];
     server_properties := l; events := [];
     event_subscribers := []; event_participants := [];
     auto_roles := []; joinable_roles := [] |}.

(** [k] consecutive values of a sequence that stands at [n]. *)
Definition ids_from (n : Z) (k : nat) : list Z :=
  map (fun i => n + Z.of_nat i) (seq 0 k).

(** The columns of an [event] row that are taken over from the legacy
    event, the two flags through [bool()]. *)
Definition event_copied (e : LegacyEvent) (r : Event) : Prop :=
  ev_start r = le_start e /\
  ev_active r = negb (le_active e =? 0) /\
  ev_joinable r = negb (le_joinable e =? 0) /\
  ev_description r = le_description e /\
  ev_slots r = le_slots e /\
  ev_server_id r = le_server e /\
  ev_created r = ev_modified r.

(** What it takes for a legacy event to be inserted. *)
Definition event_fits (e : LegacyEvent) : Prop :=
  -62135596800 <= le_start e <= 253402300799 /\
  -32768 <= le_slots e <= 32767 /\
  -32763 <= le_status e <= 32772.

(** The subscriber and participant rows that point at events numbered
    from [lo] up to, not including, [hi]. *)
Definition subscriber_of_run (lo hi : Z) (r : EventSubscriber) : Prop :=
  lo <= es_event_id r < hi.

Definition participant_of_run (lo hi : Z) (r : EventParticipant) : Prop :=
  lo <= ep_event_id r < hi.

(** The subscribers and participants the first loop of [import_events]
    collects, given the rows the events became. *)
Definition collected_subscribers (c : Legacy) (l : list LegacyEvent)
    (rows : list Event) : list (Z * Z) :=
  flat_map (fun p => select_subscribers c (ev_id (snd p)) (le_id (fst p)))
           (combine l rows).

Definition collected_participants (c : Legacy) (l : list LegacyEvent)
    (rows : list Event) : list (Z * option string) :=
  flat_map (fun p => select_participants c (ev_id (snd p)) (le_id (fst p)))
           (combine l rows).

(** The rows the second and third loops of [import_characters] write for
    a collected tuple, under the id the sequence gave. *)
Definition death_row_of (id : Z) (t : death_tuple) : CharacterDeath :=
  let '(char_id, level, date, _, _) := t in
  {| d_id := id; d_character_id := char_id; d_level := Some level;
     d_date := Some date |}.

Definition killer_row_of (id : Z) (t : death_tuple) : CharacterDeathKiller :=
  let '(_, _, _, killer, byplayer) := t in
  {| k_death_id := id; k_position := 0; k_name := killer;
     k_player := Some (byplayer =? 1) |}.

Definition levelup_row_of (id : Z) (t : levelup_tuple) : CharacterLevelUp :=
  let '(char_id, level, date) := t in
  {| lu_id := id; lu_character_id := char_id; lu_level := Some level;
     lu_date := Some date |}.

(** [a] was written before [b]: a smaller id and no later a timestamp. *)
Definition death_before (a b : CharacterDeath) : Prop :=
  d_id a < d_id b /\
  exists x y, d_date a = Some x /\ d_date b = Some y /\ x <= y.

Definition levelup_before (a b : CharacterLevelUp) : Prop :=
  lu_id a < lu_id b /\
  exists x y, lu_date a = Some x /\ lu_date b = Some y /\ x <= y.

(** Two level-ups of one character are more than 15 seconds apart. *)
Definition apart (a b : CharacterLevelUp) : Prop :=
  lu_character_id a = lu_character_id b ->
  forall x y, lu_date a = Some x -> lu_date b = Some y ->
              15 < Z.max (x - y) (y - x).

Definition levelups_spaced (d : Db) : Prop :=
  ForallOrdPairs apart (character_levelup d).

(** The tables each importer leaves alone. *)
Definition beside_characters (d : Db) :=
  (event d, event_seq d, event_participant d, event_subscriber d,
   server_property d, server_prefixes d, role_auto d, role_joinable d).

Definition beside_server_properties (d : Db) :=
  (character d, character_seq d, character_death d, character_death_seq d,
   character_death_killer d, character_levelup d, character_levelup_seq d,
   event d, event_seq d, event_participant d, event_subscriber d,
   role_auto d, role_joinable d).

Definition beside_roles (d : Db) :=
  (character d, character_seq d, character_death d, character_death_seq d,
   character_death_killer d, character_levelup d, character_levelup_seq d,
   event d, event_seq d, event_participant d, event_subscriber d,
   server_property d, server_prefixes d).

Definition beside_events (d : Db) :=
  (character d, character_seq d, character_death d, character_death_seq d,
   character_death_killer d, character_levelup d, character_levelup_seq d,
   server_property d, server_prefixes d, role_auto d, role_joinable d).

(** The tables of server settings and role rules. *)
Definition settings_tables (d : Db) :=
  (server_property d, server_prefixes d, role_auto d, role_joinable d).

(** The primary key a legacy property would be stored under is taken. *)
Definition setting_present (d : Db) (row : LegacyServerProperty) : bool :=
  if (lp_name row =? "prefixes")%string
  then existsb (fun r => spx_server_id r =? lp_server_id row) (server_prefixes d)
  else existsb (same_property (lp_server_id row) (lp_name row)) (server_property d).

(** The list the second loop of [import_characters] runs over, when the
    characters have the ids they have in [d]. *)
Definition deaths_of_run (c : Legacy) (d : Db) : list death_tuple :=
  sorted death_date (collected_deaths c (resolved d) (select_chars c)).

(** The death pass as the specification words it.  Two deaths are in
    order when the timestamp of the first is no later than that of the
    second. *)
Definition timestamps_ascend (a b : death_tuple) : Prop :=
  let '(_, _, date_a, _, _) := a in
  let '(_, _, date_b, _, _) := b in
  date_a <= date_b.

(** A death whose character has a row at that very timestamp is counted
    as a duplicate; another is stored under the next id and followed by
    one killer row, a player's when the legacy flag is 1.  The state is
    the two tables, the next id and the count of duplicates. *)
Definition deaths_spec
    (st : list CharacterDeath * list CharacterDeathKiller * Z * nat)
    (t : death_tuple)
    : list CharacterDeath * list CharacterDeathKiller * Z * nat :=
  let '(deaths, killers, next_id, skipped) := st in
  let '(char_id, level, date, killer, byplayer) := t in
  if existsb (fun r => (d_character_id r =? char_id) &&
                       match d_date r with
                       | Some e => e =? date
                       | None => false
                       end) deaths
  then (deaths, killers, next_id, S skipped)
  else (deaths ++ [{| d_id := next_id; d_character_id := char_id;
                      d_level := Some level; d_date := Some date |}],
        killers ++ [{| k_death_id := next_id; k_position := 0;
                       k_name := killer; k_player := Some (byplayer =? 1) |}],
        next_id + 1, skipped).

(** The two death tables and the sequence of [character_death]. *)
Definition death_tables (d : Db)
    : list CharacterDeath * list CharacterDeathKiller * Z :=
  (character_death d, character_death_killer d, character_death_seq d).

(* ---------------------------------------------------------------- *)
(** ** The monad and the loops *)

Lemma bind_Ok (A B : Type) (m : M A) (k : A -> M B) w b w' :
  (x <- m ;; k x) w = Ok b w' ->
  exists a w1, m w = Ok a w1 /\ k a w1 = Ok b w'.
Proof.
  unfold bind. destruct (m w) as [a w1|e w1]; [eauto | discriminate].
Qed.

Lemma bind_Ok_intro (A B : Type) (m : M A) (k : A -> M B) w a w1 :
  m w = Ok a w1 -> (x <- m ;; k x) w = k a w1.
Proof. unfold bind. intros ->. reflexivity. Qed.

Lemma bind_Raised_intro (A B : Type) (m : M A) (k : A -> M B) w e w1 :
  m w = Raised e w1 -> (x <- m ;; k x) w = Raised e w1.
Proof. unfold bind. intros ->. reflexivity. Qed.

Lemma after_bind (A B : Type) (m : M A) (k : A -> M B) w :
  after ((x <- m ;; k x) w) =
  match m w with
  | Ok a w1 => after (k a w1)
  | Raised _ w1 => w1
  end.
Proof. unfold bind. destruct (m w); reflexivity. Qed.

Lemma for_app (A B : Type) (body : B -> A -> M B) l1 l2 acc w :
  for_ (l1 ++ l2) body acc w =
  (acc' <- for_ l1 body acc ;; for_ l2 body acc') w.
Proof.
  revert acc w. induction l1 as [|x l1 IH]; intros acc w; simpl.
  - reflexivity.
  - unfold bind. destruct (body acc x w) as [a w1|e w1]; [|reflexivity].
    rewrite IH. reflexivity.
Qed.

(** An invariant of the loop body, indexed by the items done so far. *)
Lemma for_invariant (A B : Type) (body : B -> A -> M B)
    (I : list A -> B -> World -> Prop) l :
  (forall done x acc w acc' w',
      I done acc w -> body acc x w = Ok acc' w' -> I (done ++ [x]) acc' w') ->
  forall done acc w acc' w',
    I done acc w -> for_ l body acc w = Ok acc' w' -> I (done ++ l) acc' w'.
Proof.
  intros Hbody. induction l as [|x l IH]; intros done acc w acc' w' HI H; simpl in H.
  - inversion H; subst. now rewrite app_nil_r.
  - apply bind_Ok in H. destruct H as (a & w1 & H1 & H2).
    replace (done ++ x :: l) with ((done ++ [x]) ++ l)
      by (now rewrite <- app_assoc).
    eapply IH; [|exact H2]. eapply Hbody; eauto.
Qed.

Lemma for_raises (A B : Type) (body : B -> A -> M B) pre x post acc w acc1 w1 e w2 :
  for_ pre body acc w = Ok acc1 w1 ->
  body acc1 x w1 = Raised e w2 ->
  for_ (pre ++ x :: post) body acc w = Raised e w2.
Proof.
  intros Hpre Hx. rewrite for_app.
  erewrite bind_Ok_intro by eassumption. simpl.
  eapply bind_Raised_intro; eassumption.
Qed.

Lemma execute_Ok (A : Type) (q : statement A) w a w' :
  execute q w = Ok a w' ->
  q (clock (stmts w)) (db w) = (inr a, db w') /\
  stmts w' = S (stmts w) /\ stdout w' = stdout w.
Proof.
  unfold execute. destruct (q (clock (stmts w)) (db w)) as [[e|r] d];
    intros H; inversion H; subst; auto.
Qed.

Lemma execute_query (A : Type) (f : Db -> A) w :
  execute (query f) w =
  Ok (f (db w)) {| db := db w; stmts := S (stmts w); stdout := stdout w |}.
Proof. reflexivity. Qed.

(** *** Relations every statement respects are respected by the importers *)

Section Steps.
Variable R : Db -> Db -> Prop.
Hypothesis R_refl : forall d, R d d.
Hypothesis R_trans : forall d1 d2 d3, R d1 d2 -> R d2 d3 -> R d1 d3.

Lemma steps_ret (A : Type) (a : A) : steps R (ret a).
Proof. intros w. apply R_refl. Qed.

Lemma steps_raise (A : Type) (e : exn) : steps R (@raise A e).
Proof. intros w. apply R_refl. Qed.

Lemma steps_print r : steps R (print r).
Proof. intros w. apply R_refl. Qed.

Lemma steps_bind (A B : Type) (m : M A) (k : A -> M B) :
  steps R m -> (forall a, steps R (k a)) -> steps R (x <- m ;; k x).
Proof.
  intros Hm Hk w. unfold bind. specialize (Hm w).
  destruct (m w) as [a w1|e w1]; simpl in Hm |- *; [|exact Hm].
  eapply R_trans; [exact Hm | apply Hk].
Qed.

Lemma steps_for (A B : Type) (body : B -> A -> M B) l :
  (forall acc x, steps R (body acc x)) ->
  forall acc, steps R (for_ l body acc).
Proof.
  intros Hbody. induction l as [|x l IH]; intros acc; simpl.
  - apply steps_ret.
  - apply steps_bind; auto.
Qed.

Lemma steps_execute (A : Type) (q : statement A) :
  respects R q -> steps R (execute q).
Proof.
  intros Hq w. unfold execute. specialize (Hq (clock (stmts w)) (db w)).
  destruct (q (clock (stmts w)) (db w)) as [[e|a] d]; exact Hq.
Qed.

Lemma respects_query (A : Type) (f : Db -> A) : respects R (query f).
Proof. intros now d. apply R_refl. Qed.

Create HintDb steps.
Hint Resolve steps_ret steps_raise steps_print steps_execute
     respects_query : steps.

Ltac steps_tac :=
  repeat first
    [ apply steps_bind; [|intros ?]
    | apply steps_for; intros ? ?
    | solve [auto with steps]
    | match goal with
      | |- steps _ (if ?b then _ else _) => destruct b eqn:?
      | |- steps _ (match ?x with _ => _ end) => destruct x
      | |- steps _ (let (_, _) := ?x in _) => destruct x
      end ].

Lemma steps_import_character c acc row :
  (forall u n l v w g, respects R (upsert_character u n l v w g)) ->
  steps R (import_character c acc row).
Proof. intros H1. unfold import_character. steps_tac. Qed.

Lemma steps_import_death k death :
  (forall i l t, respects R (insert_death i l t)) ->
  (forall i n p, respects R (insert_killer i n p)) ->
  steps R (import_death k death).
Proof.
  intros H2 H3. destruct death as [[[[char_id level] date] killer] byplayer].
  unfold import_death, select_death. steps_tac.
Qed.

Lemma steps_import_levelup k levelup :
  (forall i l t, respects R (insert_levelup i l t)) ->
  steps R (import_levelup k levelup).
Proof.
  intros H4. destruct levelup as [[char_id level] date].
  unfold import_levelup, select_levelup. steps_tac.
Qed.

Lemma steps_import_characters c :
  (forall u n l v w g, respects R (upsert_character u n l v w g)) ->
  (forall i l t, respects R (insert_death i l t)) ->
  (forall i n p, respects R (insert_killer i n p)) ->
  (forall i l t, respects R (insert_levelup i l t)) ->
  steps R (import_characters c).
Proof.
  intros H1 H2 H3 H4. unfold import_characters.
  pose proof (fun acc row => steps_import_character c acc row H1).
  pose proof (fun k death => steps_import_death k death H2 H3).
  pose proof (fun k levelup => steps_import_levelup k levelup H4).
  steps_tac.
Qed.

Lemma steps_import_server_properties c :
  (forall i l, respects R (insert_server_prefixes i l)) ->
  (forall i k v, k <> "prefixes"%string ->
                 respects R (insert_server_property i k v)) ->
  steps R (import_server_properties c).
Proof.
  intros H1 H2. unfold import_server_properties, import_server_property,
    loads, dumps, jsonb, text_array. cbv zeta.
  assert (H2' : forall i k v, (k =? "prefixes")%string = false ->
                              steps R (execute (insert_server_property i k v))).
  { intros i k v Hk. apply steps_execute, H2. now apply String.eqb_neq. }
  steps_tac.
Qed.

Lemma steps_import_roles c :
  (forall i r g, respects R (insert_role_auto i r g)) ->
  (forall i r, respects R (insert_role_joinable i r)) ->
  steps R (import_roles c).
Proof. intros H1 H2. unfold import_roles. steps_tac. Qed.

Lemma steps_import_events c :
  (forall u n s a de se j sl r, respects R (insert_event u n s a de se j sl r)) ->
  (forall e u, respects R (insert_event_subscriber e u)) ->
  (forall e i, respects R (insert_event_participant e i)) ->
  steps R (import_events c).
Proof.
  intros H1 H2 H3. unfold import_events, import_event, import_subscriber,
    import_participant, select_character_id. steps_tac.
Qed.
End Steps.

Lemma steps_import_legacy_db (R : Db -> Db -> Prop) c :
  (forall d1 d2 d3, R d1 d2 -> R d2 d3 -> R d1 d3) ->
  steps R (import_characters c) ->
  steps R (import_server_properties c) ->
  steps R (import_roles c) ->
  steps R (import_events c) ->
  steps R (import_legacy_db c).
Proof.
  intros Ht H1 H2 H3 H4. unfold import_legacy_db.
  repeat (apply steps_bind; [exact Ht | try assumption | intros _]).
  assumption.
Qed.

(** *** Stores only grow *)

Lemma unchanged_refl r : unchanged_except_modified r r.
Proof. repeat split. Qed.

Lemma unchanged_trans r1 r2 r3 :
  unchanged_except_modified r1 r2 -> unchanged_except_modified r2 r3 ->
  unchanged_except_modified r1 r3.
Proof.
  unfold unchanged_except_modified. intros H1 H2.
  decompose [and] H1. decompose [and] H2. repeat split; congruence.
Qed.

Lemma Forall2_unchanged_refl l : Forall2 unchanged_except_modified l l.
Proof. induction l; constructor; auto using unchanged_refl. Qed.

Lemma Forall2_unchanged_trans l1 : forall l2 l3,
  Forall2 unchanged_except_modified l1 l2 ->
  Forall2 unchanged_except_modified l2 l3 ->
  Forall2 unchanged_except_modified l1 l3.
Proof.
  induction l1 as [|r l1 IH]; intros l2 l3 H12 H23;
    inversion H12; subst; inversion H23; subst; constructor.
  - eapply unchanged_trans; eauto.
  - eapply IH; eauto.
Qed.

Lemma chars_grow_refl l : chars_grow l l.
Proof.
  exists l, []. split; [now rewrite app_nil_r | apply Forall2_unchanged_refl].
Qed.

Lemma chars_grow_trans l1 l2 l3 :
  chars_grow l1 l2 -> chars_grow l2 l3 -> chars_grow l1 l3.
Proof.
  intros (o1 & n1 & -> & H1) (o2 & n2 & -> & H2).
  apply Forall2_app_inv_l in H2. destruct H2 as (o2a & o2b & Ha & Hb & ->).
  exists o2a, (o2b ++ n2). split; [now rewrite app_assoc|].
  eapply Forall2_unchanged_trans; eauto.
Qed.

Lemma extends_refl (A : Type) (l : list A) : extends l l.
Proof. exists []. now rewrite app_nil_r. Qed.

Lemma extends_trans (A : Type) (l1 l2 l3 : list A) :
  extends l1 l2 -> extends l2 l3 -> extends l1 l3.
Proof. intros (n1 & ->) (n2 & ->). exists (n1 ++ n2). now rewrite app_assoc. Qed.

Lemma extends_app (A : Type) (l news : list A) : extends l (l ++ news).
Proof. now exists news. Qed.

Lemma extends_In (A : Type) (l l' : list A) x : extends l l' -> In x l -> In x l'.
Proof. intros (n & ->) H. apply in_or_app. now left. Qed.

Lemma grows_refl d : grows d d.
Proof. unfold grows. auto 12 using chars_grow_refl, extends_refl. Qed.

Lemma grows_trans d1 d2 d3 : grows d1 d2 -> grows d2 d3 -> grows d1 d3.
Proof.
  unfold grows. intros H1 H2. decompose [and] H1. decompose [and] H2.
  repeat split; eauto using chars_grow_trans, extends_trans.
Qed.

Lemma chars_grow_touch now name rows :
  chars_grow rows
    (map (fun r => if (ch_name r =? name)%string
                   then update_modified_column now (set_name r name)
                   else r) rows).
Proof.
  eexists _, []. split; [now rewrite app_nil_r|].
  induction rows as [|r rows IH]; simpl; constructor; auto.
  destruct (String.eqb_spec (ch_name r) name) as [E|E].
  - unfold unchanged_except_modified; simpl. auto 10.
  - apply unchanged_refl.
Qed.

Lemma chars_grow_app rows news : chars_grow rows (rows ++ news).
Proof. exists rows, news. split; [reflexivity | apply Forall2_unchanged_refl]. Qed.

Ltac statement_cases :=
  intros now d;
  unfold upsert_character, insert_death, insert_killer, insert_levelup,
    insert_server_prefixes, insert_server_property, insert_event,
    insert_event_subscriber, insert_event_participant, insert_role_auto,
    insert_role_joinable;
  repeat match goal with
         | |- context [match ?o with Some _ => _ | None => _ end] =>
             is_var o; destruct o
         | |- context [if ?b then _ else _] => destruct b eqn:?
         | |- context [match find ?f ?l with _ => _ end] => destruct (find f l) eqn:?
         end; simpl.

Ltac grows_tac :=
  statement_cases; unfold grows; simpl;
  repeat split;
  auto using chars_grow_refl, extends_refl, extends_app, chars_grow_touch,
    chars_grow_app.

Lemma grows_upsert_character u n l v w g : respects grows (upsert_character u n l v w g).
Proof. grows_tac. Qed.
Lemma grows_insert_death i l t : respects grows (insert_death i l t).
Proof. grows_tac. Qed.
Lemma grows_insert_killer i n p : respects grows (insert_killer i n p).
Proof. grows_tac. Qed.
Lemma grows_insert_levelup i l t : respects grows (insert_levelup i l t).
Proof. grows_tac. Qed.
Lemma grows_insert_server_prefixes i l : respects grows (insert_server_prefixes i l).
Proof. grows_tac. Qed.
Lemma grows_insert_server_property i k v : respects grows (insert_server_property i k v).
Proof. grows_tac. Qed.
Lemma grows_insert_event u n s a de se j sl r :
  respects grows (insert_event u n s a de se j sl r).
Proof. grows_tac. Qed.
Lemma grows_insert_event_subscriber e u : respects grows (insert_event_subscriber e u).
Proof. grows_tac. Qed.
Lemma grows_insert_event_participant e i : respects grows (insert_event_participant e i).
Proof. grows_tac. Qed.
Lemma grows_insert_role_auto i r g : respects grows (insert_role_auto i r g).
Proof. grows_tac. Qed.
Lemma grows_insert_role_joinable i r : respects grows (insert_role_joinable i r).
Proof. grows_tac. Qed.

Lemma grows_import_characters c : steps grows (import_characters c).
Proof.
  apply steps_import_characters;
    try exact grows_refl; try exact grows_trans; intros;
    auto using grows_upsert_character,
      grows_insert_death, grows_insert_killer, grows_insert_levelup.
Qed.

Lemma grows_import_server_properties c : steps grows (import_server_properties c).
Proof.
  apply steps_import_server_properties;
    try exact grows_refl; try exact grows_trans; intros;
    auto using grows_insert_server_prefixes,
      grows_insert_server_property.
Qed.

Lemma grows_import_roles c : steps grows (import_roles c).
Proof.
  apply steps_import_roles;
    try exact grows_refl; try exact grows_trans; intros;
    auto using grows_insert_role_auto,
      grows_insert_role_joinable.
Qed.

Lemma grows_import_events c : steps grows (import_events c).
Proof.
  apply steps_import_events;
    try exact grows_refl; try exact grows_trans; intros;
    auto using grows_insert_event,
      grows_insert_event_subscriber, grows_insert_event_participant.
Qed.

Lemma grows_import_legacy_db c : steps grows (import_legacy_db c).
Proof.
  apply steps_import_legacy_db;
    try exact grows_trans;
    auto using grows_import_characters,
      grows_import_server_properties, grows_import_roles, grows_import_events.
Qed.

Lemma steps_Ok (R : Db -> Db -> Prop) (A : Type) (m : M A) w a w' :
  steps R m -> m w = Ok a w' -> R (db w) (db w').
Proof. intros H E. specialize (H w). now rewrite E in H. Qed.

Lemma keeps_refl (T : Type) (f : Db -> T) d : keeps f d d.
Proof. reflexivity. Qed.

Lemma keeps_trans (T : Type) (f : Db -> T) d1 d2 d3 :
  keeps f d1 d2 -> keeps f d2 d3 -> keeps f d1 d3.
Proof. unfold keeps. congruence. Qed.

(** *** import_events *)

Lemma import_subscribers_keep_events l :
  steps (keeps event) (for_ l import_subscriber tt).
Proof.
  apply steps_for; try apply keeps_refl; try apply keeps_trans.
  intros [] x. apply steps_execute. statement_cases; reflexivity.
Qed.

Lemma import_participants_keep (T : Type) (f : Db -> T) l :
  (forall d rows, f (with_event_participant d rows) = f d) ->
  steps (keeps f) (for_ l import_participant tt).
Proof.
  intros Hf.
  apply steps_for; try apply keeps_refl; try apply keeps_trans.
  intros [] [event_id name]. unfold import_participant.
  apply steps_bind; try apply keeps_trans.
  - apply steps_execute, respects_query, keeps_refl.
  - intros [char_id|]; [|apply steps_ret, keeps_refl].
    apply steps_execute. statement_cases; unfold keeps; auto.
Qed.

Lemma import_event_row c acc e w acc' w' :
  import_event c acc e w = Ok acc' w' ->
  exists r, event (db w') = event (db w) ++ [r] /\ imported_event e r /\
            acc' = (fst acc ++ select_subscribers c (ev_id r) (le_id e),
                    snd acc ++ select_participants c (ev_id r) (le_id e)).
Proof.
  unfold import_event. destruct (utcfromtimestamp (le_start e)); [|discriminate].
  intros H. apply bind_Ok in H. destruct H as (id & w1 & H1 & H2).
  inversion H2; subst; clear H2.
  apply execute_Ok in H1. destruct H1 as (H1 & _). revert H1.
  unfold insert_event.
  repeat match goal with
         | |- context [if ?b then _ else _] => destruct b
         end; intros [= <- <-].
  eexists. simpl. split; [reflexivity|].
  split; [repeat split | reflexivity].
Qed.

Lemma import_events_rows c w w' :
  import_events c w = Ok tt w' ->
  exists rows, event (db w') = event (db w) ++ rows /\
               Forall2 imported_event (events c) rows.
Proof.
  unfold import_events. intros H.
  apply bind_Ok in H. destruct H as ([subs parts] & w1 & H1 & H2).
  apply bind_Ok in H2. destruct H2 as ([] & w2 & H2 & H3).
  apply (@steps_Ok _ _ _ _ _ _ (import_subscribers_keep_events subs)) in H2.
  apply (@steps_Ok _ _ _ _ _ _
           (import_participants_keep event parts (fun _ _ => eq_refl))) in H3.
  unfold keeps in H2, H3. rewrite H3, H2. clear H2 H3.
  set (I := fun (done : list LegacyEvent)
                (_ : list (Z * Z) * list (Z * option string)) (w1 : World) =>
              exists rows, event (db w1) = event (db w) ++ rows /\
                           Forall2 imported_event done rows).
  assert (Hbody : forall done e acc wa acc' wb,
             I done acc wa -> import_event c acc e wa = Ok acc' wb ->
             I (done ++ [e]) acc' wb).
  { intros done e acc wa acc' wb (rows & Hrows & HF) Hstep.
    apply import_event_row in Hstep. destruct Hstep as (r & Hr & Himp & _).
    exists (rows ++ [r]). split.
    - now rewrite Hr, Hrows, app_assoc.
    - apply Forall2_app; auto. }
  assert (Hinit : I [] ([], []) w).
  { exists []. split; [now rewrite app_nil_r | constructor]. }
  exact (@for_invariant _ _ _ I _ Hbody [] _ _ _ _ Hinit H1).
Qed.

(** C6: every legacy event gives one new [event] row, in order, whose
    [reminder] is 4 minus the legacy [status]; in particular status 1
    gives reminder 3 and status 4 gives reminder 0. *)
Theorem C6_reminder_is_4_minus_status c w w' :
  import_events c w = Ok tt w' ->
  exists rows,
    event (db w') = event (db w) ++ rows /\
    Forall2 (fun e r =>
               ev_name r = le_name e /\ ev_user_id r = le_creator e /\
               ev_reminder r = 4 - le_status e /\
               (le_status e = 1 -> ev_reminder r = 3) /\
               (le_status e = 4 -> ev_reminder r = 0))
            (events c) rows.
Proof.
  intros H. apply import_events_rows in H. destruct H as (rows & Hrows & HF).
  exists rows. split; [exact Hrows|].
  eapply Forall2_impl; [|exact HF].
  intros e r (Hrem & Hname & Huser & _). repeat split; auto; lia.
Qed.

(** *** Participants *)







(** *** Server properties *)

Lemma text_items_strings l : text_items (map JStr l) = Some (map Some l).
Proof. induction l as [|x l IH]; simpl; [reflexivity | now rewrite IH]. Qed.

Lemma no_new_prefixes_property_refl d : no_new_prefixes_property d d.
Proof. intros r H _. exact H. Qed.

Lemma no_new_prefixes_property_trans d1 d2 d3 :
  no_new_prefixes_property d1 d2 -> no_new_prefixes_property d2 d3 ->
  no_new_prefixes_property d1 d3.
Proof. unfold no_new_prefixes_property. eauto. Qed.

Lemma import_server_properties_no_prefixes_property c :
  steps no_new_prefixes_property (import_server_properties c).
Proof.
  apply steps_import_server_properties;
    try exact no_new_prefixes_property_refl;
    try exact no_new_prefixes_property_trans.
  - intros i l. statement_cases; intros r Hin _; exact Hin.
  - intros i k v Hk. statement_cases;
      [apply no_new_prefixes_property_refl|].
    intros r Hin Hr. simpl in Hin. apply in_app_or in Hin.
    destruct Hin as [Hin|[<-|[]]]; [exact Hin|]. simpl in Hr. contradiction.
Qed.

Lemma import_legacy_db_no_prefixes_property c :
  steps no_new_prefixes_property (import_legacy_db c).
Proof.
  apply steps_import_legacy_db; [exact no_new_prefixes_property_trans | | | |].
  - apply steps_import_characters;
      try exact no_new_prefixes_property_refl;
      try exact no_new_prefixes_property_trans;
      intros; statement_cases; intros ? Hin _; exact Hin.
  - apply import_server_properties_no_prefixes_property.
  - apply steps_import_roles;
      try exact no_new_prefixes_property_refl;
      try exact no_new_prefixes_property_trans;
      intros; statement_cases; intros ? Hin _; exact Hin.
  - apply steps_import_events;
      try exact no_new_prefixes_property_refl;
      try exact no_new_prefixes_property_trans;
      intros; statement_cases; intros ? Hin _; exact Hin.
Qed.

(** *** Deaths and level-ups, one at a time *)

Lemma utcfromtimestamp_Some t t' : utcfromtimestamp t = Some t' -> t' = t.
Proof. unfold utcfromtimestamp. destruct (_ && _); congruence. Qed.

Lemma death_matches_true date char_id r :
  death_matches date char_id r = true <->
  d_character_id r = char_id /\ d_date r = Some date.
Proof.
  unfold death_matches. destruct (d_date r) as [t|].
  - rewrite andb_true_iff, !Z.eqb_eq. split.
    + intros [-> ->]. auto.
    + intros [-> [= ->]]. auto.
  - split; [discriminate | intros [_ H]; discriminate].
Qed.

Lemma death_present_existsb d char_id date :
  death_present d char_id date <->
  existsb (death_matches date char_id) (character_death d) = true.
Proof.
  unfold death_present. rewrite existsb_exists.
  split; intros (r & H1 & H2); exists r.
  - split; [tauto | apply death_matches_true; tauto].
  - apply death_matches_true in H2. tauto.
Qed.

Lemma death_present_find d char_id date :
  death_present d char_id date <->
  find (death_matches date char_id) (character_death d) <> None.
Proof.
  rewrite death_present_existsb. split.
  - intros H E. apply existsb_exists in H. destruct H as (r & H1 & H2).
    eapply find_none in E; eauto. congruence.
  - destruct (find _ _) as [r|] eqn:E; [|congruence]. intros _.
    apply find_some in E. apply existsb_exists. eauto.
Qed.

Lemma levelup_matches_true char_id date r :
  levelup_matches char_id date r = true <->
  lu_character_id r = char_id /\
  exists e, lu_date r = Some e /\ Z.max (date - e) (e - date) <= 15.
Proof.
  unfold levelup_matches, within_margin.
  rewrite andb_true_iff, Z.eqb_eq. destruct (lu_date r) as [t|].
  - rewrite Z.leb_le. split.
    + intros [-> H]. eauto.
    + intros [-> (e & [= ->] & H)]. auto.
  - split; [intros [_ H]; discriminate | intros [_ (e & H & _)]; discriminate].
Qed.

Lemma levelup_near_existsb d char_id date :
  levelup_near d char_id date <->
  existsb (levelup_matches char_id date) (character_levelup d) = true.
Proof.
  unfold levelup_near. rewrite existsb_exists. split.
  - intros (r & e & H1 & H2 & H3 & H4). exists r. split; [exact H1|].
    apply levelup_matches_true. eauto.
  - intros (r & H1 & H2). apply levelup_matches_true in H2.
    destruct H2 as (H2 & e & H3 & H4). exists r, e. auto.
Qed.

Lemma levelup_near_find d char_id date :
  levelup_near d char_id date <->
  find (levelup_matches char_id date) (character_levelup d) <> None.
Proof.
  rewrite levelup_near_existsb. split.
  - intros H E. apply existsb_exists in H. destruct H as (r & H1 & H2).
    eapply find_none in E; eauto. congruence.
  - destruct (find _ _) as [r|] eqn:E; [|congruence]. intros _.
    apply find_some in E. apply existsb_exists. eauto.
Qed.

Lemma import_death_duplicate k char_id level date killer byplayer w :
  utcfromtimestamp date = Some date ->
  death_present (db w) char_id date ->
  import_death k (char_id, level, date, killer, byplayer) w = Ok (S k) (tick w).
Proof.
  intros Hd H. unfold import_death. rewrite Hd.
  erewrite bind_Ok_intro by apply execute_query.
  apply death_present_find in H.
  destruct (find _ _); [reflexivity | congruence].
Qed.

Lemma import_death_new k char_id level date killer byplayer w :
  utcfromtimestamp date = Some date ->
  ~ death_present (db w) char_id date ->
  import_death k (char_id, level, date, killer, byplayer) w =
  (death_id <- execute (insert_death char_id level date) ;;
   execute (insert_killer death_id killer (byplayer =? 1)) ;;
   ret k) (tick w).
Proof.
  intros Hd H. unfold import_death. rewrite Hd.
  erewrite bind_Ok_intro by apply execute_query.
  rewrite death_present_find in H.
  destruct (find _ _); [exfalso; apply H; congruence | reflexivity].
Qed.

Lemma import_death_date k char_id level date killer byplayer w k' w' :
  import_death k (char_id, level, date, killer, byplayer) w = Ok k' w' ->
  utcfromtimestamp date = Some date.
Proof.
  unfold import_death. destruct (utcfromtimestamp date) as [t|] eqn:E;
    [|discriminate].
  intros _. f_equal. eapply utcfromtimestamp_Some; eassumption.
Qed.

Lemma import_death_inserted k char_id level date killer byplayer w k' w' :
  ~ death_present (db w) char_id date ->
  import_death k (char_id, level, date, killer, byplayer) w = Ok k' w' ->
  k' = k /\
  exists id,
    character_death (db w') =
      character_death (db w) ++
        [{| d_id := id; d_character_id := char_id; d_level := Some level;
            d_date := Some date |}] /\
    character_death_killer (db w') =
      character_death_killer (db w) ++
        [{| k_death_id := id; k_position := 0; k_name := killer;
            k_player := Some (byplayer =? 1) |}] /\
    character (db w') = character (db w) /\
    character_levelup (db w') = character_levelup (db w).
Proof.
  intros Hnew H. assert (Hd : utcfromtimestamp date = Some date)
    by (eapply import_death_date; eassumption).
  rewrite import_death_new in H by assumption.
  apply bind_Ok in H. destruct H as (id & w1 & H1 & H2).
  apply bind_Ok in H2. destruct H2 as ([] & w2 & H2 & [= <- <-]).
  split; [reflexivity|]. exists id.
  apply execute_Ok in H1. destruct H1 as (H1 & _).
  apply execute_Ok in H2. destruct H2 as (H2 & _).
  revert H1. unfold insert_death.
  repeat match goal with
         | |- context [if ?b then _ else _] => destruct b
         end; intros [= <- E1]; try discriminate.
  revert H2. unfold insert_killer. rewrite <- E1. simpl.
  destruct (negb _); intros [= <-]. simpl. auto.
Qed.

Lemma import_levelup_duplicate k char_id level date w :
  utcfromtimestamp date = Some date ->
  levelup_near (db w) char_id date ->
  import_levelup k (char_id, level, date) w = Ok (S k) (tick w).
Proof.
  intros Hd H. unfold import_levelup. rewrite Hd.
  erewrite bind_Ok_intro by apply execute_query.
  apply levelup_near_find in H.
  destruct (find _ _); [reflexivity | congruence].
Qed.

Lemma import_levelup_new k char_id level date w :
  utcfromtimestamp date = Some date ->
  ~ levelup_near (db w) char_id date ->
  import_levelup k (char_id, level, date) w =
  (execute (insert_levelup char_id level date) ;; ret k) (tick w).
Proof.
  intros Hd H. unfold import_levelup. rewrite Hd.
  erewrite bind_Ok_intro by apply execute_query.
  rewrite levelup_near_find in H.
  destruct (find _ _); [exfalso; apply H; congruence | reflexivity].
Qed.

Lemma import_levelup_date k char_id level date w k' w' :
  import_levelup k (char_id, level, date) w = Ok k' w' ->
  utcfromtimestamp date = Some date.
Proof.
  unfold import_levelup. destruct (utcfromtimestamp date) as [t|] eqn:E;
    [|discriminate].
  intros _. f_equal. eapply utcfromtimestamp_Some; eassumption.
Qed.

Lemma import_levelup_inserted k char_id level date w k' w' :
  ~ levelup_near (db w) char_id date ->
  import_levelup k (char_id, level, date) w = Ok k' w' ->
  k' = k /\
  exists id,
    character_levelup (db w') =
      character_levelup (db w) ++
        [{| lu_id := id; lu_character_id := char_id; lu_level := Some level;
            lu_date := Some date |}] /\
    character (db w') = character (db w) /\
    character_death (db w') = character_death (db w).
Proof.
  intros Hnew H. assert (Hd : utcfromtimestamp date = Some date)
    by (eapply import_levelup_date; eassumption).
  rewrite import_levelup_new in H by assumption.
  apply bind_Ok in H. destruct H as ([] & w1 & H1 & [= <- <-]).
  split; [reflexivity|].
  apply execute_Ok in H1. destruct H1 as (H1 & _).
  revert H1. unfold insert_levelup.
  repeat match goal with
         | |- context [if ?b then _ else _] => destruct b
         end; intros [= <-]. simpl. eauto.
Qed.

(** *** Names and ids *)

Lemma find_app_l (A : Type) (f : A -> bool) l1 l2 x :
  find f l1 = Some x -> find f (l1 ++ l2) = Some x.
Proof.
  induction l1 as [|y l1 IH]; simpl; [discriminate|].
  destruct (f y); auto.
Qed.

Lemma find_app_r (A : Type) (f : A -> bool) l1 l2 :
  find f l1 = None -> find f (l1 ++ l2) = find f l2.
Proof.
  induction l1 as [|y l1 IH]; simpl; [reflexivity|].
  destruct (f y); [discriminate | auto].
Qed.

Lemma name_id_unchanged rows rows' n :
  Forall2 unchanged_except_modified rows rows' ->
  name_id rows' n = name_id rows n.
Proof.
  unfold name_id. induction 1 as [|r r' rows rows' Hr _ IH]; simpl; [reflexivity|].
  destruct Hr as (Hid & _ & Hname & _). rewrite Hname.
  destruct (ch_name r =? n)%string; simpl; [now rewrite Hid | exact IH].
Qed.

Lemma name_id_app rows news n id :
  name_id rows n = Some id -> name_id (rows ++ news) n = Some id.
Proof.
  unfold name_id. destruct (find _ rows) as [r|] eqn:E; [|discriminate].
  intros H. now rewrite (find_app_l _ _ news E).
Qed.

Lemma name_id_grow rows rows' n id :
  chars_grow rows rows' -> name_id rows n = Some id -> name_id rows' n = Some id.
Proof.
  intros (olds & news & -> & HF) H. apply name_id_app.
  now rewrite (name_id_unchanged n HF).
Qed.

Lemma grows_resolve d d' n id :
  grows d d' -> resolve d n = Some id -> resolve d' n = Some id.
Proof. intros (H & _). apply name_id_grow, H. Qed.

Lemma name_id_touch now n m rows :
  name_id (map (fun r => if (ch_name r =? n)%string
                         then update_modified_column now (set_name r n)
                         else r) rows) m = name_id rows m.
Proof.
  apply name_id_unchanged.
  destruct (chars_grow_touch now n rows) as (olds & news & E & HF).
  assert (news = []) as ->.
  { apply (f_equal (@List.length _)) in E.
    rewrite length_app, length_map, <- (Forall2_length HF) in E.
    destruct news; [reflexivity | simpl in E; lia]. }
  rewrite app_nil_r in E. now rewrite E.
Qed.

Lemma upsert_character_conflict u n l v wo g now d id :
  int2 l = true -> resolve d n = Some id ->
  upsert_character u n l v wo g now d =
  (inr id,
   with_character d
     (map (fun r => if (ch_name r =? n)%string
                    then update_modified_column now (set_name r n)
                    else r) (character d))
     (character_seq d + 1)).
Proof.
  unfold upsert_character, resolve, name_id. intros -> H. simpl.
  destruct (find _ (character d)) as [r|]; [|discriminate].
  simpl in H. injection H as <-. reflexivity.
Qed.

Lemma upsert_character_Ok u n l v wo g now d id d' :
  upsert_character u n l v wo g now d = (inr id, d') ->
  int2 l = true /\ resolve d' n = Some id.
Proof.
  unfold upsert_character.
  destruct (int2 l) eqn:Hl; simpl; [|discriminate].
  destruct (find _ (character d)) as [r|] eqn:E.
  - intros [= <- <-]. split; [reflexivity|].
    unfold resolve. simpl. rewrite name_id_touch.
    unfold name_id. now rewrite E.
  - destruct (existsb _ (character d)); [discriminate|].
    intros [= <- <-]. split; [reflexivity|].
    unfold resolve, name_id. simpl. erewrite find_app_r by eassumption. simpl.
    now rewrite String.eqb_refl.
Qed.

Lemma grows_for_import_character c rows acc :
  steps grows (for_ rows (import_character c) acc).
Proof.
  revert acc. apply steps_for; try exact grows_refl; try exact grows_trans.
  intros acc x. apply steps_import_character;
    try exact grows_refl; try exact grows_trans; intros;
    auto using grows_upsert_character.
Qed.

Lemma grows_for_import_death l k : steps grows (for_ l import_death k).
Proof.
  revert k. apply steps_for; try exact grows_refl; try exact grows_trans.
  intros k x. apply steps_import_death;
    try exact grows_refl; try exact grows_trans; intros;
    auto using grows_insert_death, grows_insert_killer.
Qed.

Lemma grows_for_import_levelup l k : steps grows (for_ l import_levelup k).
Proof.
  revert k. apply steps_for; try exact grows_refl; try exact grows_trans.
  intros k x. apply steps_import_levelup;
    try exact grows_refl; try exact grows_trans; intros;
    auto using grows_insert_levelup.
Qed.

(** *** The first loop of import_characters *)

Lemma import_character_Ok c acc ch w acc' w' :
  import_character c acc ch w = Ok acc' w' ->
  exists id,
    int2 (lc_level ch) = true /\
    resolve (db w') (lc_name ch) = Some id /\
    acc' = (fst acc ++ select_levelups c id (lc_id ch),
            snd acc ++ select_deaths c id (lc_id ch)).
Proof.
  unfold import_character. intros H.
  apply bind_Ok in H. destruct H as (id & w1 & H1 & [= <- <-]).
  apply execute_Ok in H1. destruct H1 as (H1 & _).
  apply upsert_character_Ok in H1. exists id. tauto.
Qed.

Lemma import_characters_collect c rows : forall acc w acc' w',
  for_ rows (import_character c) acc w = Ok acc' w' ->
  (forall ch, In ch rows ->
              int2 (lc_level ch) = true /\
              resolve (db w') (lc_name ch) <> None) /\
  fst acc' = fst acc ++ collected_levelups c (resolved (db w')) rows /\
  snd acc' = snd acc ++ collected_deaths c (resolved (db w')) rows.
Proof.
  induction rows as [|ch rows IH]; intros acc w acc' w' H; simpl in H.
  - injection H as <- <-. simpl. rewrite !app_nil_r. tauto.
  - apply bind_Ok in H. destruct H as (acc1 & w1 & H1 & H2).
    apply import_character_Ok in H1. destruct H1 as (id & Hl & Hid & ->).
    pose proof (@steps_Ok _ _ _ _ _ _ (grows_for_import_character c rows _) H2) as Hg.
    apply IH in H2. destruct H2 as (Hall & Hlu & Hd). simpl in Hlu, Hd.
    assert (Hid' : resolve (db w') (lc_name ch) = Some id)
      by (eapply grows_resolve; eauto).
    split; [|split].
    + intros ch' [<-|Hin]; [|auto]. split; [exact Hl | congruence].
    + rewrite Hlu. unfold collected_levelups. simpl.
      unfold resolved at 2. rewrite Hid'. now rewrite app_assoc.
    + rewrite Hd. unfold collected_deaths. simpl.
      unfold resolved at 2. rewrite Hid'. now rewrite app_assoc.
Qed.

(** *** The second and third loops of import_characters *)

Lemma grows_death_present d d' char_id date :
  grows d d' -> death_present d char_id date -> death_present d' char_id date.
Proof.
  intros (_ & H & _) (r & H1 & H2). exists r. split; [|exact H2].
  eapply extends_In; eauto.
Qed.

Lemma grows_levelup_near d d' char_id date :
  grows d d' -> levelup_near d char_id date -> levelup_near d' char_id date.
Proof.
  intros (_ & _ & _ & H & _) (r & e & H1 & H2). exists r, e. split; [|exact H2].
  eapply extends_In; eauto.
Qed.

Lemma death_present_dec d char_id date :
  death_present d char_id date \/ ~ death_present d char_id date.
Proof.
  rewrite death_present_existsb. destruct (existsb _ _); auto.
Qed.

Lemma levelup_near_dec d char_id date :
  levelup_near d char_id date \/ ~ levelup_near d char_id date.
Proof.
  rewrite levelup_near_existsb. destruct (existsb _ _); auto.
Qed.

Lemma import_death_Ok_present k t w k' w' :
  import_death k t w = Ok k' w' ->
  death_present (db w') (death_char_id t) (death_date t).
Proof.
  destruct t as [[[[char_id level] date] killer] byplayer]. intros H.
  cbn [death_char_id death_date].
  assert (Hd : utcfromtimestamp date = Some date)
    by (eapply import_death_date; eassumption).
  destruct (death_present_dec (db w) char_id date) as [Hp|Hn].
  - rewrite import_death_duplicate in H by assumption.
    injection H as _ <-. exact Hp.
  - eapply import_death_inserted in H; [|exact Hn].
    destruct H as (_ & id & E & _). eexists. rewrite E. split.
    + apply in_or_app. right. left. reflexivity.
    + simpl. auto.
Qed.

Lemma import_levelup_Ok_near k t w k' w' :
  import_levelup k t w = Ok k' w' ->
  levelup_near (db w') (levelup_char_id t) (levelup_date t).
Proof.
  destruct t as [[char_id level] date]. intros H.
  cbn [levelup_char_id levelup_date].
  assert (Hd : utcfromtimestamp date = Some date)
    by (eapply import_levelup_date; eassumption).
  destruct (levelup_near_dec (db w) char_id date) as [Hp|Hn].
  - rewrite import_levelup_duplicate in H by assumption.
    injection H as _ <-. exact Hp.
  - eapply import_levelup_inserted in H; [|exact Hn].
    destruct H as (_ & id & E & _). eexists. exists date. rewrite E. split.
    + apply in_or_app. right. left. reflexivity.
    + simpl. repeat split. lia.
Qed.

Lemma import_deaths_present l : forall k w k' w',
  for_ l import_death k w = Ok k' w' ->
  forall t, In t l ->
    death_present (db w') (death_char_id t) (death_date t) /\
    utcfromtimestamp (death_date t) = Some (death_date t).
Proof.
  induction l as [|x l IH]; intros k w k' w' H t Hin; [destruct Hin|].
  simpl in H. apply bind_Ok in H. destruct H as (k1 & w1 & H1 & H2).
  destruct Hin as [<-|Hin]; [|eapply IH; eauto].
  split.
  - eapply grows_death_present.
    + exact (@steps_Ok _ _ _ _ _ _ (grows_for_import_death l k1) H2).
    + eapply import_death_Ok_present; eauto.
  - destruct x as [[[[char_id level] date] killer] byplayer].
    eapply import_death_date; eauto.
Qed.

Lemma import_levelups_near l : forall k w k' w',
  for_ l import_levelup k w = Ok k' w' ->
  forall t, In t l ->
    levelup_near (db w') (levelup_char_id t) (levelup_date t) /\
    utcfromtimestamp (levelup_date t) = Some (levelup_date t).
Proof.
  induction l as [|x l IH]; intros k w k' w' H t Hin; [destruct Hin|].
  simpl in H. apply bind_Ok in H. destruct H as (k1 & w1 & H1 & H2).
  destruct Hin as [<-|Hin]; [|eapply IH; eauto].
  split.
  - eapply grows_levelup_near.
    + exact (@steps_Ok _ _ _ _ _ _ (grows_for_import_levelup l k1) H2).
    + eapply import_levelup_Ok_near; eauto.
  - destruct x as [[char_id level] date].
    eapply import_levelup_date; eauto.
Qed.

(** *** Running the loops again *)

Lemma import_deaths_rerun l : forall k w,
  (forall t, In t l ->
     death_present (db w) (death_char_id t) (death_date t) /\
     utcfromtimestamp (death_date t) = Some (death_date t)) ->
  exists w',
    for_ l import_death k w = Ok (k + List.length l)%nat w' /\
    db w' = db w /\ stdout w' = stdout w.
Proof.
  induction l as [|x l IH]; intros k w H; simpl.
  - exists w. rewrite Nat.add_0_r. auto.
  - destruct (H x (or_introl eq_refl)) as (Hp & Hd).
    destruct x as [[[[char_id level] date] killer] byplayer]. simpl in Hp, Hd.
    erewrite bind_Ok_intro by (apply import_death_duplicate; assumption).
    destruct (IH (S k) (tick w)) as (w' & H1 & H2 & H3).
    { intros t Hin. apply H. now right. }
    exists w'. rewrite H1. split; [f_equal; lia | auto].
Qed.

Lemma import_levelups_rerun l : forall k w,
  (forall t, In t l ->
     levelup_near (db w) (levelup_char_id t) (levelup_date t) /\
     utcfromtimestamp (levelup_date t) = Some (levelup_date t)) ->
  exists w',
    for_ l import_levelup k w = Ok (k + List.length l)%nat w' /\
    db w' = db w /\ stdout w' = stdout w.
Proof.
  induction l as [|x l IH]; intros k w H; simpl.
  - exists w. rewrite Nat.add_0_r. auto.
  - destruct (H x (or_introl eq_refl)) as (Hp & Hd).
    destruct x as [[char_id level] date]. simpl in Hp, Hd.
    erewrite bind_Ok_intro by (apply import_levelup_duplicate; assumption).
    destruct (IH (S k) (tick w)) as (w' & H1 & H2 & H3).
    { intros t Hin. apply H. now right. }
    exists w'. rewrite H1. split; [f_equal; lia | auto].
Qed.

Lemma collected_levelups_ext c f g rows :
  (forall n, f n = g n) ->
  collected_levelups c f rows = collected_levelups c g rows.
Proof.
  intros H. unfold collected_levelups. apply flat_map_ext.
  intros ch. now rewrite H.
Qed.

Lemma collected_deaths_ext c f g rows :
  (forall n, f n = g n) ->
  collected_deaths c f rows = collected_deaths c g rows.
Proof.
  intros H. unfold collected_deaths. apply flat_map_ext.
  intros ch. now rewrite H.
Qed.

Lemma import_characters_collect_again c rows : forall acc w,
  (forall ch, In ch rows ->
              int2 (lc_level ch) = true /\
              resolve (db w) (lc_name ch) <> None) ->
  exists w',
    for_ rows (import_character c) acc w =
      Ok (fst acc ++ collected_levelups c (resolved (db w)) rows,
          snd acc ++ collected_deaths c (resolved (db w)) rows) w' /\
    Forall2 unchanged_except_modified (character (db w)) (character (db w')) /\
    character_death (db w') = character_death (db w) /\
    character_levelup (db w') = character_levelup (db w) /\
    stdout w' = stdout w.
Proof.
  induction rows as [|ch rows IH]; intros acc w H; simpl.
  - exists w. rewrite !app_nil_r. destruct acc.
    auto using Forall2_unchanged_refl.
  - destruct (H ch (or_introl eq_refl)) as (Hl & Hr).
    destruct (resolve (db w) (lc_name ch)) as [id|] eqn:Hid; [clear Hr|congruence].
    set (w1 := {| db := with_character (db w)
                          (map (fun r => if (ch_name r =? lc_name ch)%string
                                         then update_modified_column (clock (stmts w))
                                                (set_name r (lc_name ch))
                                         else r) (character (db w)))
                          (character_seq (db w) + 1);
                  stmts := S (stmts w); stdout := stdout w |}).
    assert (Hstep : import_character c acc ch w =
                    Ok (fst acc ++ select_levelups c id (lc_id ch),
                        snd acc ++ select_deaths c id (lc_id ch)) w1).
    { unfold import_character, bind, execute.
      erewrite upsert_character_conflict by eassumption. reflexivity. }
    erewrite bind_Ok_intro by exact Hstep.
    assert (Hsame : forall n, resolve (db w1) n = resolve (db w) n).
    { intros n. unfold resolve. simpl. apply name_id_touch. }
    destruct (IH (fst acc ++ select_levelups c id (lc_id ch),
                  snd acc ++ select_deaths c id (lc_id ch)) w1)
      as (w' & H1 & H2 & H3 & H4 & H5).
    { intros ch' Hin. rewrite Hsame. apply H. now right. }
    assert (Hres : forall n, resolved (db w1) n = resolved (db w) n).
    { intros n. unfold resolved. now rewrite Hsame. }
    exists w'. rewrite H1. simpl fst. simpl snd.
    erewrite collected_levelups_ext by exact Hres.
    erewrite collected_deaths_ext by exact Hres.
    unfold collected_levelups, collected_deaths. simpl.
    assert (Hch : resolved (db w) (lc_name ch) = id)
      by (unfold resolved; now rewrite Hid).
    rewrite Hch, <- !app_assoc.
    unfold w1 in H2, H3, H4, H5. simpl in H2, H3, H4, H5.
    repeat split; try assumption.
    eapply Forall2_unchanged_trans; [|exact H2].
    destruct (chars_grow_touch (clock (stmts w)) (lc_name ch)
                       (character (db w))) as (olds & news & E & HF).
    assert (news = []) as ->.
    { apply (f_equal (@List.length _)) in E.
      rewrite length_app, length_map, <- (Forall2_length HF) in E.
      destruct news; [reflexivity | simpl in E; lia]. }
    rewrite app_nil_r in E. now rewrite E.
Qed.

(** *** [sorted] is a stable sort *)

Lemma insert_sorted_perm (A : Type) (key : A -> Z) x l :
  Permutation (x :: l) (insert_sorted key x l).
Proof.
  induction l as [|y l IH]; simpl; [reflexivity|].
  destruct (key x <=? key y); [reflexivity|].
  rewrite perm_swap. now constructor.
Qed.

Lemma sorted_perm (A : Type) (key : A -> Z) l : Permutation l (sorted key l).
Proof.
  induction l as [|x l IH]; simpl; [constructor|].
  rewrite <- insert_sorted_perm. now constructor.
Qed.

Lemma in_sorted (A : Type) (key : A -> Z) l x : In x (sorted key l) <-> In x l.
Proof.
  split; apply Permutation_in; [symmetry|]; apply sorted_perm.
Qed.

Lemma insert_sorted_ascending (A : Type) (key : A -> Z) x l :
  StronglySorted (fun a b => key a <= key b) l ->
  StronglySorted (fun a b => key a <= key b) (insert_sorted key x l).
Proof.
  induction 1 as [|y l Hl IH Hy]; simpl.
  - repeat constructor.
  - destruct (Z.leb_spec (key x) (key y)).
    + constructor; [now constructor|].
      constructor; [assumption|].
      eapply Forall_impl; [|exact Hy]. intros a Ha. simpl in Ha. lia.
    + constructor; [assumption|].
      eapply Permutation_Forall; [apply insert_sorted_perm|].
      constructor; [lia | assumption].
Qed.

Lemma sorted_ascending (A : Type) (key : A -> Z) l :
  StronglySorted (fun a b => key a <= key b) (sorted key l).
Proof.
  induction l as [|x l IH]; simpl; [constructor|].
  now apply insert_sorted_ascending.
Qed.

(** *** import_characters, as a whole *)

Lemma import_characters_Ok c w w' :
  import_characters c w = Ok tt w' ->
  exists levelups deaths w1 k1 w2 w2' k2 w3,
    for_ (select_chars c) (import_character c) ([], []) w = Ok (levelups, deaths) w1 /\
    for_ (sorted death_date deaths) import_death 0%nat w1 = Ok k1 w2 /\
    db w2' = db w2 /\
    for_ (sorted levelup_date levelups) import_levelup 0%nat w2' = Ok k2 w3 /\
    db w' = db w3.
Proof.
  unfold import_characters. intros H.
  apply bind_Ok in H. destruct H as ([levelups deaths] & w1 & H1 & H).
  apply bind_Ok in H. destruct H as (k1 & w2 & H2 & H).
  apply bind_Ok in H. destruct H as ([] & w2' & Hp1 & H).
  apply bind_Ok in H. destruct H as (k2 & w3 & H3 & Hp2).
  exists levelups, deaths, w1, k1, w2, w2', k2, w3.
  repeat split; try assumption.
  - destruct (0 <? k1)%nat; injection Hp1 as <-; reflexivity.
  - destruct (0 <? k2)%nat; injection Hp2 as <-; reflexivity.
Qed.

Lemma collected_deaths_ext_in c f g rows :
  (forall ch, In ch rows -> f (lc_name ch) = g (lc_name ch)) ->
  collected_deaths c f rows = collected_deaths c g rows.
Proof.
  unfold collected_deaths. induction rows as [|ch rows IH]; intros H; simpl.
  - reflexivity.
  - rewrite (H ch (or_introl eq_refl)), IH; [reflexivity|].
    intros ch' Hin. apply H. now right.
Qed.

Lemma collected_levelups_ext_in c f g rows :
  (forall ch, In ch rows -> f (lc_name ch) = g (lc_name ch)) ->
  collected_levelups c f rows = collected_levelups c g rows.
Proof.
  unfold collected_levelups. induction rows as [|ch rows IH]; intros H; simpl.
  - reflexivity.
  - rewrite (H ch (or_introl eq_refl)), IH; [reflexivity|].
    intros ch' Hin. apply H. now right.
Qed.

Lemma grows_resolved d d' n :
  grows d d' -> resolve d n <> None -> resolved d' n = resolved d n.
Proof.
  intros Hg Hn. unfold resolved.
  destruct (resolve d n) as [id|] eqn:E; [|congruence].
  now rewrite (grows_resolve _ Hg E).
Qed.

Lemma import_characters_post c w w' d :
  import_characters c w = Ok tt w' -> grows (db w') d ->
  characters_imported c d.
Proof.
  intros H Hg. apply import_characters_Ok in H.
  destruct H as (lus & ds & w1 & k1 & w2 & w2' & k2 & w3 & H1 & H2 & E2 & H3 & E3).
  pose proof (@steps_Ok _ _ _ _ _ _ (grows_for_import_death _ _) H2) as G2.
  pose proof (@steps_Ok _ _ _ _ _ _ (grows_for_import_levelup _ _) H3) as G3.
  rewrite <- E2 in G2. rewrite <- E3 in G3.
  assert (G1d : grows (db w1) d) by eauto using grows_trans.
  assert (G3d : grows (db w3) d) by now rewrite <- E3.
  assert (G2d : grows (db w2) d).
  { rewrite <- E2. eauto using grows_trans. }
  apply import_characters_collect in H1. destruct H1 as (Hall & Hlu & Hd).
  simpl in Hlu, Hd. subst lus ds.
  assert (Hres : forall ch, In ch (select_chars c) ->
                   resolved (db w1) (lc_name ch) = resolved d (lc_name ch)).
  { intros ch Hin. symmetry. apply grows_resolved; [exact G1d|].
    now apply Hall. }
  rewrite (collected_deaths_ext_in c _ _ _ Hres) in H2.
  rewrite (collected_levelups_ext_in c _ _ _ Hres) in H3.
  split; [|split].
  - intros ch Hin. destruct (Hall ch Hin) as (Hl & Hr). split; [exact Hl|].
    destruct (resolve (db w1) (lc_name ch)) as [id|] eqn:E; [|congruence].
    now rewrite (grows_resolve _ G1d E).
  - intros t Hin. apply <- (in_sorted death_date) in Hin.
    destruct (import_deaths_present _ _ _ H2 _ Hin) as (Hp & Hv).
    split; [|exact Hv]. eapply grows_death_present; [exact G2d | exact Hp].
  - intros t Hin. apply <- (in_sorted levelup_date) in Hin.
    destruct (import_levelups_near _ _ _ H3 _ Hin) as (Hp & Hv).
    split; [|exact Hv]. eapply grows_levelup_near; [exact G3d | exact Hp].
Qed.

Lemma report_Ok (r : nat -> report) n w :
  exists w',
    (if (0 <? n)%nat then print (r n) else ret tt) w = Ok tt w' /\
    db w' = db w /\ stdout w' = stdout w ++ reported r n.
Proof.
  unfold reported. destruct (0 <? n)%nat; eexists; repeat split.
  simpl. now rewrite app_nil_r.
Qed.

Lemma death_present_same d d' char_id date :
  character_death d' = character_death d ->
  death_present d char_id date -> death_present d' char_id date.
Proof. unfold death_present. now intros ->. Qed.

Lemma levelup_near_same d d' char_id date :
  character_levelup d' = character_levelup d ->
  levelup_near d char_id date -> levelup_near d' char_id date.
Proof. unfold levelup_near. now intros ->. Qed.

Lemma sorted_length (A : Type) (key : A -> Z) l :
  List.length (sorted key l) = List.length l.
Proof. symmetry. apply Permutation_length, sorted_perm. Qed.

Lemma import_characters_again c w :
  characters_imported c (db w) ->
  exists w',
    import_characters c w = Ok tt w' /\
    Forall2 unchanged_except_modified (character (db w)) (character (db w')) /\
    character_death (db w') = character_death (db w) /\
    character_levelup (db w') = character_levelup (db w) /\
    stdout w' =
      stdout w
      ++ reported SkippedDeaths
           (List.length (collected_deaths c (resolved (db w)) (select_chars c)))
      ++ reported SkippedLevelUps
           (List.length (collected_levelups c (resolved (db w)) (select_chars c))).
Proof.
  intros (Hall & Hd & Hl).
  destruct (import_characters_collect_again c (select_chars c) ([], []) w Hall)
    as (w1 & H1 & Hc1 & Hd1 & Hl1 & Ho1).
  simpl in H1.
  destruct (import_deaths_rerun
              (sorted death_date (collected_deaths c (resolved (db w)) (select_chars c)))
              0%nat w1) as (w2 & H2 & E2 & Ho2).
  { intros t Hin. apply in_sorted in Hin. destruct (Hd t Hin) as (Hp & Hv).
    split; [|exact Hv]. eapply death_present_same; eauto. }
  destruct (report_Ok SkippedDeaths
              (0 + List.length (sorted death_date
                      (collected_deaths c (resolved (db w)) (select_chars c)))) w2)
    as (w2' & Hp2 & E2' & Ho2').
  destruct (import_levelups_rerun
              (sorted levelup_date (collected_levelups c (resolved (db w)) (select_chars c)))
              0%nat w2') as (w3 & H3 & E3 & Ho3).
  { intros t Hin. apply in_sorted in Hin. destruct (Hl t Hin) as (Hp & Hv).
    split; [|exact Hv]. eapply levelup_near_same; [|exact Hp]. congruence. }
  destruct (report_Ok SkippedLevelUps
              (0 + List.length (sorted levelup_date
                      (collected_levelups c (resolved (db w)) (select_chars c)))) w3)
    as (w' & Hp3 & E3' & Ho3').
  exists w'. unfold import_characters.
  erewrite bind_Ok_intro by exact H1. cbv beta iota zeta.
  erewrite bind_Ok_intro by exact H2.
  erewrite bind_Ok_intro by exact Hp2.
  erewrite bind_Ok_intro by exact H3.
  split; [exact Hp3|].
  rewrite E3', E3, E2', E2.
  repeat split; try assumption.
  rewrite Ho3', Ho3, Ho2', Ho2, Ho1. simpl.
  now rewrite !sorted_length, app_assoc.
Qed.

Lemma import_rest_keeps_character_tables c :
  steps (keeps character_tables)
        (import_server_properties c ;; import_roles c ;; import_events c).
Proof.
  apply steps_bind; [apply keeps_trans | | intros _].
  { apply steps_import_server_properties;
      try apply keeps_refl; try apply keeps_trans;
      intros; statement_cases; reflexivity. }
  apply steps_bind; [apply keeps_trans | | intros _].
  { apply steps_import_roles;
      try apply keeps_refl; try apply keeps_trans;
      intros; statement_cases; reflexivity. }
  apply steps_import_events;
    try apply keeps_refl; try apply keeps_trans;
    intros; statement_cases; reflexivity.
Qed.

(** C1: when a first run of [import_legacy_db] has completed, a second
    run over the same legacy store leaves the character, death and
    level-up tables with the rows they had (only [modified] of the
    characters moves): its character pass completes, every upsert lands
    on an existing name, and every death and level-up is counted as a
    duplicate. *)
Theorem C1_second_run_adds_no_rows c w0 w1 :
  import_legacy_db c w0 = Ok tt w1 ->
  (exists w2,
      import_characters c w1 = Ok tt w2 /\
      stdout w2 =
        stdout w1
        ++ reported SkippedDeaths
             (List.length (collected_deaths c (resolved (db w1)) (select_chars c)))
        ++ reported SkippedLevelUps
             (List.length (collected_levelups c (resolved (db w1)) (select_chars c)))) /\
  Forall2 unchanged_except_modified
    (character (db w1)) (character (db (after (import_legacy_db c w1)))) /\
  character_death (db (after (import_legacy_db c w1))) = character_death (db w1) /\
  character_levelup (db (after (import_legacy_db c w1))) = character_levelup (db w1).
Proof.
  intros H. unfold import_legacy_db in H.
  apply bind_Ok in H. destruct H as ([] & wa & Ha & Hrest).
  assert (Hg : grows (db wa) (db w1)).
  { eapply steps_Ok; [|exact Hrest].
    apply steps_bind; [exact grows_trans | | intros _].
    { apply grows_import_server_properties. }
    apply steps_bind; [exact grows_trans | | intros _].
    { apply grows_import_roles. }
    apply grows_import_events. }
  assert (Himp : characters_imported c (db w1))
    by (eapply import_characters_post; eassumption).
  destruct (@import_characters_again c w1 Himp)
    as (w2 & H2 & Hc & Hd & Hl & Ho).
  split; [eauto|].
  unfold import_legacy_db. erewrite bind_Ok_intro by exact H2.
  pose proof (import_rest_keeps_character_tables c w2) as Hk.
  unfold keeps, character_tables in Hk. injection Hk as Hk1 Hk2 Hk3.
  rewrite Hk1, Hk2, Hk3. auto.
Qed.

(** *** Level-up and death deduplication *)

(** C4: a level-up is skipped exactly when the character already has a
    level-up at most 15 seconds away on either side, and is inserted
    otherwise; two level-ups 10 (or 15) seconds apart leave one row, two
    level-ups 20 (or 16) seconds apart leave two. *)
Theorem C4_levelup_window :
  (forall k char_id level date w,
      utcfromtimestamp date = Some date ->
      ((exists r e, In r (character_levelup (db w)) /\
                    lu_character_id r = char_id /\ lu_date r = Some e /\
                    Z.max (date - e) (e - date) <= 15)
       <-> import_levelup k (char_id, level, date) w = Ok (S k) (tick w))) /\
  (forall k char_id level date w k' w',
      ~ levelup_near (db w) char_id date ->
      import_levelup k (char_id, level, date) w = Ok k' w' ->
      k' = k /\
      exists id,
        character_levelup (db w') =
          character_levelup (db w) ++
            [{| lu_id := id; lu_character_id := char_id;
                lu_level := Some level; lu_date := Some date |}]) /\
  map lu_date (character_levelup
                 (db (after (import_characters (two_levelups 0 10) (start empty_db)))))
    = [Some 0] /\
  map lu_date (character_levelup
                 (db (after (import_characters (two_levelups 0 20) (start empty_db)))))
    = [Some 0; Some 20] /\
  map lu_date (character_levelup
                 (db (after (import_characters (two_levelups 0 15) (start empty_db)))))
    = [Some 0] /\
  map lu_date (character_levelup
                 (db (after (import_characters (two_levelups 0 16) (start empty_db)))))
    = [Some 0; Some 16].
Proof.
  split; [|split; [|repeat split; vm_compute; reflexivity]].
  - intros k char_id level date w Hd. split.
    + intros H. now apply import_levelup_duplicate.
    + intros H. destruct (levelup_near_dec (db w) char_id date) as [Hn|Hn];
        [exact Hn|].
      eapply import_levelup_inserted in H; [|exact Hn].
      destruct H as (H & _). lia.
  - intros k char_id level date w k' w' Hn H.
    eapply import_levelup_inserted in H; [|exact Hn].
    destruct H as (H & id & E & _). eauto.
Qed.

Lemma existsb_false_filter (A : Type) (f : A -> bool) l :
  existsb f l = false -> filter f l = [].
Proof.
  induction l as [|x l IH]; simpl; [reflexivity|].
  destruct (f x); simpl; [discriminate | exact IH].
Qed.

Lemma unique_deaths_insert_death i l t :
  respects (fun d d' => unique_deaths d -> unique_deaths d') (insert_death i l t).
Proof.
  statement_cases; auto.
  intros H char_id date. simpl. rewrite filter_app, length_app. simpl.
  apply orb_false_iff in Heqb0. destruct Heqb0 as (_ & Hnone).
  destruct (death_matches date char_id _) eqn:E; simpl.
  - apply death_matches_true in E. simpl in E. destruct E as (<- & [= <-]).
    rewrite (existsb_false_filter _ _ Hnone). simpl. lia.
  - specialize (H char_id date). lia.
Qed.

Lemma unique_deaths_import_characters c :
  steps (fun d d' => unique_deaths d -> unique_deaths d') (import_characters c).
Proof.
  apply steps_import_characters; try (now auto);
    try apply unique_deaths_insert_death;
    intros; statement_cases; auto.
Qed.

Lemma in_collected_deaths c f ch ld :
  In ch (chars c) -> In ld (char_deaths c) -> ld_char_id ld = lc_id ch ->
  In (f (lc_name ch), ld_level ld, ld_date ld, ld_killer ld, ld_byplayer ld)
     (collected_deaths c f (select_chars c)).
Proof.
  intros Hch Hld E. unfold collected_deaths. apply in_flat_map.
  exists ch. split; [now apply in_sorted|].
  unfold select_deaths.
  apply (in_map (fun d => (f (lc_name ch), ld_level d, ld_date d, ld_killer d,
                           ld_byplayer d))).
  apply filter_In. split; [exact Hld | now apply Z.eqb_eq].
Qed.

(** *** What an upsert on an existing name does to the row *)

Lemma update_modified_set_name now r :
  update_modified_column now (set_name r (ch_name r)) = update_modified_column now r.
Proof. reflexivity. Qed.

Lemma map_touch_eq now n rows :
  map (fun r => if (ch_name r =? n)%string
                then update_modified_column now (set_name r n) else r) rows =
  map (fun r => if (ch_name r =? n)%string
                then update_modified_column now r else r) rows.
Proof.
  apply map_ext. intros r. destruct (String.eqb_spec (ch_name r) n) as [<-|_];
    reflexivity.
Qed.

(** C3 (amended): an upsert that lands on an existing name changes one
    column of that row, [modified], which the [BEFORE UPDATE] trigger
    sets to [now()], and no other row; so after an import every row the
    table had is still in its place with its id, user_id, name, level,
    world, vocation, guild and created. *)
Theorem C3_conflict_keeps_all_but_modified :
  (forall u n l v wo g now d id,
      int2 l = true -> resolve d n = Some id ->
      exists d',
        upsert_character u n l v wo g now d = (inr id, d') /\
        character d' =
          map (fun r => if (ch_name r =? n)%string
                        then update_modified_column now r else r)
              (character d)) /\
  (forall c w,
      exists olds news,
        character (db (after (import_legacy_db c w))) = olds ++ news /\
        Forall2 unchanged_except_modified (character (db w)) olds).
Proof.
  split.
  - intros u n l v wo g now d id Hl Hid. eexists. split.
    + now apply upsert_character_conflict.
    + simpl. apply map_touch_eq.
  - intros c w. apply grows_import_legacy_db.
Qed.

(** *** Failures and duplicates in import_characters *)

Lemma import_character_quiet c acc ch w acc' w' :
  import_character c acc ch w = Ok acc' w' -> stdout w' = stdout w.
Proof.
  unfold import_character. intros H.
  apply bind_Ok in H. destruct H as (id & w1 & H1 & [= _ <-]).
  now apply execute_Ok in H1.
Qed.

Lemma import_death_counts k t w k' w' :
  import_death k t w = Ok k' w' ->
  stdout w' = stdout w /\
  (k' + List.length (character_death (db w')) =
   S (k + List.length (character_death (db w))))%nat /\
  character_levelup (db w') = character_levelup (db w).
Proof.
  destruct t as [[[[char_id level] date] killer] byplayer]. intros H.
  assert (Hd : utcfromtimestamp date = Some date)
    by (eapply import_death_date; eassumption).
  destruct (death_present_dec (db w) char_id date) as [Hp|Hn].
  - rewrite import_death_duplicate in H by assumption.
    injection H as <- <-. simpl. auto.
  - pose proof H as H'. eapply import_death_inserted in H'; [|exact Hn].
    destruct H' as (-> & id & E & _ & _ & El). rewrite E, length_app. simpl.
    split; [|split; [lia | exact El]].
    rewrite import_death_new in H by assumption.
    apply bind_Ok in H. destruct H as (i & w1 & H1 & H2).
    apply bind_Ok in H2. destruct H2 as ([] & w2 & H2 & [= <-]).
    apply execute_Ok in H1, H2. destruct H1 as (_ & _ & E1).
    destruct H2 as (_ & _ & E2). rewrite E2, E1. reflexivity.
Qed.

Lemma import_levelup_counts k t w k' w' :
  import_levelup k t w = Ok k' w' ->
  stdout w' = stdout w /\
  (k' + List.length (character_levelup (db w')) =
   S (k + List.length (character_levelup (db w))))%nat /\
  character_death (db w') = character_death (db w).
Proof.
  destruct t as [[char_id level] date]. intros H.
  assert (Hd : utcfromtimestamp date = Some date)
    by (eapply import_levelup_date; eassumption).
  destruct (levelup_near_dec (db w) char_id date) as [Hp|Hn].
  - rewrite import_levelup_duplicate in H by assumption.
    injection H as <- <-. simpl. auto.
  - pose proof H as H'. eapply import_levelup_inserted in H'; [|exact Hn].
    destruct H' as (-> & id & E & _ & Ed). rewrite E, length_app. simpl.
    split; [|split; [lia | exact Ed]].
    rewrite import_levelup_new in H by assumption.
    apply bind_Ok in H. destruct H as ([] & w1 & H1 & [= <-]).
    apply execute_Ok in H1. destruct H1 as (_ & _ & ->). reflexivity.
Qed.

Lemma import_deaths_count l : forall k w k' w',
  for_ l import_death k w = Ok k' w' ->
  stdout w' = stdout w /\
  (k' + List.length (character_death (db w')) =
   k + List.length (character_death (db w)) + List.length l)%nat /\
  character_levelup (db w') = character_levelup (db w).
Proof.
  induction l as [|x l IH]; intros k w k' w' H; simpl in H.
  - injection H as <- <-. simpl. auto with arith.
  - apply bind_Ok in H. destruct H as (k1 & w1 & H1 & H2).
    apply import_death_counts in H1. apply IH in H2.
    destruct H1 as (O1 & C1 & L1). destruct H2 as (O2 & C2 & L2).
    rewrite O2, O1, L2, L1. simpl. repeat split. lia.
Qed.

Lemma import_levelups_count l : forall k w k' w',
  for_ l import_levelup k w = Ok k' w' ->
  stdout w' = stdout w /\
  (k' + List.length (character_levelup (db w')) =
   k + List.length (character_levelup (db w)) + List.length l)%nat /\
  character_death (db w') = character_death (db w).
Proof.
  induction l as [|x l IH]; intros k w k' w' H; simpl in H.
  - injection H as <- <-. simpl. auto with arith.
  - apply bind_Ok in H. destruct H as (k1 & w1 & H1 & H2).
    apply import_levelup_counts in H1. apply IH in H2.
    destruct H1 as (O1 & C1 & L1). destruct H2 as (O2 & C2 & L2).
    rewrite O2, O1, L2, L1. simpl. repeat split. lia.
Qed.

Lemma import_characters_first_loop rows c : forall acc w acc' w',
  for_ rows (import_character c) acc w = Ok acc' w' ->
  stdout w' = stdout w /\
  character_death (db w') = character_death (db w) /\
  character_levelup (db w') = character_levelup (db w) /\
  List.length (fst acc') =
    (List.length (fst acc) +
     List.length (collected_levelups c (fun _ => 0%Z) rows))%nat /\
  List.length (snd acc') =
    (List.length (snd acc) +
     List.length (collected_deaths c (fun _ => 0%Z) rows))%nat.
Proof.
  induction rows as [|ch rows IH]; intros acc w acc' w' H; simpl in H.
  - injection H as <- <-. simpl. auto with arith.
  - apply bind_Ok in H. destruct H as (acc1 & w1 & H1 & H2).
    apply IH in H2. destruct H2 as (O2 & D2 & L2 & Hl & Hd).
    rewrite O2, D2, L2.
    erewrite import_character_quiet by eassumption.
    unfold import_character in H1.
    apply bind_Ok in H1. destruct H1 as (id & w2 & H1 & [= <- <-]).
    apply execute_Ok in H1. destruct H1 as (H1 & _).
    assert (E : character_death (db w2) = character_death (db w) /\
                character_levelup (db w2) = character_levelup (db w)).
    { revert H1. unfold upsert_character.
      repeat match goal with
             | |- context [if ?b then _ else _] => destruct b
             | |- context [match find ?f ?l with _ => _ end] => destruct (find f l)
             end; intros [= _ <-]; simpl; auto. }
    destruct E as (-> & ->). repeat split.
    + rewrite Hl. simpl. unfold collected_levelups. simpl.
      unfold select_levelups. rewrite !length_app, !length_map. lia.
    + rewrite Hd. simpl. unfold collected_deaths. simpl.
      unfold select_deaths. rewrite !length_app, !length_map. lia.
Qed.

Lemma import_characters_report c w w' :
  import_characters c w = Ok tt w' ->
  exists k1 k2,
    stdout w' = stdout w ++ reported SkippedDeaths k1 ++ reported SkippedLevelUps k2 /\
    (k1 + List.length (character_death (db w')) =
     List.length (character_death (db w)) +
     List.length (collected_deaths c (fun _ => 0%Z) (select_chars c)))%nat /\
    (k2 + List.length (character_levelup (db w')) =
     List.length (character_levelup (db w)) +
     List.length (collected_levelups c (fun _ => 0%Z) (select_chars c)))%nat.
Proof.
  unfold import_characters. intros H.
  apply bind_Ok in H. destruct H as ([levelups deaths] & w1 & H1 & H).
  apply bind_Ok in H. destruct H as (k1 & w2 & H2 & H).
  apply bind_Ok in H. destruct H as ([] & w2' & Hp1 & H).
  apply bind_Ok in H. destruct H as (k2 & w3 & H3 & Hp2).
  exists k1, k2.
  apply import_characters_first_loop in H1.
  destruct H1 as (O1 & D1 & L1 & Hl & Hd). simpl in Hl, Hd.
  apply import_deaths_count in H2. destruct H2 as (O2 & D2 & L2).
  apply import_levelups_count in H3. destruct H3 as (O3 & L3 & D3).
  rewrite sorted_length in D2, L3.
  destruct (report_Ok SkippedDeaths k1 w2) as (x & Hx & Ex & Ox).
  rewrite Hp1 in Hx. injection Hx as <-.
  destruct (report_Ok SkippedLevelUps k2 w3) as (y & Hy & Ey & Oy).
  rewrite Hp2 in Hy. injection Hy as <-.
  rewrite Oy, O3, Ox, O2, O1, Ey, D3, L3, Ex, L2, D2, D1, L1, Hl, Hd.
  rewrite <- app_assoc. repeat split; lia.
Qed.

(** *** One row per name *)

Lemma unique_names_upsert_character u n l v wo g :
  respects (fun d d' => unique_names d -> unique_names d')
           (upsert_character u n l v wo g).
Proof.
  statement_cases; auto; unfold unique_names; simpl; intros H; try exact H.
  1, 2: rewrite map_map; erewrite map_ext; [exact H|];
    intros r; destruct (String.eqb_spec (ch_name r) n) as [E|E]; simpl; auto.
  rewrite map_app. simpl.
  apply NoDup_app; [exact H | constructor; [intros [] | constructor] |].
  intros x Hx [<-|[]]. apply in_map_iff in Hx. destruct Hx as (r & Hr1 & Hr2).
  eapply find_none in Heqo; [|exact Hr2]. simpl in Heqo.
  rewrite Hr1, String.eqb_refl in Heqo. discriminate.
Qed.

Lemma unique_names_import_legacy_db c :
  steps (fun d d' => unique_names d -> unique_names d') (import_legacy_db c).
Proof.
  apply steps_import_legacy_db; [now auto | | | |].
  - apply steps_import_characters; try (now auto);
      try apply unique_names_upsert_character;
      intros; statement_cases; auto.
  - apply steps_import_server_properties; try (now auto);
      intros; statement_cases; auto.
  - apply steps_import_roles; try (now auto);
      intros; statement_cases; auto.
  - apply steps_import_events; try (now auto);
      intros; statement_cases; auto.
Qed.

Lemma unique_name_filter rows n r :
  NoDup (map ch_name rows) ->
  find (fun r => (ch_name r =? n)%string) rows = Some r ->
  filter (fun r => (ch_name r =? n)%string) rows = [r].
Proof.
  induction rows as [|x rows IH]; simpl; [discriminate|].
  intros Hnd. inversion Hnd as [|? ? Hx Hnd']; subst.
  destruct (String.eqb_spec (ch_name x) n) as [E|E].
  - intros [= <-]. f_equal. apply existsb_false_filter.
    destruct (existsb _ rows) eqn:Ex; [|reflexivity].
    apply existsb_exists in Ex. destruct Ex as (y & Hy1 & Hy2).
    apply String.eqb_eq in Hy2. exfalso. apply Hx.
    rewrite E, <- Hy2. now apply in_map.
  - now apply IH.
Qed.

(** *** Participants of imported events *)

Lemma import_participant_Ok e name w w' :
  import_participant tt (e, name) w = Ok tt w' ->
  character (db w') = character (db w) /\
  extends (event_participant (db w)) (event_participant (db w')) /\
  (forall id, lookup (db w) name = Some id ->
              In {| ep_event_id := e; ep_character_id := id |}
                 (event_participant (db w'))).
Proof.
  unfold import_participant, select_character_id. intros H.
  erewrite bind_Ok_intro in H by apply execute_query. simpl in H.
  assert (E : match name with
              | Some n => option_map ch_id
                            (find (fun r => (ch_name r =? n)%string) (character (db w)))
              | None => None
              end = lookup (db w) name) by (destruct name; reflexivity).
  rewrite E in H. destruct (lookup (db w) name) as [id|].
  - apply execute_Ok in H. destruct H as (H & _). simpl in H.
    revert H. unfold insert_event_participant.
    destruct (existsb _ _) eqn:Ex.
    + intros [= <-]. split; [reflexivity|]. split; [apply extends_refl|].
      intros id' [= <-]. apply existsb_exists in Ex.
      destruct Ex as ([e' i'] & Hin & Hm). simpl in Hm.
      apply andb_true_iff in Hm. destruct Hm as (He & Hi).
      apply Z.eqb_eq in He, Hi. now subst.
    + destruct (negb _); intros [= <-]. simpl.
      split; [reflexivity|]. split; [apply extends_app|].
      intros id' [= <-]. apply in_or_app. right. now left.
  - injection H as <-. simpl.
    split; [reflexivity|]. split; [apply extends_refl | discriminate].
Qed.

Lemma import_participants_Ok ps : forall w w',
  for_ ps import_participant tt w = Ok tt w' ->
  character (db w') = character (db w) /\
  extends (event_participant (db w)) (event_participant (db w')) /\
  (forall e name id,
      In (e, name) ps -> lookup (db w) name = Some id ->
      In {| ep_event_id := e; ep_character_id := id |}
         (event_participant (db w'))).
Proof.
  induction ps as [|[e0 name0] ps IH]; intros w w' H; simpl in H.
  - injection H as <-. split; [reflexivity|]. split; [apply extends_refl|].
    intros e name id [].
  - apply bind_Ok in H. destruct H as ([] & w1 & H1 & H2).
    apply import_participant_Ok in H1. destruct H1 as (C1 & X1 & P1).
    apply IH in H2. destruct H2 as (C2 & X2 & P2).
    split; [congruence|]. split; [eapply extends_trans; eauto|].
    intros e name id [[= <- <-]|Hin] Hl.
    + eapply extends_In; [exact X2 | now apply P1].
    + apply (P2 e name id Hin). unfold lookup, resolve in Hl |- *. now rewrite C1.
Qed.

Lemma import_events_participants c w w' :
  import_events c w = Ok tt w' ->
  character (db w') = character (db w) /\
  forall ev, In ev (events c) ->
    exists er,
      In er (event (db w')) /\ imported_event ev er /\
      forall name id,
        In (ev_id er, name) (select_participants c (ev_id er) (le_id ev)) ->
        lookup (db w) name = Some id ->
        In {| ep_event_id := ev_id er; ep_character_id := id |}
           (event_participant (db w')).
Proof.
  unfold import_events. intros H.
  apply bind_Ok in H. destruct H as ([subs parts] & w1 & H1 & H2).
  apply bind_Ok in H2. destruct H2 as ([] & w2 & H2 & H3).
  set (I := fun (done : list LegacyEvent)
                (acc : list (Z * Z) * list (Z * option string)) (w1 : World) =>
              character (db w1) = character (db w) /\
              forall ev, In ev done ->
                exists er, In er (event (db w1)) /\ imported_event ev er /\
                           incl (select_participants c (ev_id er) (le_id ev))
                                (snd acc)).
  assert (Hbody : forall done e acc wa acc' wb,
             I done acc wa -> import_event c acc e wa = Ok acc' wb ->
             I (done ++ [e]) acc' wb).
  { intros done e acc wa acc' wb (HC & HI) Hstep.
    assert (HC' : character (db wb) = character (db wa)).
    { revert Hstep. unfold import_event.
      destruct (utcfromtimestamp _); [|discriminate]. intros Hstep.
      apply bind_Ok in Hstep. destruct Hstep as (i & wx & Hs & [= _ <-]).
      apply execute_Ok in Hs. destruct Hs as (Hs & _). revert Hs.
      unfold insert_event.
      repeat match goal with
             | |- context [if ?b then _ else _] => destruct b
             end; intros [= _ <-]; reflexivity. }
    apply import_event_row in Hstep. destruct Hstep as (r & Hr & Himp & ->).
    split; [congruence|].
    intros ev Hin. apply in_app_or in Hin. destruct Hin as [Hin|[<-|[]]].
    - destruct (HI ev Hin) as (er & H4 & H5 & H6). exists er.
      split; [rewrite Hr; apply in_or_app; now left|]. split; [exact H5|].
      simpl. intros x Hx. apply in_or_app. left. now apply H6.
    - exists r. split; [rewrite Hr; apply in_or_app; right; now left|].
      split; [exact Himp|].
      simpl. intros x Hx. apply in_or_app. now right. }
  assert (Hinit : I [] ([], []) w) by (split; [reflexivity | intros ev []]).
  pose proof (@for_invariant _ _ _ I _ Hbody [] _ _ _ _ Hinit H1) as (HC1 & HI1).
  simpl in HI1.
  pose proof (@steps_Ok _ _ _ _ _ _ (import_subscribers_keep_events subs) H2) as K2.
  pose proof (@steps_Ok _ _ _ _ _ _
                (import_participants_keep event parts (fun _ _ => eq_refl)) H3) as K3.
  assert (C2 : character (db w2) = character (db w1)).
  { eapply (@steps_Ok (keeps character)); [|exact H2].
    apply steps_for; try apply keeps_refl; try apply keeps_trans.
    intros [] x. apply steps_execute. statement_cases; reflexivity. }
  apply import_participants_Ok in H3. destruct H3 as (C3 & _ & P3).
  unfold keeps in K2, K3.
  split; [congruence|].
  intros ev Hin. destruct (HI1 ev Hin) as (er & H4 & H5 & H6).
  exists er. split; [now rewrite K3, K2|]. split; [exact H5|].
  intros name id Hn Hl. apply (P3 (ev_id er) name id).
  - now apply H6.
  - unfold lookup, resolve in Hl |- *. now rewrite C2, HC1.
Qed.

Lemma in_select_participants c e ev p ch :
  In p (event_participants c) -> In ch (chars c) ->
  lpt_event_id p = le_id ev -> lpt_char_id p = lc_id ch ->
  In (e, Some (lc_name ch)) (select_participants c e (le_id ev)).
Proof.
  intros Hp Hch He Hc. unfold select_participants.
  apply (in_map (fun n => (e, n))). apply in_flat_map. exists p. split.
  - apply filter_In. split; [exact Hp | now apply Z.eqb_eq].
  - unfold left_join_chars.
    assert (Hin : In ch (filter (fun ch0 => lc_id ch0 =? lpt_char_id p) (chars c))).
    { apply filter_In. split; [exact Hch|]. apply Z.eqb_eq. congruence. }
    destruct (filter _ (chars c)) as [|x l] eqn:E; [destruct Hin|].
    apply (in_map (fun ch0 => Some (lc_name ch0))). exact Hin.
Qed.

Lemma in_collected_levelups c f ch ll :
  In ch (chars c) -> In ll (char_levelups c) -> ll_char_id ll = lc_id ch ->
  In (f (lc_name ch), ll_level ll, ll_date ll)
     (collected_levelups c f (select_chars c)).
Proof.
  intros Hch Hll E. unfold collected_levelups. apply in_flat_map.
  exists ch. split; [now apply in_sorted|].
  unfold select_levelups.
  apply (in_map (fun l => (f (lc_name ch), ll_level l, ll_date l))).
  apply in_sorted, filter_In. split; [exact Hll | now apply Z.eqb_eq].
Qed.

(** C2: after a migration into a store whose names are unique, every
    legacy character's name belongs to exactly one [character] row, and
    under that row's id the store holds a death at the timestamp of each
    legacy death of the character, a level-up within the 15 seconds of
    each of its legacy level-ups, and a participation in the imported
    event for each of its legacy participations. *)
Theorem C2_one_row_per_name c w w' :
  unique_names (db w) ->
  import_legacy_db c w = Ok tt w' ->
  forall ch, In ch (chars c) ->
    exists r,
      filter (fun r' => (ch_name r' =? lc_name ch)%string) (character (db w')) = [r] /\
      ch_name r = lc_name ch /\
      (forall ld, In ld (char_deaths c) -> ld_char_id ld = lc_id ch ->
         exists row, In row (character_death (db w')) /\
                     d_character_id row = ch_id r /\
                     d_date row = Some (ld_date ld)) /\
      (forall ll, In ll (char_levelups c) -> ll_char_id ll = lc_id ch ->
         exists row e, In row (character_levelup (db w')) /\
                       lu_character_id row = ch_id r /\
                       lu_date row = Some e /\
                       Z.max (ll_date ll - e) (e - ll_date ll) <= 15) /\
      (forall ev p, In ev (events c) -> In p (event_participants c) ->
         lpt_event_id p = le_id ev -> lpt_char_id p = lc_id ch ->
         exists er, In er (event (db w')) /\ imported_event ev er /\
                    In {| ep_event_id := ev_id er; ep_character_id := ch_id r |}
                       (event_participant (db w'))).
Proof.
  intros Hu H ch Hch.
  pose proof (@steps_Ok _ _ _ _ _ _ (unique_names_import_legacy_db c) H Hu) as Hu'.
  unfold import_legacy_db in H.
  apply bind_Ok in H. destruct H as ([] & wa & Ha & H).
  apply bind_Ok in H. destruct H as ([] & wb & Hb & H).
  apply bind_Ok in H. destruct H as ([] & wc & Hc & Hd).
  assert (Hg : grows (db wa) (db w')).
  { eapply grows_trans;
      [exact (@steps_Ok _ _ _ _ _ _ (grows_import_server_properties c) Hb)|].
    eapply grows_trans;
      [exact (@steps_Ok _ _ _ _ _ _ (grows_import_roles c) Hc)|].
    exact (@steps_Ok _ _ _ _ _ _ (grows_import_events c) Hd). }
  assert (Himp : characters_imported c (db w'))
    by (eapply import_characters_post; eassumption).
  destruct Himp as (Hall & Hdeaths & Hlevelups).
  assert (Hin : In ch (select_chars c)) by now apply in_sorted.
  destruct (Hall ch Hin) as (_ & Hr).
  unfold resolve, name_id in Hr.
  destruct (find _ (character (db w'))) as [r|] eqn:Hfind; [clear Hr|now elim Hr].
  assert (Hres : resolved (db w') (lc_name ch) = ch_id r).
  { unfold resolved, resolve, name_id. now rewrite Hfind. }
  exists r. split; [now apply unique_name_filter|].
  split; [apply find_some in Hfind; now apply String.eqb_eq|].
  split; [|split].
  - intros ld Hld E.
    destruct (Hdeaths _ (in_collected_deaths c (resolved (db w')) ch ld Hch Hld E))
      as ((row & H1 & H2 & H3) & _).
    simpl in H2, H3. rewrite Hres in H2. eauto.
  - intros ll Hll E.
    destruct (Hlevelups _ (in_collected_levelups c (resolved (db w')) ch ll Hch Hll E))
      as ((row & e & H1 & H2 & H3 & H4) & _).
    simpl in H2, H4. rewrite Hres in H2. eauto 6.
  - intros ev p Hev Hp E1 E2.
    apply import_events_participants in Hd. destruct Hd as (HC & Hd).
    destruct (Hd ev Hev) as (er & H1 & H2 & H3).
    exists er. split; [exact H1|]. split; [exact H2|].
    apply (H3 (Some (lc_name ch))).
    + eapply in_select_participants; eauto.
    + unfold lookup, resolve, name_id. rewrite <- HC, Hfind. reflexivity.
Qed.

(* ---------------------------------------------------------------- *)
(** ** The importers, pass by pass *)

(** *** Loops of conflict-skipping inserts into [NOT NULL] columns *)

Section ConflictSkip.
Variables (Item Row Frame : Type).
Variable table : Db -> list Row.
Variable frame : Db -> Frame.
Variable row_of : Item -> option Row.
Variable q : Item -> statement unit.

Hypothesis q_inserts : forall x now d,
  match row_of x with
  | Some y =>
      exists d',
        q x now d = (inr tt, d') /\ frame d' = frame d /\
        ((In y (table d) /\ table d' = table d) \/
         (~ In y (table d) /\ table d' = table d ++ [y]))
  | None => q x now d = (inl NotNullViolationError, d)
  end.

Lemma conflict_skip_loop l : forall w,
  (forall x, In x l -> row_of x <> None) ->
  exists w',
    for_ l (fun (_ : unit) x => execute (q x)) tt w = Ok tt w' /\
    frame (db w') = frame (db w) /\
    extends (table (db w)) (table (db w')) /\
    (forall x y, In x l -> row_of x = Some y -> In y (table (db w'))) /\
    (forall y, In y (table (db w')) ->
               In y (table (db w)) \/ exists x, In x l /\ row_of x = Some y) /\
    (NoDup (table (db w)) -> NoDup (table (db w'))) /\
    ((forall x y, In x l -> row_of x = Some y -> In y (table (db w))) ->
     table (db w') = table (db w)).
Proof.
  induction l as [|x l IH]; intros w Hnn.
  - exists w. simpl. repeat split; auto using extends_refl.
    intros x y [].
  - pose proof (q_inserts x (clock (stmts w)) (db w)) as Hq.
    destruct (row_of x) as [y|] eqn:Ey; [|elim (Hnn x (or_introl eq_refl) Ey)].
    destruct Hq as (d' & Hq & Hf & Hcase).
    set (w1 := {| db := d'; stmts := S (stmts w); stdout := stdout w |}).
    assert (Hstep : execute (q x) w = Ok tt w1).
    { unfold execute. rewrite Hq. reflexivity. }
    destruct (IH w1) as (w' & Hrun & Hfr & Hext & Hin & Hfrom & Hnd & Hsame).
    { intros z Hz. apply Hnn. now right. }
    exists w'. simpl. erewrite bind_Ok_intro by exact Hstep.
    assert (Hext1 : extends (table (db w)) (table (db w1))).
    { simpl. destruct Hcase as [(_ & ->)|(_ & ->)];
        auto using extends_refl, extends_app. }
    assert (Hx : In y (table (db w1))).
    { simpl. destruct Hcase as [(H & ->)|(_ & ->)]; [exact H|].
      apply in_or_app. right. now left. }
    split; [exact Hrun|]. split; [simpl in Hfr; congruence|].
    split; [eapply extends_trans; eassumption|].
    split; [|split; [|split]].
    + intros z y' [<-|Hz] Hy'; [|now apply (Hin z)].
      assert (y' = y) as -> by congruence.
      eapply extends_In; eassumption.
    + intros y' Hy'. destruct (Hfrom y' Hy') as [H1|(z & Hz & Ez)].
      * simpl in H1. destruct Hcase as [(_ & E)|(_ & E)]; rewrite E in H1.
        -- now left.
        -- apply in_app_or in H1. destruct H1 as [H1|[<-|[]]]; [now left|].
           right. exists x. split; [now left | exact Ey].
      * right. exists z. split; [now right | exact Ez].
    + intros H. apply Hnd. simpl.
      destruct Hcase as [(_ & ->)|(Hnew & ->)]; [exact H|].
      apply NoDup_app; [exact H | constructor; [intros [] | constructor] |].
      intros y' Hy' [<-|[]]. exact (Hnew Hy').
    + intros Hall. rewrite Hsame.
      * simpl. destruct Hcase as [(_ & ->)|(Hnew & _)]; [reflexivity|].
        elim Hnew. apply (Hall x); [now left | exact Ey].
      * intros z y' Hz Hy'. eapply extends_In; [exact Hext1|].
        apply (Hall z); [now right | exact Hy'].
Qed.

(** A loop that returned met no [NULL]. *)
Lemma conflict_skip_Ok l : forall w w',
  for_ l (fun (_ : unit) x => execute (q x)) tt w = Ok tt w' ->
  forall x, In x l -> row_of x <> None.
Proof.
  induction l as [|x l IH]; intros w w' H z Hz; [destruct Hz|].
  simpl in H. apply bind_Ok in H. destruct H as ([] & w1 & H1 & H2).
  destruct Hz as [<-|Hz]; [|eapply IH; eassumption].
  intros E. pose proof (q_inserts x (clock (stmts w)) (db w)) as Hq.
  rewrite E in Hq. unfold execute in H1. rewrite Hq in H1. discriminate.
Qed.

(** A [NULL] makes the loop raise, the rows before it inserted. *)
Lemma conflict_skip_null l : forall w,
  (exists x, In x l /\ row_of x = None) ->
  exists w',
    for_ l (fun (_ : unit) x => execute (q x)) tt w
    = Raised NotNullViolationError w' /\
    frame (db w') = frame (db w) /\
    extends (table (db w)) (table (db w')).
Proof.
  induction l as [|x l IH]; intros w (z & Hz & Ez); [destruct Hz|].
  pose proof (q_inserts x (clock (stmts w)) (db w)) as Hq.
  destruct (row_of x) as [y|] eqn:Ey.
  - destruct Hq as (d' & Hq & Hf & Hcase).
    set (w1 := {| db := d'; stmts := S (stmts w); stdout := stdout w |}).
    assert (Hstep : execute (q x) w = Ok tt w1).
    { unfold execute. rewrite Hq. reflexivity. }
    destruct (IH w1) as (w' & Hrun & Hfr & Hext).
    { destruct Hz as [<-|Hz]; [congruence | eauto]. }
    exists w'. simpl. erewrite bind_Ok_intro by exact Hstep.
    split; [exact Hrun|]. split; [simpl in Hfr; congruence|].
    eapply extends_trans; [|exact Hext].
    simpl. destruct Hcase as [(_ & ->)|(_ & ->)];
      auto using extends_refl, extends_app.
  - eexists. simpl. split.
    + apply bind_Raised_intro. unfold execute. rewrite Hq. reflexivity.
    + simpl. auto using extends_refl.
Qed.

Lemma null_or_not l :
  (exists x, In x l /\ row_of x = None) \/ (forall x, In x l -> row_of x <> None).
Proof.
  induction l as [|x l [(z & Hz & Ez)|IH]].
  - right. intros x [].
  - left. exists z. split; [now right | exact Ez].
  - destruct (row_of x) as [y|] eqn:Ey.
    + right. intros z [<-|Hz]; [congruence | now apply IH].
    + left. exists x. split; [now left | exact Ey].
Qed.
End ConflictSkip.

(** *** import_roles *)

Lemma insert_role_auto_inserts (r : LegacyAutoRole) now d :
  match role_auto_of r with
  | Some y =>
      exists d',
        insert_role_auto (lar_server_id r) (lar_role_id r) (lar_guild r) now d
        = (inr tt, d') /\
        role_joinable d' = role_joinable d /\
        ((In y (role_auto d) /\ role_auto d' = role_auto d) \/
         (~ In y (role_auto d) /\ role_auto d' = role_auto d ++ [y]))
  | None =>
      insert_role_auto (lar_server_id r) (lar_role_id r) (lar_guild r) now d
      = (inl NotNullViolationError, d)
  end.
Proof.
  unfold role_auto_of, insert_role_auto.
  destruct (lar_server_id r) as [s|]; [|reflexivity].
  destruct (lar_role_id r) as [i|]; [|reflexivity].
  destruct (lar_guild r) as [g|]; [|reflexivity].
  destruct (existsb _ (role_auto d)) eqn:E.
  - exists d. repeat split. left. split; [|reflexivity].
    apply existsb_exists in E. destruct E as ([s' i' g'] & Hin & Hm). simpl in Hm.
    apply andb_true_iff in Hm. destruct Hm as (Hm & Hg).
    apply andb_true_iff in Hm. destruct Hm as (Hs & Hi).
    apply Z.eqb_eq in Hs, Hi. apply String.eqb_eq in Hg. now subst.
  - eexists. repeat split. right. split; [|reflexivity].
    intros Hin.
    assert (E' : existsb (fun x => (ra_server_id x =? s) && (ra_role_id x =? i)
                                   && (ra_rule x =? g)%string)
                         (role_auto d) = true).
    { apply existsb_exists. eexists. split; [exact Hin|].
      simpl. now rewrite !Z.eqb_refl, String.eqb_refl. }
    congruence.
Qed.

Lemma insert_role_joinable_inserts (r : LegacyJoinableRole) now d :
  match role_joinable_of r with
  | Some y =>
      exists d',
        insert_role_joinable (ljr_server_id r) (ljr_role_id r) now d = (inr tt, d') /\
        role_auto d' = role_auto d /\
        ((In y (role_joinable d) /\ role_joinable d' = role_joinable d) \/
         (~ In y (role_joinable d) /\ role_joinable d' = role_joinable d ++ [y]))
  | None =>
      insert_role_joinable (ljr_server_id r) (ljr_role_id r) now d
      = (inl NotNullViolationError, d)
  end.
Proof.
  unfold role_joinable_of, insert_role_joinable.
  destruct (ljr_server_id r) as [s|]; [|reflexivity].
  destruct (ljr_role_id r) as [i|]; [|reflexivity].
  destruct (existsb _ (role_joinable d)) eqn:E.
  - exists d. repeat split. left. split; [|reflexivity].
    apply existsb_exists in E. destruct E as ([s' i'] & Hin & Hm). simpl in Hm.
    apply andb_true_iff in Hm. destruct Hm as (Hs & Hi).
    apply Z.eqb_eq in Hs, Hi. now subst.
  - eexists. repeat split. right. split; [|reflexivity].
    intros Hin.
    assert (E' : existsb (fun x => (rj_server_id x =? s) && (rj_role_id x =? i))
                         (role_joinable d) = true).
    { apply existsb_exists. eexists. split; [exact Hin|].
      simpl. now rewrite !Z.eqb_refl. }
    congruence.
Qed.

(** The two loops of [import_roles]. *)
Lemma import_roles_loops c w :
  import_roles c w =
  (for_ (auto_roles c)
        (fun (_ : unit) r =>
           execute (insert_role_auto (lar_server_id r) (lar_role_id r) (lar_guild r)))
        tt ;;
   for_ (joinable_roles c)
        (fun (_ : unit) r =>
           execute (insert_role_joinable (ljr_server_id r) (ljr_role_id r)))
        tt) w.
Proof. reflexivity. Qed.

(** X1: [import_roles] returns exactly when no legacy rule has a [NULL],
    and otherwise raises [NotNullViolationError], which the conflict
    clause does not absorb.  When it returns every legacy rule is in its
    table, the rows that were there are kept, every new row comes from a
    legacy rule, and the primary keys (the whole rows) are still unique. *)
Theorem X1_import_roles_returns_unless_null c w :
  ((forall r, In r (auto_roles c) -> role_auto_of r <> None) ->
   (forall r, In r (joinable_roles c) -> role_joinable_of r <> None) ->
   exists w',
     import_roles c w = Ok tt w' /\
     (forall r y, In r (auto_roles c) -> role_auto_of r = Some y ->
                  In y (role_auto (db w'))) /\
     (forall r y, In r (joinable_roles c) -> role_joinable_of r = Some y ->
                  In y (role_joinable (db w'))) /\
     extends (role_auto (db w)) (role_auto (db w')) /\
     extends (role_joinable (db w)) (role_joinable (db w')) /\
     (forall y, In y (role_auto (db w')) ->
                In y (role_auto (db w)) \/
                exists r, In r (auto_roles c) /\ role_auto_of r = Some y) /\
     (forall y, In y (role_joinable (db w')) ->
                In y (role_joinable (db w)) \/
                exists r, In r (joinable_roles c) /\ role_joinable_of r = Some y) /\
     (NoDup (role_auto (db w)) -> NoDup (role_auto (db w'))) /\
     (NoDup (role_joinable (db w)) -> NoDup (role_joinable (db w')))) /\
  ((exists r, In r (auto_roles c) /\ role_auto_of r = None) \/
   (exists r, In r (joinable_roles c) /\ role_joinable_of r = None) ->
   exists w',
     import_roles c w = Raised NotNullViolationError w' /\
     extends (role_auto (db w)) (role_auto (db w')) /\
     extends (role_joinable (db w)) (role_joinable (db w'))).
Proof.
  split.
  - intros Ha Hj.
    destruct (conflict_skip_loop role_auto role_joinable role_auto_of
                (fun r => insert_role_auto (lar_server_id r) (lar_role_id r) (lar_guild r))
                insert_role_auto_inserts (auto_roles c) w Ha)
      as (w1 & H1 & F1 & E1 & I1 & O1 & N1 & _).
    destruct (conflict_skip_loop role_joinable role_auto role_joinable_of
                (fun r => insert_role_joinable (ljr_server_id r) (ljr_role_id r))
                insert_role_joinable_inserts (joinable_roles c) w1 Hj)
      as (w' & H2 & F2 & E2 & I2 & O2 & N2 & _).
    exists w'. split.
    { rewrite import_roles_loops. erewrite bind_Ok_intro by exact H1. exact H2. }
    rewrite F2. rewrite <- F1.
    repeat split; auto.
  - intros Hnull.
    destruct (null_or_not role_auto_of (auto_roles c)) as [Ha|Ha].
    + destruct (conflict_skip_null role_auto role_joinable role_auto_of
                  (fun r => insert_role_auto (lar_server_id r) (lar_role_id r)
                              (lar_guild r))
                  insert_role_auto_inserts (auto_roles c) w Ha)
        as (w' & H1 & F1 & E1).
      exists w'. split; [|split; [exact E1 | rewrite F1; apply extends_refl]].
      rewrite import_roles_loops. now apply bind_Raised_intro.
    + destruct Hnull as [(r & Hr & Er)|Hj]; [elim (Ha r Hr Er)|].
      destruct (conflict_skip_loop role_auto role_joinable role_auto_of
                  (fun r => insert_role_auto (lar_server_id r) (lar_role_id r)
                              (lar_guild r))
                  insert_role_auto_inserts (auto_roles c) w Ha)
        as (w1 & H1 & F1 & E1 & _).
      destruct (conflict_skip_null role_joinable role_auto role_joinable_of
                  (fun r => insert_role_joinable (ljr_server_id r) (ljr_role_id r))
                  insert_role_joinable_inserts (joinable_roles c) w1 Hj)
        as (w' & H2 & F2 & E2).
      exists w'. split; [|split; [rewrite F2; exact E1 | rewrite <- F1; exact E2]].
      rewrite import_roles_loops. erewrite bind_Ok_intro by exact H1. exact H2.
Qed.

(** A completed [import_roles], loop by loop. *)
Lemma import_roles_Ok c w w' :
  import_roles c w = Ok tt w' ->
  (forall r, In r (auto_roles c) -> role_auto_of r <> None) /\
  (forall r, In r (joinable_roles c) -> role_joinable_of r <> None) /\
  (forall r y, In r (auto_roles c) -> role_auto_of r = Some y ->
               In y (role_auto (db w'))) /\
  (forall r y, In r (joinable_roles c) -> role_joinable_of r = Some y ->
               In y (role_joinable (db w'))).
Proof.
  intros H. rewrite import_roles_loops in H.
  apply bind_Ok in H. destruct H as ([] & w1 & H1 & H2).
  pose proof (@conflict_skip_Ok _ _ _ role_auto role_joinable role_auto_of
                (fun r => insert_role_auto (lar_server_id r) (lar_role_id r) (lar_guild r))
                insert_role_auto_inserts _ _ _ H1) as Ha.
  pose proof (@conflict_skip_Ok _ _ _ role_joinable role_auto role_joinable_of
                (fun r => insert_role_joinable (ljr_server_id r) (ljr_role_id r))
                insert_role_joinable_inserts _ _ _ H2) as Hj.
  destruct (conflict_skip_loop role_auto role_joinable role_auto_of
              (fun r => insert_role_auto (lar_server_id r) (lar_role_id r) (lar_guild r))
              insert_role_auto_inserts (auto_roles c) w Ha)
    as (w1' & H1' & F1 & E1 & I1 & _).
  rewrite H1 in H1'. injection H1' as <-.
  destruct (conflict_skip_loop role_joinable role_auto role_joinable_of
              (fun r => insert_role_joinable (ljr_server_id r) (ljr_role_id r))
              insert_role_joinable_inserts (joinable_roles c) w1 Hj)
    as (w2' & H2' & F2 & E2 & I2 & _).
  rewrite H2 in H2'. injection H2' as <-.
  split; [exact Ha|]. split; [exact Hj|]. split; [|exact I2].
  intros r y Hr Ey. rewrite F2. now apply (I1 r).
Qed.

(** A run over rules that are all there changes neither table. *)
Lemma import_roles_again c w :
  (forall r, In r (auto_roles c) -> role_auto_of r <> None) ->
  (forall r, In r (joinable_roles c) -> role_joinable_of r <> None) ->
  (forall r y, In r (auto_roles c) -> role_auto_of r = Some y ->
               In y (role_auto (db w))) ->
  (forall r y, In r (joinable_roles c) -> role_joinable_of r = Some y ->
               In y (role_joinable (db w))) ->
  exists w',
    import_roles c w = Ok tt w' /\
    role_auto (db w') = role_auto (db w) /\
    role_joinable (db w') = role_joinable (db w).
Proof.
  intros Ha Hj Ia Ij.
  destruct (conflict_skip_loop role_auto role_joinable role_auto_of
              (fun r => insert_role_auto (lar_server_id r) (lar_role_id r) (lar_guild r))
              insert_role_auto_inserts (auto_roles c) w Ha)
    as (w3 & H3 & F3 & _ & _ & _ & _ & S3).
  destruct (conflict_skip_loop role_joinable role_auto role_joinable_of
              (fun r => insert_role_joinable (ljr_server_id r) (ljr_role_id r))
              insert_role_joinable_inserts (joinable_roles c) w3 Hj)
    as (w4 & H4 & F4 & _ & _ & _ & _ & S4).
  exists w4. split.
  { rewrite import_roles_loops. erewrite bind_Ok_intro by exact H3. exact H4. }
  split.
  - rewrite F4. now apply S3.
  - rewrite S4; [exact F3|]. intros r y Hr Ey. rewrite F3. now apply (Ij r).
Qed.

(** X2: a second [import_roles] over the same legacy store changes neither
    role table. *)
Theorem X2_import_roles_idempotent c w w' :
  import_roles c w = Ok tt w' ->
  exists w'',
    import_roles c w' = Ok tt w'' /\
    role_auto (db w'') = role_auto (db w') /\
    role_joinable (db w'') = role_joinable (db w').
Proof.
  intros H. apply import_roles_Ok in H. destruct H as (Ha & Hj & Ia & Ij).
  now apply import_roles_again.
Qed.

(** *** import_server_properties *)

Lemma import_server_property_other row w :
  lp_name row <> "prefixes"%string ->
  import_server_property tt row w =
  match property_document row with
  | inr j => execute (insert_server_property (lp_server_id row) (lp_name row) j) w
  | inl e => Raised e w
  end.
Proof.
  intros Hk. apply String.eqb_neq in Hk.
  unfold import_server_property, property_document, property_text, loads, dumps,
    jsonb. rewrite Hk.
  destruct (lp_name row =? "times")%string.
  - destruct (lp_value row) as [|z|s|f|b]; try reflexivity.
    + destruct (json_loads s); [|reflexivity].
      unfold bind, ret. destruct (jsonb_of_str _); reflexivity.
    + destruct (json_loads_bytes b); [reflexivity|].
      unfold bind, ret. destruct (jsonb_of_str _); reflexivity.
  - destruct (lp_name row =? "commandsonly")%string.
    + unfold bind, ret. destruct (jsonb_of_str _); reflexivity.
    + destruct (json_of_pyvalue (lp_value row)); [|reflexivity].
      unfold bind, ret. destruct (jsonb_of_str _); reflexivity.
Qed.

Lemma loads_after v w : after (loads v w) = w.
Proof.
  unfold loads. destruct v as [|z|s|f|b]; try reflexivity.
  - destruct (json_loads s); reflexivity.
  - destruct (json_loads_bytes b); reflexivity.
Qed.

Lemma text_array_after j w : after (text_array j w) = w.
Proof.
  unfold text_array. cbv zeta.
  destruct j as [| | | |l| |]; try reflexivity;
    try (destruct (text_items l); [reflexivity|]);
    destruct (text_array_other _); reflexivity.
Qed.

(** A row under the key [prefixes] leaves [server_property] alone. *)
Lemma import_prefixes_keeps_properties row w :
  lp_name row = "prefixes"%string ->
  server_property (db (after (import_server_property tt row w)))
  = server_property (db w).
Proof.
  intros Hk. unfold import_server_property. cbv zeta.
  rewrite Hk, String.eqb_refl, after_bind.
  pose proof (loads_after (lp_value row) w) as A1.
  destruct (loads (lp_value row) w) as [j w0|e w0]; simpl in A1; subst w0;
    [|reflexivity].
  rewrite after_bind.
  pose proof (text_array_after j w) as A2.
  destruct (text_array j w) as [p w0|e w0]; simpl in A2; subst w0;
    [|reflexivity].
  unfold execute, insert_server_prefixes.
  destruct p; [destruct (existsb _ _)|]; reflexivity.
Qed.

Lemma insert_server_property_cases server key j now d :
  (existsb (same_property server key) (server_property d) = true /\
   insert_server_property server key j now d = (inr tt, d)) \/
  (existsb (same_property server key) (server_property d) = false /\
   insert_server_property server key j now d =
   (inr tt,
    with_server_property d
      (server_property d ++
         [{| sp_server_id := server; sp_key := key; sp_value := Some j |}]))).
Proof.
  unfold insert_server_property, same_property.
  destruct (existsb _ (server_property d)); [left | right]; split; reflexivity.
Qed.

Lemma property_keys_insert_server_property i k v :
  respects (fun d d' => NoDup (property_keys d) -> NoDup (property_keys d'))
           (insert_server_property i k v).
Proof.
  intros now d.
  destruct (insert_server_property_cases i k v now d) as [(_ & ->)|(E & ->)];
    simpl; [auto|].
  intros H. unfold property_keys. simpl. rewrite map_app. simpl.
  apply NoDup_app; [exact H | constructor; [intros [] | constructor] |].
  intros x Hx [<-|[]]. apply in_map_iff in Hx. destruct Hx as (r & Hr & Hin).
  injection Hr as Hs Hk.
  assert (E' : existsb (same_property i k) (server_property d) = true).
  { apply existsb_exists. exists r. split; [exact Hin|].
    unfold same_property. rewrite Hs, Hk, Z.eqb_refl, String.eqb_refl.
    reflexivity. }
  congruence.
Qed.

Lemma prefixes_keys_insert_server_prefixes i l :
  respects (fun d d' => NoDup (prefixes_keys d) -> NoDup (prefixes_keys d'))
           (insert_server_prefixes i l).
Proof.
  intros now d. unfold insert_server_prefixes.
  destruct l as [l|]; [|simpl; auto].
  destruct (existsb _ (server_prefixes d)) eqn:E; simpl; [auto|].
  intros H. unfold prefixes_keys. simpl. rewrite map_app. simpl.
  apply NoDup_app; [exact H | constructor; [intros [] | constructor] |].
  intros x Hx [<-|[]]. apply in_map_iff in Hx. destruct Hx as (r & Hr & Hin).
  assert (E' : existsb (fun r0 => spx_server_id r0 =? i) (server_prefixes d) = true).
  { apply existsb_exists. exists r. split; [exact Hin|]. now apply Z.eqb_eq. }
  congruence.
Qed.

Lemma import_server_properties_keep_keys c :
  steps (fun d d' =>
           (NoDup (property_keys d) -> NoDup (property_keys d')) /\
           (NoDup (prefixes_keys d) -> NoDup (prefixes_keys d')))
        (import_server_properties c).
Proof.
  apply steps_import_server_properties.
  - intros d. split; auto.
  - intros d1 d2 d3 (H1 & H2) (H3 & H4). split; auto.
  - intros i l now d. split.
    + unfold insert_server_prefixes.
      destruct l; [destruct (existsb _ _)|]; simpl; auto.
    + apply prefixes_keys_insert_server_prefixes.
  - intros i k v _ now d. split.
    + apply property_keys_insert_server_property.
    + unfold insert_server_property. destruct (existsb _ _); simpl; auto.
Qed.

(** X3: [import_server_properties] has no update path.  Whatever it ends
    in, the rows that were in [server_property] and [server_prefixes] are
    still there, unchanged and in place, and the primary keys
    [(server_id, key)] and [server_id] are still unique. *)
Theorem X3_server_properties_first_write_wins c w :
  extends (server_property (db w))
          (server_property (db (after (import_server_properties c w)))) /\
  extends (server_prefixes (db w))
          (server_prefixes (db (after (import_server_properties c w)))) /\
  (NoDup (property_keys (db w)) ->
   NoDup (property_keys (db (after (import_server_properties c w))))) /\
  (NoDup (prefixes_keys (db w)) ->
   NoDup (prefixes_keys (db (after (import_server_properties c w))))).
Proof.
  destruct (grows_import_server_properties c w) as (_ & _ & _ & _ & _ & _ & _ & H1 & H2).
  destruct (import_server_properties_keep_keys c w) as (H3 & H4).
  auto.
Qed.

Lemma import_server_property_Ok row w w' :
  import_server_property tt row w = Ok tt w' ->
  (lp_name row = "prefixes"%string /\
   server_property (db w') = server_property (db w)) \/
  (lp_name row <> "prefixes"%string /\
   exists j,
     property_document row = inr j /\
     ((existsb (same_property (lp_server_id row) (lp_name row))
               (server_property (db w)) = true /\
       server_property (db w') = server_property (db w)) \/
      (existsb (same_property (lp_server_id row) (lp_name row))
               (server_property (db w)) = false /\
       server_property (db w') =
         server_property (db w) ++
           [{| sp_server_id := lp_server_id row; sp_key := lp_name row;
               sp_value := Some j |}]))).
Proof.
  destruct (String.eqb_spec (lp_name row) "prefixes") as [Hk|Hk].
  - intros H. left. split; [exact Hk|].
    pose proof (import_prefixes_keeps_properties row w Hk) as K.
    now rewrite H in K.
  - rewrite (import_server_property_other row w Hk).
    destruct (property_document row) as [e|j]; [discriminate|].
    intros H. right. split; [exact Hk|]. exists j. split; [reflexivity|].
    apply execute_Ok in H. destruct H as (H & _).
    destruct (insert_server_property_cases (lp_server_id row) (lp_name row) j
                (clock (stmts w)) (db w)) as [(E & Hq)|(E & Hq)];
      rewrite Hq in H; injection H as <-; [left | right]; auto.
Qed.

Lemma import_server_properties_origin l : forall w w',
  for_ l import_server_property tt w = Ok tt w' ->
  forall r, In r (server_property (db w')) ->
    In r (server_property (db w)) \/
    exists row j, In row l /\ lp_name row <> "prefixes"%string /\
                  property_document row = inr j /\
                  r = {| sp_server_id := lp_server_id row; sp_key := lp_name row;
                         sp_value := Some j |}.
Proof.
  induction l as [|row l IH]; intros w w' H r Hr; simpl in H.
  - injection H as <-. now left.
  - apply bind_Ok in H. destruct H as ([] & w1 & H1 & H2).
    destruct (IH _ _ H2 r Hr) as [Hin|(row' & j' & Hin & Hk & Hj & ->)].
    + apply import_server_property_Ok in H1.
      destruct H1 as [(_ & E)|(Hk & j & Hj & [(_ & E)|(_ & E)])];
        rewrite E in Hin; try (now left).
      apply in_app_or in Hin. destruct Hin as [Hin|[<-|[]]]; [now left|].
      right. exists row, j. split; [now left|]. auto.
    + right. exists row', j'. split; [now right|]. auto.
Qed.

Lemma same_property_count_insert s k i k' v :
  respects (fun d d' =>
              (List.length (filter (same_property s k) (server_property d)) <= 1)%nat ->
              (List.length (filter (same_property s k) (server_property d')) <= 1)%nat)
           (insert_server_property i k' v).
Proof.
  intros now d.
  destruct (insert_server_property_cases i k' v now d) as [(_ & ->)|(E & ->)];
    simpl; [auto|].
  intros H. rewrite filter_app, length_app. simpl.
  destruct (same_property s k _) eqn:Es; simpl; [|lia].
  unfold same_property in Es. simpl in Es.
  apply andb_true_iff in Es. destruct Es as (Hs & Hk).
  apply Z.eqb_eq in Hs. apply String.eqb_eq in Hk. subst i k'.
  rewrite (existsb_false_filter _ _ E). simpl. lia.
Qed.

Lemma import_server_properties_keep_count s k l :
  steps (fun d d' =>
           (List.length (filter (same_property s k) (server_property d)) <= 1)%nat ->
           (List.length (filter (same_property s k) (server_property d')) <= 1)%nat)
        (for_ l import_server_property tt).
Proof.
  change (for_ l import_server_property tt)
    with (import_server_properties (legacy_properties l)).
  apply steps_import_server_properties.
  - auto.
  - auto.
  - intros i p now d. unfold insert_server_prefixes.
    destruct p; [destruct (existsb _ _)|]; simpl; auto.
  - intros i k' v _. apply same_property_count_insert.
Qed.

(** The first legacy row of a [(server, key)] the target does not have
    decides what is stored under it. *)
Lemma first_property_stored c w w' pre row post :
  import_server_properties c w = Ok tt w' ->
  server_properties c = pre ++ row :: post ->
  lp_name row <> "prefixes"%string ->
  existsb (same_property (lp_server_id row) (lp_name row))
          (server_property (db w)) = false ->
  (forall row0, In row0 pre ->
     ~ (lp_server_id row0 = lp_server_id row /\ lp_name row0 = lp_name row)) ->
  exists j,
    property_document row = inr j /\
    filter (same_property (lp_server_id row) (lp_name row))
           (server_property (db w')) =
    [{| sp_server_id := lp_server_id row; sp_key := lp_name row;
        sp_value := Some j |}].
Proof.
  intros H Hrows Hk Hnone Hpre.
  unfold import_server_properties in H. rewrite Hrows, for_app in H.
  apply bind_Ok in H. destruct H as ([] & w1 & H1 & H2). simpl in H2.
  apply bind_Ok in H2. destruct H2 as ([] & w2 & H2 & H3).
  assert (Hnone1 : existsb (same_property (lp_server_id row) (lp_name row))
                           (server_property (db w1)) = false).
  { destruct (existsb _ (server_property (db w1))) eqn:E; [|reflexivity].
    apply existsb_exists in E. destruct E as (r & Hr & Hm).
    destruct (import_server_properties_origin _ _ H1 r Hr)
      as [Hin|(row0 & j0 & Hin & _ & _ & ->)].
    - assert (existsb (same_property (lp_server_id row) (lp_name row))
                      (server_property (db w)) = true)
        by (apply existsb_exists; eauto).
      congruence.
    - exfalso. apply (Hpre row0 Hin). unfold same_property in Hm. simpl in Hm.
      apply andb_true_iff in Hm. destruct Hm as (Hs & Hn).
      apply Z.eqb_eq in Hs. apply String.eqb_eq in Hn. auto. }
  apply import_server_property_Ok in H2.
  destruct H2 as [(Hk' & _)|(_ & j & Hj & [(E & _)|(_ & E)])];
    [contradiction | congruence |].
  exists j. split; [exact Hj|].
  assert (Hone : (List.length (filter (same_property (lp_server_id row) (lp_name row))
                                      (server_property (db w2))) <= 1)%nat).
  { rewrite E, filter_app, (existsb_false_filter _ _ Hnone1), length_app.
    simpl. destruct (same_property _ _ _); simpl; lia. }
  pose proof (@steps_Ok _ _ _ _ _ _
                (import_server_properties_keep_count (lp_server_id row)
                   (lp_name row) post) H3 Hone) as Hone'.
  assert (Hin : In {| sp_server_id := lp_server_id row; sp_key := lp_name row;
                      sp_value := Some j |}
                   (filter (same_property (lp_server_id row) (lp_name row))
                           (server_property (db w')))).
  { apply filter_In. split.
    - eapply extends_In.
      + pose proof (@steps_Ok _ _ _ _ _ _
                      (grows_import_server_properties (legacy_properties post)) H3)
          as (_ & _ & _ & _ & _ & _ & _ & Hx & _).
        exact Hx.
      + rewrite E. apply in_or_app. right. now left.
    - unfold same_property. simpl. now rewrite Z.eqb_refl, String.eqb_refl. }
  destruct (filter _ (server_property (db w'))) as [|x [|y l]];
    simpl in Hin, Hone'; [destruct Hin | | lia].
  destruct Hin as [->|[]]. reflexivity.
Qed.


(** X4: the first legacy row of a [(server, key)] the target does not have
    decides what is stored under it: after a completed pass the only row
    with that key carries the document the connection's [jsonb] codec
    made of the text that first row was dumped to, whatever later legacy
    rows with the same key say. *)
Theorem X4_first_legacy_property_wins c w w' pre row post :
  import_server_properties c w = Ok tt w' ->
  server_properties c = pre ++ row :: post ->
  lp_name row <> "prefixes"%string ->
  existsb (same_property (lp_server_id row) (lp_name row))
          (server_property (db w)) = false ->
  (forall row0, In row0 pre ->
     ~ (lp_server_id row0 = lp_server_id row /\ lp_name row0 = lp_name row)) ->
  exists text j,
    property_text row = inr text /\ jsonb_of_str text = inr j /\
    filter (same_property (lp_server_id row) (lp_name row))
           (server_property (db w')) =
    [{| sp_server_id := lp_server_id row; sp_key := lp_name row;
        sp_value := Some j |}].
Proof.
  intros H Hrows Hk Hnone Hpre.
  destruct (@first_property_stored _ _ _ _ _ _ H Hrows Hk Hnone Hpre)
    as (j & Hj & Hf).
  unfold property_document in Hj.
  destruct (property_text row) as [e|text]; [discriminate|].
  exists text, j. auto.
Qed.

(** X5: a value [json.loads] cannot take ends the pass: under the keys
    [times] and [prefixes] a value that is neither text nor bytes raises
    [TypeError], a text that is no JSON raises [JSONDecodeError] and bytes
    that cannot be read raise what [json.loads] raises on them; the rows
    before it stay written and the rows after it are not looked at. *)
Theorem X5_unreadable_property_aborts c w pre row post w1 eb :
  server_properties c = pre ++ row :: post ->
  for_ pre import_server_property tt w = Ok tt w1 ->
  lp_name row = "times"%string \/ lp_name row = "prefixes"%string ->
  (forall s, lp_value row = PyStr s -> json_loads s = None) ->
  (forall b, lp_value row = PyBytes b -> json_loads_bytes b = inl eb) ->
  import_server_properties c w =
  Raised (match lp_value row with
          | PyStr _ => JSONDecodeError
          | PyBytes _ => eb
          | _ => TypeError
          end) w1.
Proof.
  intros Hrows Hpre Hk Hbad Hbytes. unfold import_server_properties. rewrite Hrows.
  eapply for_raises; [exact Hpre|].
  unfold import_server_property, loads.
  destruct Hk as [-> | ->]; simpl;
    destruct (lp_value row) as [|z|s|f|b] eqn:Ev; try reflexivity;
    try (rewrite (Hbad s eq_refl); reflexivity);
    rewrite (Hbytes b eq_refl); reflexivity.
Qed.

(** *** Prefixes *)

Lemma import_prefixes_items_step w row s l items :
  lp_name row = "prefixes"%string ->
  lp_value row = PyStr s ->
  json_loads s = Some (JArr l) ->
  text_items l = Some items ->
  exists w',
    import_server_property tt row w = Ok tt w' /\
    server_property (db w') = server_property (db w) /\
    server_prefixes (db w') =
      if existsb (fun r => spx_server_id r =? lp_server_id row) (server_prefixes (db w))
      then server_prefixes (db w)
      else server_prefixes (db w) ++
             [{| spx_server_id := lp_server_id row;
                 spx_prefixes := TextArray items |}].
Proof.
  intros Hk Hv Hj Hi. unfold import_server_property, loads, text_array.
  rewrite Hk, Hv, Hj. simpl. unfold bind, ret. rewrite Hi.
  unfold execute, insert_server_prefixes.
  destruct (existsb _ (server_prefixes (db w))); eexists; repeat split.
Qed.

Lemma import_server_property_prefixes row w w' :
  import_server_property tt row w = Ok tt w' ->
  server_prefixes (db w') = server_prefixes (db w) \/
  (lp_name row = "prefixes"%string /\
   existsb (fun r => spx_server_id r =? lp_server_id row) (server_prefixes (db w))
   = false /\
   exists p, server_prefixes (db w') =
             server_prefixes (db w) ++
               [{| spx_server_id := lp_server_id row; spx_prefixes := p |}]).
Proof.
  destruct (String.eqb_spec (lp_name row) "prefixes") as [Hk|Hk].
  - unfold import_server_property. cbv zeta. rewrite Hk, String.eqb_refl.
    intros H. apply bind_Ok in H. destruct H as (j & w1 & H1 & H).
    pose proof (loads_after (lp_value row) w) as A1. rewrite H1 in A1.
    simpl in A1. subst w1.
    apply bind_Ok in H. destruct H as (p & w1 & H2 & H).
    pose proof (text_array_after j w) as A2. rewrite H2 in A2.
    simpl in A2. subst w1.
    apply execute_Ok in H. destruct H as (H & _). revert H.
    unfold insert_server_prefixes. destruct p as [p|]; [|discriminate].
    destruct (existsb _ (server_prefixes (db w))) eqn:E; intros [= <-].
    + now left.
    + right. split; [reflexivity|]. split; [reflexivity|]. exists p. reflexivity.
  - rewrite import_server_property_other by exact Hk.
    destruct (property_document row) as [|j]; [discriminate|].
    intros H. apply execute_Ok in H. destruct H as (H & _).
    destruct (insert_server_property_cases (lp_server_id row) (lp_name row) j
                (clock (stmts w)) (db w)) as [(_ & Hq)|(_ & Hq)];
      rewrite Hq in H; injection H as <-; now left.
Qed.

Lemma import_server_properties_prefixes_origin l : forall w w',
  for_ l import_server_property tt w = Ok tt w' ->
  forall r, In r (server_prefixes (db w')) ->
    In r (server_prefixes (db w)) \/
    exists row, In row l /\ lp_name row = "prefixes"%string /\
                spx_server_id r = lp_server_id row.
Proof.
  induction l as [|row l IH]; intros w w' H r Hr; simpl in H.
  - injection H as <-. now left.
  - apply bind_Ok in H. destruct H as ([] & w1 & H1 & H2).
    destruct (IH _ _ H2 r Hr) as [Hin|(row' & Hin & Hk & Hs)];
      [|right; exists row'; split; [now right | auto]].
    apply import_server_property_prefixes in H1.
    destruct H1 as [E|(Hk & _ & p & E)]; rewrite E in Hin; [now left|].
    apply in_app_or in Hin. destruct Hin as [Hin|[<-|[]]]; [now left|].
    right. exists row. split; [now left | auto].
Qed.

Lemma import_server_properties_keep_prefixes_count (s : Z) l :
  steps (fun d d' =>
           (List.length (filter (fun r => (spx_server_id r =? s)%Z)
                                (server_prefixes d)) <= 1)%nat ->
           (List.length (filter (fun r => (spx_server_id r =? s)%Z)
                                (server_prefixes d')) <= 1)%nat)
        (for_ l import_server_property tt).
Proof.
  change (for_ l import_server_property tt)
    with (import_server_properties (legacy_properties l)).
  apply steps_import_server_properties.
  - auto.
  - auto.
  - intros i p now d. unfold insert_server_prefixes.
    destruct p as [p|]; [|simpl; auto].
    destruct (existsb _ (server_prefixes d)) eqn:E; simpl; [auto|].
    intros H. rewrite filter_app, length_app. simpl.
    destruct (Z.eqb_spec i s) as [->|Hn]; simpl; [|lia].
    rewrite (existsb_false_filter _ _ E). simpl. lia.
  - intros i k v _ now d. unfold insert_server_property.
    destruct (existsb _ _); simpl; auto.
Qed.

Lemma existsb_filter_nil (A : Type) (f : A -> bool) l :
  existsb f l = true <-> filter f l <> [].
Proof.
  induction l as [|x l IH]; simpl.
  - split; [discriminate | congruence].
  - destruct (f x); simpl; [split; [discriminate | reflexivity] | exact IH].
Qed.

(** A server that has prefixes keeps them as they are. *)
Lemma import_server_properties_keep_prefixes c :
  steps (fun d d' =>
           forall s : Z,
             existsb (fun r => spx_server_id r =? s) (server_prefixes d) = true ->
                     filter (fun r => spx_server_id r =? s) (server_prefixes d')
                     = filter (fun r => spx_server_id r =? s) (server_prefixes d))
        (import_server_properties c).
Proof.
  apply steps_import_server_properties.
  - auto.
  - intros d1 d2 d3 H12 H23 s Hs. rewrite <- (H12 s Hs). apply H23.
    apply existsb_filter_nil. rewrite (H12 s Hs). now apply existsb_filter_nil.
  - intros i p now d s Hs. unfold insert_server_prefixes.
    destruct p as [p|]; [|reflexivity].
    destruct (existsb (fun r => spx_server_id r =? i) (server_prefixes d)) eqn:E;
      simpl; [reflexivity|].
    rewrite filter_app. simpl.
    destruct (Z.eqb_spec i s) as [->|Hn]; [congruence|]. apply app_nil_r.
  - intros i k v _ now d s Hs.
    destruct (insert_server_property_cases i k v now d) as [(_ & ->)|(_ & ->)];
      reflexivity.
Qed.

(** The first legacy row of prefixes for a server that has none decides
    what the server gets. *)
Lemma first_prefixes_stored c w w' pre row post s l items :
  import_server_properties c w = Ok tt w' ->
  server_properties c = pre ++ row :: post ->
  lp_name row = "prefixes"%string ->
  lp_value row = PyStr s ->
  json_loads s = Some (JArr l) ->
  text_items l = Some items ->
  existsb (fun r => spx_server_id r =? lp_server_id row) (server_prefixes (db w))
  = false ->
  (forall row0, In row0 pre -> lp_name row0 = "prefixes"%string ->
                lp_server_id row0 <> lp_server_id row) ->
  filter (fun r => spx_server_id r =? lp_server_id row) (server_prefixes (db w'))
  = [{| spx_server_id := lp_server_id row; spx_prefixes := TextArray items |}].
Proof.
  intros H Hrows Hk Hv Hj Hi Hnone Hpre.
  unfold import_server_properties in H. rewrite Hrows, for_app in H.
  apply bind_Ok in H. destruct H as ([] & w1 & H1 & H2). simpl in H2.
  apply bind_Ok in H2. destruct H2 as ([] & w2 & H2 & H3).
  assert (Hnone1 : existsb (fun r => spx_server_id r =? lp_server_id row)
                           (server_prefixes (db w1)) = false).
  { destruct (existsb _ (server_prefixes (db w1))) eqn:E; [|reflexivity].
    apply existsb_exists in E. destruct E as (r & Hr & Hm).
    apply Z.eqb_eq in Hm.
    destruct (import_server_properties_prefixes_origin _ _ H1 r Hr)
      as [Hin|(row0 & Hin & Hk0 & Hs0)].
    - assert (existsb (fun r => spx_server_id r =? lp_server_id row)
                      (server_prefixes (db w)) = true)
        by (apply existsb_exists; exists r; split; [exact Hin | now apply Z.eqb_eq]).
      congruence.
    - exfalso. apply (Hpre row0 Hin Hk0). congruence. }
  destruct (import_prefixes_items_step w1 row Hk Hv Hj Hi) as (w2' & H2' & _ & E).
  rewrite H2 in H2'. injection H2' as <-. rewrite Hnone1 in E.
  assert (Hone : (List.length (filter (fun r => (spx_server_id r =? lp_server_id row)%Z)
                                      (server_prefixes (db w2))) <= 1)%nat).
  { rewrite E, filter_app, (existsb_false_filter _ _ Hnone1), length_app.
    simpl. destruct (_ =? _); simpl; lia. }
  pose proof (@steps_Ok _ _ _ _ _ _
                (import_server_properties_keep_prefixes_count (lp_server_id row) post)
                H3 Hone) as Hone'.
  assert (Hin : In {| spx_server_id := lp_server_id row;
                      spx_prefixes := TextArray items |}
                   (filter (fun r => spx_server_id r =? lp_server_id row)
                           (server_prefixes (db w')))).
  { apply filter_In. split.
    - eapply extends_In.
      + pose proof (@steps_Ok _ _ _ _ _ _
                      (grows_import_server_properties (legacy_properties post)) H3)
          as (_ & _ & _ & _ & _ & _ & _ & _ & Hx).
        exact Hx.
      + rewrite E. apply in_or_app. right. now left.
    - simpl. apply Z.eqb_refl. }
  destruct (filter _ (server_prefixes (db w'))) as [|x [|y l0]];
    simpl in Hin, Hone'; [destruct Hin | | lia].
  destruct Hin as [->|[]]. reflexivity.
Qed.

(** C8: a legacy property under the key [prefixes] goes to
    [server_prefixes] and nowhere else.  After a completed pass a server
    that had no prefixes has exactly one row, with the list the first
    legacy row for it parses to, items in order; a server that had
    prefixes keeps them as they were, whatever the legacy store says; a
    legacy store with the one property [prefixes], a list of strings,
    makes the pass return with that list stored.  And [server_property]
    never receives a row under the key [prefixes], neither from
    [import_server_properties] nor from the whole of [import_legacy_db]. *)
Theorem C8_prefixes_isolated c w :
  (forall w' pre row post s l items,
      import_server_properties c w = Ok tt w' ->
      server_properties c = pre ++ row :: post ->
      lp_name row = "prefixes"%string ->
      lp_value row = PyStr s ->
      json_loads s = Some (JArr l) ->
      text_items l = Some items ->
      existsb (fun r => spx_server_id r =? lp_server_id row) (server_prefixes (db w))
      = false ->
      (forall row0, In row0 pre -> lp_name row0 = "prefixes"%string ->
                    lp_server_id row0 <> lp_server_id row) ->
      filter (fun r => spx_server_id r =? lp_server_id row) (server_prefixes (db w'))
      = [{| spx_server_id := lp_server_id row; spx_prefixes := TextArray items |}]) /\
  (forall server,
      existsb (fun r => spx_server_id r =? server) (server_prefixes (db w)) = true ->
      filter (fun r => spx_server_id r =? server)
             (server_prefixes (db (after (import_server_properties c w))))
      = filter (fun r => spx_server_id r =? server) (server_prefixes (db w))) /\
  (forall row s l,
      server_properties c = [row] ->
      lp_name row = "prefixes"%string ->
      lp_value row = PyStr s ->
      json_loads s = Some (JArr (map JStr l)) ->
      exists w',
        import_server_properties c w = Ok tt w' /\
        server_property (db w') = server_property (db w) /\
        server_prefixes (db w') =
          if existsb (fun r => spx_server_id r =? lp_server_id row)
                     (server_prefixes (db w))
          then server_prefixes (db w)
          else server_prefixes (db w) ++
                 [{| spx_server_id := lp_server_id row;
                     spx_prefixes := TextArray (map Some l) |}]) /\
  no_new_prefixes_property (db w) (db (after (import_server_properties c w))) /\
  no_new_prefixes_property (db w) (db (after (import_legacy_db c w))).
Proof.
  split; [|split; [|split; [|split]]].
  - intros w' pre row post s l items. apply first_prefixes_stored.
  - apply (import_server_properties_keep_prefixes c w).
  - intros row s l Hrows Hk Hv Hj.
    destruct (import_prefixes_items_step w row Hk Hv Hj (text_items_strings l))
      as (w' & H & E1 & E2).
    exists w'. split; [|split; assumption].
    unfold import_server_properties. rewrite Hrows. simpl.
    erewrite bind_Ok_intro by exact H. reflexivity.
  - apply import_server_properties_no_prefixes_property.
  - apply import_legacy_db_no_prefixes_property.
Qed.

(** *** The key commandsonly *)

Lemma py_bool_false v :
  py_bool v = false <->
  v = PyNone \/ v = PyInt 0 \/ v = PyStr "" \/ v = PyBytes "" \/
  exists f, v = PyFloat f /\ PrimFloat.eqb f PrimFloat.zero = true.
Proof.
  destruct v as [|z|s|f|b]; simpl.
  - split; auto.
  - rewrite negb_false_iff, Z.eqb_eq. split.
    + intros ->. auto.
    + intros [H|[H|[H|[H|(f & H & _)]]]]; congruence.
  - rewrite negb_false_iff, String.eqb_eq. split.
    + intros ->. auto.
    + intros [H|[H|[H|[H|(f & H & _)]]]]; congruence.
  - rewrite negb_false_iff. split.
    + intros H. do 4 right. exists f. auto.
    + intros [H|[H|[H|[H|(f0 & H & E)]]]]; try discriminate.
      injection H as ->. exact E.
  - rewrite negb_false_iff, String.eqb_eq. split.
    + intros ->. auto.
    + intros [H|[H|[H|[H|(f & H & _)]]]]; congruence.
Qed.

Lemma property_document_commandsonly row :
  lp_name row = "commandsonly"%string ->
  property_document row = jsonb_of_str (json_dumps (JBool (py_bool (lp_value row)))).
Proof.
  intros Hk. unfold property_document, property_text. rewrite Hk. reflexivity.
Qed.

(** C10 (amended): under the key [commandsonly] the text handed to the
    [jsonb] column is [json.dumps] of the truth value Python gives the
    raw legacy value, never of what the value would parse to, and the
    document stored is what the [jsonb] codec of the connection makes of
    that text: the JSON boolean itself when the codec reads the text as
    JSON.  After a completed pass the first legacy row of a server that
    had no such property is the one stored.  The truth value is false
    for [NULL], the integer 0, a real that equals zero, the empty text
    and the empty [BLOB], and for nothing else: every non-empty text is
    true, the texts ["0"] and ["false"] among them. *)
Theorem C10_commandsonly_truthiness c w w' pre row post :
  import_server_properties c w = Ok tt w' ->
  server_properties c = pre ++ row :: post ->
  lp_name row = "commandsonly"%string ->
  existsb (same_property (lp_server_id row) "commandsonly") (server_property (db w))
  = false ->
  (forall row0, In row0 pre ->
     ~ (lp_server_id row0 = lp_server_id row /\ lp_name row0 = "commandsonly"%string)) ->
  (exists j,
     jsonb_of_str (json_dumps (JBool (py_bool (lp_value row)))) = inr j /\
     filter (same_property (lp_server_id row) "commandsonly")
            (server_property (db w')) =
     [{| sp_server_id := lp_server_id row; sp_key := "commandsonly";
         sp_value := Some j |}]) /\
  (jsonb_of_str (json_dumps (JBool (py_bool (lp_value row))))
   = inr (JBool (py_bool (lp_value row))) ->
   filter (same_property (lp_server_id row) "commandsonly")
          (server_property (db w')) =
   [{| sp_server_id := lp_server_id row; sp_key := "commandsonly";
       sp_value := Some (JBool (py_bool (lp_value row))) |}]) /\
  (py_bool (lp_value row) = false <->
   lp_value row = PyNone \/ lp_value row = PyInt 0 \/ lp_value row = PyStr "" \/
   lp_value row = PyBytes "" \/
   exists f, lp_value row = PyFloat f /\ PrimFloat.eqb f PrimFloat.zero = true) /\
  (forall s, lp_value row = PyStr s -> s <> ""%string ->
             py_bool (lp_value row) = true) /\
  py_bool (PyStr "0") = true /\ py_bool (PyStr "false") = true.
Proof.
  intros H Hrows Hk Hnone Hpre.
  assert (Hstored : exists j,
             jsonb_of_str (json_dumps (JBool (py_bool (lp_value row)))) = inr j /\
             filter (same_property (lp_server_id row) "commandsonly")
                    (server_property (db w')) =
             [{| sp_server_id := lp_server_id row; sp_key := "commandsonly";
                 sp_value := Some j |}]).
  { assert (Hk' : lp_name row <> "prefixes"%string) by (rewrite Hk; discriminate).
    rewrite <- Hk in Hnone, Hpre.
    destruct (@first_property_stored _ _ _ _ _ _ H Hrows Hk' Hnone Hpre)
      as (j & Hj & Hf).
    rewrite (property_document_commandsonly row Hk) in Hj.
    exists j. split; [exact Hj|]. rewrite <- Hk at 1 2. exact Hf. }
  split; [exact Hstored|].
  split; [|split; [apply py_bool_false | split; [|split; reflexivity]]].
  - intros Hc. destruct Hstored as (j & Hj & Hf). rewrite Hc in Hj.
    injection Hj as <-. exact Hf.
  - intros s -> Hs. simpl. apply negb_true_iff, String.eqb_neq. exact Hs.
Qed.

(** *** import_events *)

Lemma import_event_inserts c acc e wa acc' wb :
  import_event c acc e wa = Ok acc' wb ->
  exists r,
    event (db wb) = event (db wa) ++ [r] /\
    ev_id r = event_seq (db wa) /\
    event_seq (db wb) = event_seq (db wa) + 1 /\
    ~ In (ev_id r) (map ev_id (event (db wa))) /\
    imported_event e r /\ event_copied e r /\ event_fits e /\
    event_subscriber (db wb) = event_subscriber (db wa) /\
    event_participant (db wb) = event_participant (db wa) /\
    acc' = (fst acc ++ select_subscribers c (ev_id r) (le_id e),
            snd acc ++ select_participants c (ev_id r) (le_id e)).
Proof.
  unfold import_event.
  destruct (utcfromtimestamp (le_start e)) as [t|] eqn:Et; [|discriminate].
  intros H. apply bind_Ok in H. destruct H as (id & w1 & H1 & [= <- <-]).
  apply execute_Ok in H1. destruct H1 as (H1 & _). revert H1.
  unfold insert_event.
  destruct (int2 (le_slots e) && int2 (4 - le_status e)) eqn:Ei; simpl;
    [|discriminate].
  destruct (existsb _ (event (db wa))) eqn:Ex; [discriminate|].
  intros [= <- <-]. eexists. simpl.
  split; [reflexivity|]. split; [reflexivity|]. split; [reflexivity|].
  split.
  { intros Hin. apply in_map_iff in Hin. destruct Hin as (r0 & Hr0 & Hin).
    assert (existsb (fun r => ev_id r =? event_seq (db wa)) (event (db wa)) = true)
      by (apply existsb_exists; exists r0; split; [exact Hin | now apply Z.eqb_eq]).
    congruence. }
  pose proof (utcfromtimestamp_Some _ Et) as ->.
  split; [repeat split|]. split; [repeat split|]. split; [|auto].
  apply andb_true_iff in Ei. destruct Ei as (E1 & E2).
  unfold int2 in E1, E2. unfold utcfromtimestamp in Et.
  destruct ((-62135596800 <=? le_start e) && (le_start e <=? 253402300799)) eqn:E3;
    [|discriminate].
  apply andb_true_iff in E1, E2, E3.
  rewrite !Z.leb_le in E1, E2, E3. unfold event_fits. lia.
Qed.

Lemma ids_from_S n k : ids_from n (S k) = n :: ids_from (n + 1) k.
Proof.
  unfold ids_from. simpl. rewrite Z.add_0_r. f_equal.
  rewrite <- seq_shift, map_map. apply map_ext. intros i. lia.
Qed.

Lemma ids_from_bounds n k x : In x (ids_from n k) -> n <= x < n + Z.of_nat k.
Proof.
  unfold ids_from. intros H. apply in_map_iff in H. destruct H as (i & <- & Hi).
  apply in_seq in Hi. lia.
Qed.

Lemma import_events_first_loop c l : forall acc w acc' w1,
  for_ l (import_event c) acc w = Ok acc' w1 ->
  exists rows,
    event (db w1) = event (db w) ++ rows /\
    Forall2 (fun e r => imported_event e r /\ event_copied e r) l rows /\
    Forall event_fits l /\
    map ev_id rows = ids_from (event_seq (db w)) (List.length l) /\
    event_seq (db w1) = event_seq (db w) + Z.of_nat (List.length l) /\
    (forall r, In r rows -> ~ In (ev_id r) (map ev_id (event (db w)))) /\
    event_subscriber (db w1) = event_subscriber (db w) /\
    event_participant (db w1) = event_participant (db w) /\
    fst acc' = fst acc ++ collected_subscribers c l rows /\
    snd acc' = snd acc ++ collected_participants c l rows.
Proof.
  induction l as [|e l IH]; intros acc w acc' w1 H; simpl in H.
  - injection H as <- <-. exists []. simpl. rewrite !app_nil_r, Z.add_0_r.
    repeat split; auto; try (now intros r []).
  - apply bind_Ok in H. destruct H as (acc1 & wa & H1 & H2).
    apply import_event_inserts in H1.
    destruct H1 as (r & Hr & Hid & Hseq & Hfresh & Himp & Hcp & Hfit & Hs & Hp & ->).
    apply IH in H2.
    destruct H2 as (rows & Hrows & HF & Hfits & Hids & Hseq' & Hfresh' & Hs' & Hp'
                    & Hfst & Hsnd).
    exists (r :: rows).
    split; [rewrite Hrows, Hr, <- app_assoc; reflexivity|].
    split; [constructor; auto|]. split; [constructor; auto|].
    split; [cbn [map List.length]; rewrite ids_from_S, Hids, Hseq, Hid; reflexivity|].
    split; [rewrite Hseq', Hseq; simpl List.length; lia|].
    split.
    { intros r0 [<-|Hin]; [exact Hfresh|]. intros Hold.
      apply (Hfresh' r0 Hin). rewrite Hr, map_app. apply in_or_app. now left. }
    split; [congruence|]. split; [congruence|].
    simpl in Hfst, Hsnd. unfold collected_subscribers, collected_participants.
    simpl. rewrite Hfst, Hsnd, <- !app_assoc. split; reflexivity.
Qed.

Lemma Forall2_In_combine (A B : Type) (P : A -> B -> Prop) l rows e :
  Forall2 P l rows -> In e l -> exists r, In (e, r) (combine l rows) /\ P e r.
Proof.
  induction 1 as [|a b l rows Hab _ IH]; intros Hin; [destruct Hin|].
  destruct Hin as [<-|Hin].
  - exists b. split; [now left | exact Hab].
  - destruct (IH Hin) as (r & Hr & HP). exists r. split; [now right | exact HP].
Qed.

Lemma in_combine_ids (l : list LegacyEvent) rows n e r :
  map ev_id rows = ids_from n (List.length l) ->
  In (e, r) (combine l rows) -> n <= ev_id r < n + Z.of_nat (List.length l).
Proof.
  intros Hids Hin. apply in_combine_r in Hin.
  apply ids_from_bounds. rewrite <- Hids. now apply in_map.
Qed.

Lemma import_subscribers_Ok subs : forall w w',
  for_ subs import_subscriber tt w = Ok tt w' ->
  event (db w') = event (db w) /\ event_seq (db w') = event_seq (db w) /\
  character (db w') = character (db w) /\
  event_participant (db w') = event_participant (db w) /\
  extends (event_subscriber (db w)) (event_subscriber (db w')) /\
  (forall e u, In (e, u) subs ->
     In {| es_event_id := e; es_user_id := u |} (event_subscriber (db w'))) /\
  (forall r, In r (event_subscriber (db w')) ->
     In r (event_subscriber (db w)) \/ In (es_event_id r, es_user_id r) subs).
Proof.
  induction subs as [|[e0 u0] subs IH]; intros w w' H; simpl in H.
  - injection H as <-. repeat split; auto using extends_refl. intros e u [].
  - apply bind_Ok in H. destruct H as ([] & w1 & H1 & H2).
    apply IH in H2. destruct H2 as (E2 & S2 & C2 & P2 & X2 & I2 & O2).
    unfold import_subscriber in H1. apply execute_Ok in H1.
    destruct H1 as (H1 & _). simpl in H1. revert H1.
    unfold insert_event_subscriber.
    destruct (existsb _ (event_subscriber (db w))) eqn:Ex.
    + intros [= E1]. rewrite <- E1 in *.
      repeat split; auto.
      * intros e u [[= <- <-]|Hin]; [|now apply I2].
        eapply extends_In; [exact X2|].
        apply existsb_exists in Ex. destruct Ex as ([e' u'] & Hin & Hm).
        simpl in Hm. apply andb_true_iff in Hm. destruct Hm as (He & Hu).
        apply Z.eqb_eq in He, Hu. now subst.
      * intros r Hr. destruct (O2 r Hr) as [?|?]; [now left | right; now right].
    + destruct (negb _); [discriminate|]. intros [= E1].
      rewrite <- E1 in E2, S2, C2, P2, X2, O2. simpl in E2, S2, C2, P2, X2, O2.
      repeat split; auto.
      * eapply extends_trans; [apply extends_app | exact X2].
      * intros e u [[= <- <-]|Hin]; [|now apply I2].
        eapply extends_In; [exact X2|]. apply in_or_app. right. now left.
      * intros r Hr. destruct (O2 r Hr) as [Hin|Hin]; [|right; now right].
        apply in_app_or in Hin. destruct Hin as [Hin|[<-|[]]]; [now left|].
        right. now left.
Qed.

Lemma import_participants_origin ps : forall w w',
  for_ ps import_participant tt w = Ok tt w' ->
  forall r, In r (event_participant (db w')) ->
    In r (event_participant (db w)) \/ exists name, In (ep_event_id r, name) ps.
Proof.
  induction ps as [|[e0 name0] ps IH]; intros w w' H r Hr; simpl in H.
  - injection H as <-. now left.
  - apply bind_Ok in H. destruct H as ([] & w1 & H1 & H2).
    destruct (IH _ _ H2 r Hr) as [Hin|(name & Hin)];
      [|right; exists name; now right].
    unfold import_participant, select_character_id in H1.
    erewrite bind_Ok_intro in H1 by apply execute_query.
    destruct (match name0 with
              | Some n => option_map ch_id
                            (find (fun r0 => (ch_name r0 =? n)%string)
                                  (character (db w)))
              | None => None
              end) as [id|].
    + apply execute_Ok in H1. destruct H1 as (H1 & _). simpl in H1. revert H1.
      unfold insert_event_participant.
      destruct (existsb _ _); [intros [= E]; rewrite <- E in Hin; now left|].
      destruct (negb _); [discriminate|]. intros [= E]. rewrite <- E in Hin.
      simpl in Hin. apply in_app_or in Hin.
      destruct Hin as [Hin|[<-|[]]]; [now left|].
      right. exists name0. now left.
    + injection H1 as <-. now left.
Qed.

Lemma import_events_summary c w w' :
  import_events c w = Ok tt w' ->
  exists rows,
    (event (db w') = event (db w) ++ rows /\
     Forall2 (fun e r => imported_event e r /\ event_copied e r) (events c) rows /\
     Forall event_fits (events c) /\
     map ev_id rows = ids_from (event_seq (db w)) (List.length (events c)) /\
     event_seq (db w') = event_seq (db w) + Z.of_nat (List.length (events c)) /\
     (forall r, In r rows -> ~ In (ev_id r) (map ev_id (event (db w))))) /\
    character (db w') = character (db w) /\
    (forall e u, In (e, u) (collected_subscribers c (events c) rows) ->
       In {| es_event_id := e; es_user_id := u |} (event_subscriber (db w'))) /\
    (forall r, In r (event_subscriber (db w')) ->
       In r (event_subscriber (db w)) \/
       In (es_event_id r, es_user_id r) (collected_subscribers c (events c) rows)) /\
    (forall r, In r (event_participant (db w')) ->
       In r (event_participant (db w)) \/
       exists name,
         In (ep_event_id r, name) (collected_participants c (events c) rows)).
Proof.
  unfold import_events. intros H.
  apply bind_Ok in H. destruct H as ([subs parts] & w1 & H1 & H2).
  apply bind_Ok in H2. destruct H2 as ([] & w2 & H2 & H3).
  assert (C1 : character (db w1) = character (db w)).
  { eapply (@steps_Ok (keeps character)); [|exact H1].
    apply steps_for; try apply keeps_refl; try apply keeps_trans.
    intros acc x. unfold import_event.
    destruct (utcfromtimestamp _); [|apply steps_raise, keeps_refl].
    apply steps_bind; [apply keeps_trans | | intros a; apply steps_ret, keeps_refl].
    apply steps_execute. statement_cases; reflexivity. }
  apply import_events_first_loop in H1.
  destruct H1 as (rows & Hrows & HF & Hfits & Hids & Hseq & Hfresh & Hs & Hp
                  & Hfst & Hsnd).
  simpl in Hfst, Hsnd. subst subs parts.
  pose proof (@import_participants_origin _ _ _ H3) as O3.
  pose proof (@steps_Ok _ _ _ _ _ _
                (import_participants_keep
                   (fun d => (event d, event_seq d, event_subscriber d))
                   (collected_participants c (events c) rows)
                   (fun _ _ => eq_refl)) H3) as K3.
  apply import_participants_Ok in H3. destruct H3 as (C3 & _ & _).
  apply import_subscribers_Ok in H2.
  destruct H2 as (E2 & S2 & C2 & P2 & X2 & I2 & O2).
  unfold keeps in K3. injection K3 as K3e K3s K3u.
  exists rows. split; [|split; [congruence|split; [|split]]].
  - rewrite K3e, K3s, E2, S2. auto 10.
  - intros e u Hin. rewrite K3u. now apply I2.
  - intros r Hr. rewrite K3u in Hr. destruct (O2 r Hr) as [Hin|Hin]; [|now right].
    left. now rewrite <- Hs.
  - intros r Hr. destruct (O3 r Hr) as [Hin|Hin]; [|now right].
    left. now rewrite <- Hp, <- P2.
Qed.

(** X6: [import_events] checks for nothing that is there already.  Every
    completed run appends one row per legacy event, numbered from the
    sequence with ids no earlier row has, so a second run over the same
    legacy store stores every event a second time. *)
Theorem X6_import_events_adds_every_event_each_run c w w' :
  import_events c w = Ok tt w' ->
  (exists rows,
     event (db w') = event (db w) ++ rows /\
     map ev_id rows = ids_from (event_seq (db w)) (List.length (events c)) /\
     (forall r, In r rows -> ~ In (ev_id r) (map ev_id (event (db w))))) /\
  event_seq (db w') = event_seq (db w) + Z.of_nat (List.length (events c)) /\
  (forall w'', import_events c w' = Ok tt w'' ->
     List.length (event (db w'')) =
     (List.length (event (db w)) + 2 * List.length (events c))%nat).
Proof.
  intros H. apply import_events_summary in H.
  destruct H as (rows & (Hrows & _ & _ & Hids & Hseq & Hfresh) & _).
  split; [eauto|]. split; [exact Hseq|].
  intros w'' H'. apply import_events_summary in H'.
  destruct H' as (rows' & (Hrows' & _ & _ & Hids' & _) & _).
  rewrite Hrows', Hrows, !length_app.
  apply (f_equal (@List.length _)) in Hids, Hids'.
  unfold ids_from in Hids, Hids'. rewrite !length_map, length_seq in Hids, Hids'.
  lia.
Qed.

(** X7: every subscriber of a legacy event follows it: the event is
    stored under a new id, and the subscriber is stored under that id. *)
Theorem X7_subscribers_follow_their_event c w w' :
  import_events c w = Ok tt w' ->
  forall ev, In ev (events c) ->
    exists er,
      In er (event (db w')) /\ imported_event ev er /\
      ~ In (ev_id er) (map ev_id (event (db w))) /\
      forall s, In s (event_subscribers c) -> ls_event_id s = le_id ev ->
        In {| es_event_id := ev_id er; es_user_id := ls_user_id s |}
           (event_subscriber (db w')).
Proof.
  intros H ev Hev. apply import_events_summary in H.
  destruct H as (rows & (Hrows & HF & _ & _ & _ & Hfresh) & _ & Hsubs & _).
  destruct (@Forall2_In_combine _ _ _ _ _ _ HF Hev) as (er & Hin & Himp & _).
  exists er. split.
  { rewrite Hrows. apply in_or_app. right. eapply in_combine_r; eauto. }
  split; [exact Himp|]. split; [apply Hfresh; eapply in_combine_r; eauto|].
  intros s Hs Hid. apply Hsubs. unfold collected_subscribers.
  apply in_flat_map. exists (ev, er). split; [exact Hin|]. simpl.
  unfold select_subscribers.
  apply (in_map (fun s0 => (ev_id er, ls_user_id s0))).
  apply filter_In. split; [exact Hs | now apply Z.eqb_eq].
Qed.


Lemma in_collected_subscribers_id c l rows n e u :
  map ev_id rows = ids_from n (List.length l) ->
  In (e, u) (collected_subscribers c l rows) ->
  n <= e < n + Z.of_nat (List.length l).
Proof.
  intros Hids Hin. unfold collected_subscribers in Hin.
  apply in_flat_map in Hin. destruct Hin as ([ev r] & Hc & Hin). simpl in Hin.
  unfold select_subscribers in Hin. apply in_map_iff in Hin.
  destruct Hin as (s & [= <- _] & _). eapply in_combine_ids; eauto.
Qed.

Lemma in_collected_participants_id c l rows n e name :
  map ev_id rows = ids_from n (List.length l) ->
  In (e, name) (collected_participants c l rows) ->
  n <= e < n + Z.of_nat (List.length l).
Proof.
  intros Hids Hin. unfold collected_participants in Hin.
  apply in_flat_map in Hin. destruct Hin as ([ev r] & Hc & Hin). simpl in Hin.
  unfold select_participants in Hin. apply in_map_iff in Hin.
  destruct Hin as (s & [= <- _] & _). eapply in_combine_ids; eauto.
Qed.

(** X9: the subscribers and participants a run writes point at events
    the same run wrote, never at an event the target had before, whatever
    the legacy ids were. *)
Theorem X9_children_attach_to_new_events c w w' :
  import_events c w = Ok tt w' ->
  (forall r, In r (event_subscriber (db w')) ->
     In r (event_subscriber (db w)) \/
     subscriber_of_run (event_seq (db w)) (event_seq (db w')) r) /\
  (forall r, In r (event_participant (db w')) ->
     In r (event_participant (db w)) \/
     participant_of_run (event_seq (db w)) (event_seq (db w')) r).
Proof.
  intros H. apply import_events_summary in H.
  destruct H as (rows & (_ & _ & _ & Hids & Hseq & _) & _ & _ & Osub & Opart).
  split.
  - intros r Hr. destruct (Osub r Hr) as [Hin|Hin]; [now left|]. right.
    unfold subscriber_of_run. rewrite Hseq.
    eapply in_collected_subscribers_id; eauto.
  - intros r Hr. destruct (Opart r Hr) as [Hin|(name & Hin)]; [now left|]. right.
    unfold participant_of_run. rewrite Hseq.
    eapply in_collected_participants_id; eauto.
Qed.

Lemma event_fits_dec e :
  event_fits e <->
  utcfromtimestamp (le_start e) = Some (le_start e) /\
  (int2 (le_slots e) && int2 (4 - le_status e)) = true.
Proof.
  unfold event_fits, utcfromtimestamp, int2. split.
  - intros (H1 & H2 & H3). split.
    + destruct ((-62135596800 <=? le_start e) && (le_start e <=? 253402300799)) eqn:E;
        [reflexivity|].
      apply andb_false_iff in E. rewrite !Z.leb_gt in E. lia.
    + rewrite !andb_true_iff, !Z.leb_le. lia.
  - intros (H1 & H2).
    destruct ((-62135596800 <=? le_start e) && (le_start e <=? 253402300799)) eqn:E;
      [|discriminate].
    apply andb_true_iff in E. destruct E as (E1 & E2).
    apply andb_true_iff in H2. destruct H2 as (H2 & H3).
    apply andb_true_iff in H2, H3. destruct H2 as (H2 & H2'). destruct H3 as (H3 & H3').
    apply Z.leb_le in E1, E2, H2, H2', H3, H3'. lia.
Qed.

Lemma import_event_unfit c acc e w :
  ~ event_fits e ->
  exists x w2,
    import_event c acc e w = Raised x w2 /\ db w2 = db w.
Proof.
  intros Hn. unfold import_event.
  destruct (utcfromtimestamp (le_start e)) as [t|] eqn:Et.
  - pose proof (utcfromtimestamp_Some _ Et) as ->.
    destruct (int2 (le_slots e) && int2 (4 - le_status e)) eqn:Ei.
    + elim Hn. apply event_fits_dec. auto.
    + unfold bind, execute, insert_event. rewrite Ei. simpl.
      eexists _, _. split; reflexivity.
  - eexists _, _. split; reflexivity.
Qed.

(** X10: an event that cannot be inserted (a start outside the years 1 to
    9999, slots or status outside the [smallint] range) ends
    [import_events] in its first loop.  The events before it stay
    written, and neither their subscribers nor their participants are:
    the two tables are as they were. *)
Theorem X10_unfit_event_leaves_no_children c w pre e post acc1 w1 :
  events c = pre ++ e :: post ->
  for_ pre (import_event c) ([], []) w = Ok acc1 w1 ->
  ~ event_fits e ->
  exists x w2,
    import_events c w = Raised x w2 /\
    List.length (event (db w2)) = (List.length (event (db w)) + List.length pre)%nat /\
    event_subscriber (db w2) = event_subscriber (db w) /\
    event_participant (db w2) = event_participant (db w).
Proof.
  intros Hev Hpre Hn.
  destruct (@import_event_unfit c acc1 e w1 Hn) as (x & w2 & Hx & Hdb).
  exists x, w2. split.
  { unfold import_events. rewrite Hev. apply bind_Raised_intro.
    eapply for_raises; eassumption. }
  apply import_events_first_loop in Hpre.
  destruct Hpre as (rows & Hrows & HF & _ & _ & _ & _ & Hs & Hp & _).
  rewrite Hdb, Hrows, length_app, Hs, Hp.
  rewrite (Forall2_length HF). auto.
Qed.

(** *** The participant pass against its specification *)











(** *** Which tables an importer writes to *)

Lemma import_characters_beside c :
  steps (keeps beside_characters) (import_characters c).
Proof.
  apply steps_import_characters; try apply keeps_refl; try apply keeps_trans;
    intros; statement_cases; reflexivity.
Qed.

Lemma import_server_properties_beside c :
  steps (keeps beside_server_properties) (import_server_properties c).
Proof.
  apply steps_import_server_properties; try apply keeps_refl; try apply keeps_trans;
    intros; statement_cases; reflexivity.
Qed.

Lemma import_roles_beside c : steps (keeps beside_roles) (import_roles c).
Proof.
  apply steps_import_roles; try apply keeps_refl; try apply keeps_trans;
    intros; statement_cases; reflexivity.
Qed.

Lemma import_events_beside c : steps (keeps beside_events) (import_events c).
Proof.
  apply steps_import_events; try apply keeps_refl; try apply keeps_trans;
    intros; statement_cases; reflexivity.
Qed.

(** X11: each importer writes to its own tables only, whether it returns
    or raises: [import_characters] to the four character tables,
    [import_server_properties] to the two settings tables, [import_roles]
    to the two role tables, [import_events] to the three event tables.
    Rows and sequences of every other table are as they were. *)
Theorem X11_importers_keep_to_their_tables c w :
  beside_characters (db (after (import_characters c w))) = beside_characters (db w) /\
  beside_server_properties (db (after (import_server_properties c w)))
  = beside_server_properties (db w) /\
  beside_roles (db (after (import_roles c w))) = beside_roles (db w) /\
  beside_events (db (after (import_events c w))) = beside_events (db w).
Proof.
  split; [apply import_characters_beside|].
  split; [apply import_server_properties_beside|].
  split; [apply import_roles_beside | apply import_events_beside].
Qed.

(** X12: [import_legacy_db] stops at the first importer that raises, and
    the importers after it write nothing: when the character pass raises,
    settings, roles and events are as they were; when the settings pass
    raises, roles and events are. *)
Theorem X12_import_stops_at_first_failure c w :
  (forall e w1,
      import_characters c w = Raised e w1 ->
      import_legacy_db c w = Raised e w1 /\
      beside_characters (db w1) = beside_characters (db w)) /\
  (forall wa e w1,
      import_characters c w = Ok tt wa ->
      import_server_properties c wa = Raised e w1 ->
      import_legacy_db c w = Raised e w1 /\
      role_auto (db w1) = role_auto (db w) /\
      role_joinable (db w1) = role_joinable (db w) /\
      event (db w1) = event (db w) /\
      event_subscriber (db w1) = event_subscriber (db w) /\
      event_participant (db w1) = event_participant (db w)).
Proof.
  split.
  - intros e w1 H. split.
    + unfold import_legacy_db. now apply bind_Raised_intro.
    + pose proof (import_characters_beside c w) as K. now rewrite H in K.
  - intros wa e w1 Ha Hb. split.
    + unfold import_legacy_db. erewrite bind_Ok_intro by exact Ha.
      now apply bind_Raised_intro.
    + pose proof (import_characters_beside c w) as K1. rewrite Ha in K1.
      pose proof (import_server_properties_beside c wa) as K2. rewrite Hb in K2.
      unfold keeps, beside_characters, beside_server_properties in K1, K2.
      simpl in K1, K2.
      injection K1 as A1 A2 A3 A4 A5 A6 A7 A8.
      injection K2 as B1 B2 B3 B4 B5 B6 B7 B8 B9 B10 B11 B12 B13.
      repeat split; congruence.
Qed.

(** *** The rows the death and level-up passes write *)

Lemma death_row_of_id id t : d_id (death_row_of id t) = id.
Proof. destruct t as [[[[? ?] ?] ?] ?]. reflexivity. Qed.

Lemma death_row_of_date id t : d_date (death_row_of id t) = Some (death_date t).
Proof. destruct t as [[[[? ?] ?] ?] ?]. reflexivity. Qed.

Lemma levelup_row_of_id id t : lu_id (levelup_row_of id t) = id.
Proof. destruct t as [[? ?] ?]. reflexivity. Qed.

Lemma levelup_row_of_date id t : lu_date (levelup_row_of id t) = Some (levelup_date t).
Proof. destruct t as [[? ?] ?]. reflexivity. Qed.

Lemma import_death_Ok_cases k t w k' w' :
  import_death k t w = Ok k' w' ->
  (character_death (db w') = character_death (db w) /\
   character_death_killer (db w') = character_death_killer (db w) /\
   character_death_seq (db w') = character_death_seq (db w)) \/
  (character_death (db w') =
     character_death (db w) ++ [death_row_of (character_death_seq (db w)) t] /\
   character_death_killer (db w') =
     character_death_killer (db w) ++ [killer_row_of (character_death_seq (db w)) t] /\
   character_death_seq (db w') = character_death_seq (db w) + 1).
Proof.
  destruct t as [[[[char_id level] date] killer] byplayer]. intros H.
  assert (Hd : utcfromtimestamp date = Some date)
    by (eapply import_death_date; eassumption).
  destruct (death_present_dec (db w) char_id date) as [Hp|Hn].
  - rewrite import_death_duplicate in H by assumption.
    injection H as _ <-. left. simpl. auto.
  - rewrite import_death_new in H by assumption.
    apply bind_Ok in H. destruct H as (id & w1 & H1 & H2).
    apply bind_Ok in H2. destruct H2 as ([] & w2 & H2 & [= _ <-]).
    apply execute_Ok in H1. destruct H1 as (H1 & _).
    apply execute_Ok in H2. destruct H2 as (H2 & _).
    revert H1. unfold insert_death.
    repeat match goal with
           | |- context [if ?b then _ else _] => destruct b
           end; intros [= <- E1]; try discriminate.
    revert H2. unfold insert_killer. rewrite <- E1. cbn [tick db].
    destruct (negb _); intros [= <-]. right. simpl. auto.
Qed.

Lemma import_levelup_Ok_cases k t w k' w' :
  import_levelup k t w = Ok k' w' ->
  (character_levelup (db w') = character_levelup (db w) /\
   character_levelup_seq (db w') = character_levelup_seq (db w)) \/
  (character_levelup (db w') =
     character_levelup (db w) ++ [levelup_row_of (character_levelup_seq (db w)) t] /\
   character_levelup_seq (db w') = character_levelup_seq (db w) + 1).
Proof.
  destruct t as [[char_id level] date]. intros H.
  assert (Hd : utcfromtimestamp date = Some date)
    by (eapply import_levelup_date; eassumption).
  destruct (levelup_near_dec (db w) char_id date) as [Hp|Hn].
  - rewrite import_levelup_duplicate in H by assumption.
    injection H as _ <-. left. simpl. auto.
  - rewrite import_levelup_new in H by assumption.
    apply bind_Ok in H. destruct H as ([] & w1 & H1 & [= _ <-]).
    apply execute_Ok in H1. destruct H1 as (H1 & _).
    revert H1. unfold insert_levelup.
    repeat match goal with
           | |- context [if ?b then _ else _] => destruct b
           end; intros [= <-]. right. simpl. auto.
Qed.

Lemma import_deaths_rows l : forall k w k' w',
  StronglySorted (fun a b => death_date a <= death_date b) l ->
  for_ l import_death k w = Ok k' w' ->
  exists ds ks,
    character_death (db w') = character_death (db w) ++ ds /\
    character_death_killer (db w') = character_death_killer (db w) ++ ks /\
    character_death_seq (db w) <= character_death_seq (db w') /\
    Forall2 (fun d k => exists t, In t l /\ d = death_row_of (d_id d) t /\
                                  k = killer_row_of (d_id d) t) ds ks /\
    Forall (fun d => character_death_seq (db w) <= d_id d < character_death_seq (db w') /\
                     exists t, In t l /\ d_date d = Some (death_date t)) ds /\
    StronglySorted death_before ds.
Proof.
  induction l as [|t l IH]; intros k w k' w' Hs H; simpl in H.
  - injection H as _ <-. exists [], []. rewrite !app_nil_r.
    repeat split; try constructor. lia.
  - apply bind_Ok in H. destruct H as (k1 & w1 & H1 & H2).
    inversion Hs as [|? ? Hs' Hle]; subst.
    destruct (IH _ _ _ _ Hs' H2) as (ds & ks & Ed & Ek & Hseq & HF2 & HF & Hsorted).
    assert (HF2' : Forall2 (fun d k0 => exists t0, In t0 (t :: l) /\
                                d = death_row_of (d_id d) t0 /\
                                k0 = killer_row_of (d_id d) t0) ds ks).
    { eapply Forall2_impl; [|exact HF2]. intros d k0 (t0 & Hin & E).
      exists t0. split; [now right | exact E]. }
    apply import_death_Ok_cases in H1.
    destruct H1 as [(E1 & E2 & E3)|(E1 & E2 & E3)].
    + exists ds, ks. rewrite Ed, Ek, E1, E2, <- E3.
      repeat split; auto.
      eapply Forall_impl; [|exact HF]. intros d (Hb & t0 & Hin & E).
      split; [lia|]. exists t0. split; [now right | exact E].
    + set (id := character_death_seq (db w)) in *.
      exists (death_row_of id t :: ds), (killer_row_of id t :: ks).
      rewrite Ed, Ek, E1, E2, <- !app_assoc. simpl.
      repeat split; try lia.
      * constructor; [|exact HF2']. exists t.
        rewrite death_row_of_id. split; [now left | split; reflexivity].
      * constructor.
        -- rewrite death_row_of_id. split; [lia|]. exists t.
           split; [now left | apply death_row_of_date].
        -- eapply Forall_impl; [|exact HF]. intros d (Hb & t0 & Hin & E).
           split; [lia|]. exists t0. split; [now right | exact E].
      * constructor; [exact Hsorted|].
        eapply Forall_impl; [|exact HF]. intros d (Hb & t0 & Hin & E).
        split; [rewrite death_row_of_id; lia|].
        exists (death_date t), (death_date t0). rewrite death_row_of_date.
        repeat split; [exact E|].
        rewrite Forall_forall in Hle. now apply Hle.
Qed.

Lemma import_levelups_rows l : forall k w k' w',
  StronglySorted (fun a b => levelup_date a <= levelup_date b) l ->
  for_ l import_levelup k w = Ok k' w' ->
  exists lus,
    character_levelup (db w') = character_levelup (db w) ++ lus /\
    character_levelup_seq (db w) <= character_levelup_seq (db w') /\
    Forall (fun r => character_levelup_seq (db w) <= lu_id r < character_levelup_seq (db w') /\
                     exists t, In t l /\ r = levelup_row_of (lu_id r) t) lus /\
    StronglySorted levelup_before lus.
Proof.
  induction l as [|t l IH]; intros k w k' w' Hs H; simpl in H.
  - injection H as _ <-. exists []. rewrite !app_nil_r.
    repeat split; try constructor. lia.
  - apply bind_Ok in H. destruct H as (k1 & w1 & H1 & H2).
    inversion Hs as [|? ? Hs' Hle]; subst.
    destruct (IH _ _ _ _ Hs' H2) as (lus & El & Hseq & HF & Hsorted).
    apply import_levelup_Ok_cases in H1.
    destruct H1 as [(E1 & E3)|(E1 & E3)].
    + exists lus. rewrite El, E1, <- E3.
      repeat split; auto.
      eapply Forall_impl; [|exact HF]. intros r (Hb & t0 & Hin & E).
      split; [lia|]. exists t0. split; [now right | exact E].
    + set (id := character_levelup_seq (db w)) in *.
      exists (levelup_row_of id t :: lus).
      rewrite El, E1, <- !app_assoc. simpl.
      repeat split; try lia.
      * constructor.
        -- rewrite levelup_row_of_id. split; [lia|]. exists t.
           split; [now left | reflexivity].
        -- eapply Forall_impl; [|exact HF]. intros r (Hb & t0 & Hin & E).
           split; [lia|]. exists t0. split; [now right | exact E].
      * constructor; [exact Hsorted|].
        eapply Forall_impl; [|exact HF]. intros r (Hb & t0 & Hin & E).
        split; [rewrite levelup_row_of_id; lia|].
        exists (levelup_date t), (levelup_date t0). rewrite levelup_row_of_date.
        repeat split; [rewrite E; apply levelup_row_of_date|].
        rewrite Forall_forall in Hle. now apply Hle.
Qed.

Lemma import_characters_first_loop_keeps c rows acc :
  steps (keeps (fun d => (character_death d, character_death_seq d,
                          character_death_killer d, character_levelup d,
                          character_levelup_seq d)))
        (for_ rows (import_character c) acc).
Proof.
  revert acc. apply steps_for; try apply keeps_refl; try apply keeps_trans.
  intros acc x. apply steps_import_character;
    try apply keeps_refl; try apply keeps_trans;
    intros; statement_cases; reflexivity.
Qed.

Lemma import_deaths_keep_levelups l k :
  steps (keeps (fun d => (character_levelup d, character_levelup_seq d)))
        (for_ l import_death k).
Proof.
  revert k. apply steps_for; try apply keeps_refl; try apply keeps_trans.
  intros k x. apply steps_import_death;
    try apply keeps_refl; try apply keeps_trans;
    intros; statement_cases; reflexivity.
Qed.

Lemma import_levelups_keep_deaths l k :
  steps (keeps (fun d => (character_death d, character_death_killer d)))
        (for_ l import_levelup k).
Proof.
  revert k. apply steps_for; try apply keeps_refl; try apply keeps_trans.
  intros k x. apply steps_import_levelup;
    try apply keeps_refl; try apply keeps_trans;
    intros; statement_cases; reflexivity.
Qed.

Lemma import_characters_collected c w w' :
  import_characters c w = Ok tt w' ->
  exists w1 k1 w2 w2' k2 w3,
    for_ (select_chars c) (import_character c) ([], []) w
    = Ok (collected_levelups c (resolved (db w')) (select_chars c),
          collected_deaths c (resolved (db w')) (select_chars c)) w1 /\
    for_ (sorted death_date (collected_deaths c (resolved (db w')) (select_chars c)))
         import_death 0%nat w1 = Ok k1 w2 /\
    db w2' = db w2 /\
    for_ (sorted levelup_date (collected_levelups c (resolved (db w')) (select_chars c)))
         import_levelup 0%nat w2' = Ok k2 w3 /\
    db w' = db w3.
Proof.
  intros H. pose proof H as H'. apply import_characters_Ok in H'.
  destruct H' as (lus & ds & w1 & k1 & w2 & w2' & k2 & w3 & H1 & H2 & E2 & H3 & E3).
  pose proof (@steps_Ok _ _ _ _ _ _ (grows_for_import_death _ _) H2) as G2.
  pose proof (@steps_Ok _ _ _ _ _ _ (grows_for_import_levelup _ _) H3) as G3.
  rewrite <- E2 in G2. rewrite <- E3 in G3.
  assert (G : grows (db w1) (db w')) by eauto using grows_trans.
  pose proof H1 as Hc. apply import_characters_collect in Hc.
  destruct Hc as (Hall & Hlu & Hd). simpl in Hlu, Hd. subst lus ds.
  assert (Hres : forall ch, In ch (select_chars c) ->
                   resolved (db w1) (lc_name ch) = resolved (db w') (lc_name ch)).
  { intros ch Hin. symmetry. apply grows_resolved; [exact G|]. now apply Hall. }
  rewrite (collected_deaths_ext_in c _ _ _ Hres) in H1, H2.
  rewrite (collected_levelups_ext_in c _ _ _ Hres) in H1, H3.
  exists w1, k1, w2, w2', k2, w3. auto.
Qed.

(** *** The death pass against its specification *)

Lemma StronglySorted_impl (A : Type) (R S : A -> A -> Prop) l :
  (forall a b, R a b -> S a b) -> StronglySorted R l -> StronglySorted S l.
Proof.
  intros HRS. induction 1 as [|x l Hl IH Hx]; constructor; [exact IH|].
  eapply Forall_impl; [|exact Hx]. intros a. apply HRS.
Qed.

Lemma existsb_eq (A : Type) (f g : A -> bool) l :
  (forall x, f x = g x) -> existsb f l = existsb g l.
Proof.
  intros H. induction l as [|x l IH]; simpl; [reflexivity|].
  now rewrite H, IH.
Qed.

Lemma import_death_Ok_spec k t w k' w' :
  import_death k t w = Ok k' w' ->
  deaths_spec (death_tables (db w), k) t = (death_tables (db w'), k').
Proof.
  destruct t as [[[[char_id level] date] killer] byplayer]. intros H.
  assert (Hd : utcfromtimestamp date = Some date)
    by (eapply import_death_date; eassumption).
  unfold deaths_spec, death_tables.
  rewrite (@existsb_eq _ _ (death_matches date char_id)).
  2:{ intros r. unfold death_matches. destruct (d_date r);
        [apply andb_comm | apply andb_false_r]. }
  destruct (death_present_dec (db w) char_id date) as [Hp|Hn].
  - rewrite import_death_duplicate in H by assumption.
    injection H as <- <-. apply death_present_existsb in Hp. rewrite Hp.
    reflexivity.
  - assert (E : existsb (death_matches date char_id) (character_death (db w)) = false).
    { destruct (existsb _ _) eqn:E; [|reflexivity].
      exfalso. apply Hn. now apply death_present_existsb. }
    rewrite E. rewrite import_death_new in H by assumption.
    apply bind_Ok in H. destruct H as (id & w1 & H1 & H2).
    apply bind_Ok in H2. destruct H2 as ([] & w2 & H2 & [= <- <-]).
    apply execute_Ok in H1. destruct H1 as (H1 & _).
    apply execute_Ok in H2. destruct H2 as (H2 & _).
    revert H1. unfold insert_death.
    repeat match goal with
           | |- context [if ?b then _ else _] => destruct b
           end; intros [= <- E1]; try discriminate.
    revert H2. unfold insert_killer. rewrite <- E1. cbn [tick db].
    destruct (negb _); intros [= <-]. reflexivity.
Qed.

Lemma import_deaths_spec l : forall k w k' w',
  for_ l import_death k w = Ok k' w' ->
  fold_left deaths_spec l (death_tables (db w), k) = (death_tables (db w'), k').
Proof.
  induction l as [|t l IH]; intros k w k' w' H; simpl in H.
  - injection H as <- <-. reflexivity.
  - apply bind_Ok in H. destruct H as (k1 & w1 & H1 & H2).
    cbn [fold_left]. rewrite (import_death_Ok_spec _ _ _ H1). now apply IH.
Qed.

Lemma import_levelups_keep_death_tables l k :
  steps (keeps death_tables) (for_ l import_levelup k).
Proof.
  revert k. apply steps_for; try apply keeps_refl; try apply keeps_trans.
  intros k x. apply steps_import_levelup;
    try apply keeps_refl; try apply keeps_trans;
    intros; statement_cases; reflexivity.
Qed.

Lemma import_characters_deaths_counted c w w' :
  import_characters c w = Ok tt w' ->
  exists skipped skipped_levelups,
    fold_left deaths_spec (deaths_of_run c (db w')) (death_tables (db w), 0%nat)
    = (death_tables (db w'), skipped) /\
    stdout w' = stdout w ++ reported SkippedDeaths skipped
                         ++ reported SkippedLevelUps skipped_levelups.
Proof.
  intros H. pose proof H as H'. apply import_characters_collected in H'.
  destruct H' as (w1 & k1 & w2 & _ & _ & _ & H1 & H2 & _).
  unfold import_characters in H. cbv zeta in H.
  erewrite bind_Ok_intro in H by exact H1. cbv iota beta in H.
  erewrite bind_Ok_intro in H by exact H2.
  destruct (report_Ok SkippedDeaths k1 w2) as (x & Hx & Ex & Ox).
  erewrite bind_Ok_intro in H by exact Hx.
  apply bind_Ok in H. destruct H as (k2 & w3 & H3 & Hp).
  destruct (report_Ok SkippedLevelUps k2 w3) as (y & Hy & Ey & Oy).
  rewrite Hp in Hy. injection Hy as <-.
  exists k1, k2. split.
  - pose proof (@steps_Ok _ _ _ _ _ _ (import_characters_first_loop_keeps c _ _) H1)
      as K1.
    pose proof (@steps_Ok _ _ _ _ _ _ (import_levelups_keep_death_tables _ _) H3)
      as K3.
    unfold keeps in K1, K3. injection K1 as A1 A2 A3 _ _.
    apply import_deaths_spec in H2. unfold deaths_of_run.
    unfold death_tables in H2, K3 |- *. rewrite <- A1, <- A2, <- A3, H2.
    rewrite Ey, K3, Ex. reflexivity.
  - apply import_characters_first_loop in H1. destruct H1 as (O1 & _).
    apply import_deaths_count in H2. destruct H2 as (O2 & _).
    apply import_levelups_count in H3. destruct H3 as (O3 & _).
    rewrite Oy, O3, Ox, O2, O1, <- app_assoc. reflexivity.
Qed.

(** C5: the death pass of [import_characters] is the pass of the
    specification.  It runs over the legacy deaths of all characters in
    the order of their timestamps; a death is skipped and counted
    exactly when its character has a death at that very timestamp by
    then; another is stored and followed by one killer row with the id of
    the death, a player's iff the legacy flag is 1; the count is what is
    printed.  With the constraint [UNIQUE(character_id, date)] holding
    before, every legacy death ends as exactly one row for its character
    and timestamp, so two deaths of one character at one timestamp give
    one row. *)
Theorem C5_death_dedup c w w' :
  import_characters c w = Ok tt w' ->
  (StronglySorted timestamps_ascend (deaths_of_run c (db w')) /\
   Permutation (collected_deaths c (resolved (db w')) (select_chars c))
               (deaths_of_run c (db w'))) /\
  (exists skipped skipped_levelups,
     fold_left deaths_spec (deaths_of_run c (db w')) (death_tables (db w), 0%nat)
     = (death_tables (db w'), skipped) /\
     stdout w' = stdout w ++ reported SkippedDeaths skipped
                          ++ reported SkippedLevelUps skipped_levelups) /\
  (unique_deaths (db w) ->
   forall ch ld,
     In ch (chars c) -> In ld (char_deaths c) -> ld_char_id ld = lc_id ch ->
     exists id,
       resolve (db w') (lc_name ch) = Some id /\
       List.length (filter (death_matches (ld_date ld) id)
                           (character_death (db w'))) = 1%nat).
Proof.
  intros H. split; [|split].
  - split; [|apply sorted_perm]. unfold deaths_of_run.
    eapply StronglySorted_impl; [|apply sorted_ascending].
    intros [[[[? ?] ?] ?] ?] [[[[? ?] ?] ?] ?] Hle. exact Hle.
  - now apply import_characters_deaths_counted.
  - intros Hu ch ld Hch Hld E.
    pose proof (@steps_Ok _ _ _ _ _ _ (unique_deaths_import_characters c) H Hu) as Hu'.
    assert (Himp : characters_imported c (db w'))
      by (eapply import_characters_post; [exact H | apply grows_refl]).
    destruct Himp as (Hall & Hd & _).
    assert (Hin : In ch (select_chars c)) by now apply in_sorted.
    destruct (Hall ch Hin) as (_ & Hr).
    destruct (resolve (db w') (lc_name ch)) as [id|] eqn:Hid; [|congruence].
    exists id. split; [reflexivity|].
    destruct (Hd _ (in_collected_deaths c (resolved (db w')) ch ld Hch Hld E))
      as (Hp & _).
    simpl in Hp. unfold resolved in Hp. rewrite Hid in Hp.
    apply death_present_existsb, existsb_exists in Hp.
    destruct Hp as (r & Hr1 & Hr2).
    assert (Hf : In r (filter (death_matches (ld_date ld) id)
                              (character_death (db w'))))
      by (apply filter_In; auto).
    specialize (Hu' id (ld_date ld)).
    destruct (filter _ _) as [|x [|y l]]; simpl in Hf, Hu' |- *;
      [tauto | reflexivity | lia].
Qed.

(** C9 (amended): [import_characters] handles no exception.  An insert
    that fails for a character, a death or a level-up raises out of the
    function at that record: what was written before it stays, the
    records after it are not processed, and after a failed death the
    level-up pass does not run.  A duplicate is no failure: it is
    counted and the pass goes on; every collected death and level-up is
    either stored or counted, and the two counts are printed. *)
Theorem C9_failure_aborts_duplicates_counted c w :
  (forall pre x post acc1 w1 e w2,
      select_chars c = pre ++ x :: post ->
      for_ pre (import_character c) ([], []) w = Ok acc1 w1 ->
      import_character c acc1 x w1 = Raised e w2 ->
      import_characters c w = Raised e w2 /\ grows (db w) (db w2)) /\
  (forall levelups deaths w1 pre x post k1 w2 e w3,
      for_ (select_chars c) (import_character c) ([], []) w
      = Ok (levelups, deaths) w1 ->
      sorted death_date deaths = pre ++ x :: post ->
      for_ pre import_death 0%nat w1 = Ok k1 w2 ->
      import_death k1 x w2 = Raised e w3 ->
      import_characters c w = Raised e w3 /\ grows (db w) (db w3) /\
      character_levelup (db w3) = character_levelup (db w)) /\
  (forall levelups deaths w1 k1 w2 w2' pre x post k2 w3 e w4,
      for_ (select_chars c) (import_character c) ([], []) w
      = Ok (levelups, deaths) w1 ->
      for_ (sorted death_date deaths) import_death 0%nat w1 = Ok k1 w2 ->
      (if (0 <? k1)%nat then print (SkippedDeaths k1) else ret tt) w2 = Ok tt w2' ->
      sorted levelup_date levelups = pre ++ x :: post ->
      for_ pre import_levelup 0%nat w2' = Ok k2 w3 ->
      import_levelup k2 x w3 = Raised e w4 ->
      import_characters c w = Raised e w4 /\ grows (db w) (db w4)) /\
  (forall k char_id level date killer byplayer w0,
      utcfromtimestamp date = Some date ->
      death_present (db w0) char_id date ->
      import_death k (char_id, level, date, killer, byplayer) w0
      = Ok (S k) (tick w0)) /\
  (forall k char_id level date w0,
      utcfromtimestamp date = Some date ->
      levelup_near (db w0) char_id date ->
      import_levelup k (char_id, level, date) w0 = Ok (S k) (tick w0)) /\
  (forall w',
      import_characters c w = Ok tt w' ->
      exists k1 k2,
        stdout w' =
          stdout w ++ reported SkippedDeaths k1 ++ reported SkippedLevelUps k2 /\
        (k1 + List.length (character_death (db w')) =
         List.length (character_death (db w)) +
         List.length (collected_deaths c (fun _ => 0%Z) (select_chars c)))%nat /\
        (k2 + List.length (character_levelup (db w')) =
         List.length (character_levelup (db w)) +
         List.length (collected_levelups c (fun _ => 0%Z) (select_chars c)))%nat).
Proof.
  assert (G : forall e w', import_characters c w = Raised e w' ->
                           grows (db w) (db w')).
  { intros e w' E. pose proof (grows_import_characters c w) as Hg.
    now rewrite E in Hg. }
  split; [|split; [|split; [|split; [|split]]]].
  - intros pre x post acc1 w1 e w2 Hrows Hpre Hx.
    assert (E : import_characters c w = Raised e w2).
    { unfold import_characters. cbv zeta. rewrite Hrows.
      apply bind_Raised_intro. eapply for_raises; eassumption. }
    split; [exact E | exact (G _ _ E)].
  - intros levelups deaths w1 pre x post k1 w2 e w3 H1 Hs Hpre Hx.
    assert (E : import_characters c w = Raised e w3).
    { unfold import_characters. cbv zeta.
      erewrite bind_Ok_intro by exact H1. cbv iota beta. rewrite Hs.
      apply bind_Raised_intro. eapply for_raises; eassumption. }
    split; [exact E|]. split; [exact (G _ _ E)|].
    pose proof (@steps_Ok _ _ _ _ _ _ (import_characters_first_loop_keeps c _ _) H1)
      as K1.
    pose proof (@steps_Ok _ _ _ _ _ _ (import_deaths_keep_levelups _ _) Hpre) as K2.
    pose proof (import_deaths_keep_levelups [x] k1 w2) as K3.
    simpl in K3. erewrite bind_Raised_intro in K3 by exact Hx.
    unfold keeps in K1, K2, K3. simpl in K3.
    injection K1 as _ _ _ A _. injection K2 as B _. injection K3 as C _.
    congruence.
  - intros levelups deaths w1 k1 w2 w2' pre x post k2 w3 e w4 H1 H2 Hp Hs Hpre Hx.
    assert (E : import_characters c w = Raised e w4).
    { unfold import_characters. cbv zeta.
      erewrite bind_Ok_intro by exact H1. cbv iota beta.
      erewrite bind_Ok_intro by exact H2.
      erewrite bind_Ok_intro by exact Hp. rewrite Hs.
      apply bind_Raised_intro. eapply for_raises; eassumption. }
    split; [exact E | exact (G _ _ E)].
  - intros. now apply import_death_duplicate.
  - intros. now apply import_levelup_duplicate.
  - exact (import_characters_report c w).
Qed.

(** X13: the deaths a run of [import_characters] adds are appended in the
    order of their timestamps, with ascending ids, and each comes with
    exactly one killer row, at the same place among the new killer rows:
    both are built from one collected legacy death, the killer row has
    the id of the death row and position 0. *)
Theorem X13_deaths_written_in_time_order c w w' :
  import_characters c w = Ok tt w' ->
  exists ds ks,
    character_death (db w') = character_death (db w) ++ ds /\
    character_death_killer (db w') = character_death_killer (db w) ++ ks /\
    Forall2 (fun d k => exists t,
               In t (collected_deaths c (resolved (db w')) (select_chars c)) /\
               d = death_row_of (d_id d) t /\ k = killer_row_of (d_id d) t) ds ks /\
    StronglySorted death_before ds.
Proof.
  intros H. apply import_characters_collected in H.
  destruct H as (w1 & k1 & w2 & w2' & k2 & w3 & H1 & H2 & E2 & H3 & E3).
  pose proof (@steps_Ok _ _ _ _ _ _ (import_characters_first_loop_keeps c _ _) H1) as K1.
  pose proof (@steps_Ok _ _ _ _ _ _ (import_levelups_keep_deaths _ _) H3) as K3.
  unfold keeps in K1, K3. injection K1 as A1 A2 A3 _ _. injection K3 as B1 B2.
  destruct (@import_deaths_rows _ _ _ _ _ (sorted_ascending death_date _) H2)
    as (ds & ks & Ed & Ek & _ & HF2 & _ & Hs).
  exists ds, ks.
  split; [rewrite E3, B1, E2, Ed, A1; reflexivity|].
  split; [rewrite E3, B2, E2, Ek, A3; reflexivity|].
  split; [|exact Hs].
  eapply Forall2_impl; [|exact HF2]. intros d k0 (t & Hin & E).
  exists t. split; [|exact E]. now apply -> (in_sorted death_date).
Qed.

(** X14: the level-ups a run of [import_characters] adds are appended in
    the order of their timestamps, with ascending ids, and each is built
    from a collected legacy level-up. *)
Theorem X14_levelups_written_in_time_order c w w' :
  import_characters c w = Ok tt w' ->
  exists lus,
    character_levelup (db w') = character_levelup (db w) ++ lus /\
    Forall (fun r => exists t,
              In t (collected_levelups c (resolved (db w')) (select_chars c)) /\
              r = levelup_row_of (lu_id r) t) lus /\
    StronglySorted levelup_before lus.
Proof.
  intros H. apply import_characters_collected in H.
  destruct H as (w1 & k1 & w2 & w2' & k2 & w3 & H1 & H2 & E2 & H3 & E3).
  pose proof (@steps_Ok _ _ _ _ _ _ (import_characters_first_loop_keeps c _ _) H1) as K1.
  pose proof (@steps_Ok _ _ _ _ _ _ (import_deaths_keep_levelups _ _) H2) as K2.
  unfold keeps in K1, K2. injection K1 as _ _ _ A4 _. injection K2 as B1 _.
  destruct (@import_levelups_rows _ _ _ _ _ (sorted_ascending levelup_date _) H3)
    as (lus & El & _ & HF & Hs).
  exists lus.
  split; [rewrite E3, El, E2, B1, A4; reflexivity|].
  split; [|exact Hs].
  eapply Forall_impl; [|exact HF]. intros r (_ & t & Hin & E).
  exists t. split; [|exact E]. now apply -> (in_sorted levelup_date).
Qed.

(** *** Level-ups of one character stay more than 15 seconds apart *)

Lemma ForallOrdPairs_snoc (A : Type) (P : A -> A -> Prop) l x :
  ForallOrdPairs P l -> Forall (fun a => P a x) l -> ForallOrdPairs P (l ++ [x]).
Proof.
  induction 1 as [|a l Ha Hl IH]; intros HF; simpl.
  - repeat constructor.
  - inversion HF; subst. constructor; [|auto].
    apply Forall_app. split; [exact Ha | now constructor].
Qed.

Lemma levelups_spaced_import_levelup k t :
  steps (fun d d' => levelups_spaced d -> levelups_spaced d') (import_levelup k t).
Proof.
  destruct t as [[char_id level] date]. intros w. unfold import_levelup.
  destruct (utcfromtimestamp date) as [t|] eqn:Hd; [|simpl; auto].
  apply utcfromtimestamp_Some in Hd. subst t.
  unfold select_levelup, bind. rewrite execute_query.
  destruct (find (levelup_matches char_id date) (character_levelup (db w))) eqn:Ef;
    cbn [option_map]; [simpl; auto|].
  unfold execute, insert_levelup. cbn [db stmts stdout].
  repeat match goal with
         | |- context [if ?b then _ else _] => destruct b
         end; cbn [after db]; try (intros Hs; exact Hs).
  intros Hs. unfold levelups_spaced. simpl.
  apply ForallOrdPairs_snoc; [exact Hs|].
  apply Forall_forall. intros r Hin Hc x y Hx Hy. simpl in Hc, Hy.
  injection Hy as <-.
  pose proof (find_none _ _ Ef _ Hin) as Hm. unfold levelup_matches in Hm.
  rewrite Hc, Z.eqb_refl, Hx in Hm. simpl in Hm.
  apply Z.leb_gt in Hm. lia.
Qed.

Lemma steps_import_characters_loops (R : Db -> Db -> Prop) c :
  (forall d, R d d) -> (forall d1 d2 d3, R d1 d2 -> R d2 d3 -> R d1 d3) ->
  (forall acc row, steps R (import_character c acc row)) ->
  (forall k t, steps R (import_death k t)) ->
  (forall k t, steps R (import_levelup k t)) ->
  steps R (import_characters c).
Proof.
  intros Hr Ht H1 H2 H3. unfold import_characters.
  apply steps_bind; [exact Ht | apply steps_for; assumption | intros [lus ds]].
  apply steps_bind; [exact Ht | apply steps_for; assumption | intros k1].
  apply steps_bind; [exact Ht | | intros _].
  { destruct (0 <? k1)%nat; [apply steps_print | apply steps_ret]; exact Hr. }
  apply steps_bind; [exact Ht | apply steps_for; assumption | intros k2].
  destruct (0 <? k2)%nat; [apply steps_print | apply steps_ret]; exact Hr.
Qed.

(** X15: a migration never puts two level-ups of one character within 15
    seconds of each other: if the level-ups of the store are that far
    apart before [import_legacy_db], they are afterwards, whether it
    returns or raises. *)
Theorem X15_levelups_stay_spaced c w :
  levelups_spaced (db w) -> levelups_spaced (db (after (import_legacy_db c w))).
Proof.
  revert w.
  change (steps (fun d d' => levelups_spaced d -> levelups_spaced d')
                (import_legacy_db c)).
  apply steps_import_legacy_db; [now auto| | | |].
  - apply steps_import_characters_loops; [now auto | now auto | | |].
    + intros acc row. apply steps_import_character; [now auto | now auto|].
      intros; statement_cases; intros Hs; exact Hs.
    + intros k t. apply steps_import_death; [now auto | now auto | |];
        intros; statement_cases; intros Hs; exact Hs.
    + apply levelups_spaced_import_levelup.
  - apply steps_import_server_properties; [now auto | now auto | |];
      intros; statement_cases; intros Hs; exact Hs.
  - apply steps_import_roles; [now auto | now auto | |];
      intros; statement_cases; intros Hs; exact Hs.
  - apply steps_import_events; [now auto | now auto | | |];
      intros; statement_cases; intros Hs; exact Hs.
Qed.

(** *** Legacy characters that share a name *)

Lemma find_name_grow rows rows' n r :
  chars_grow rows rows' ->
  find (fun x => (ch_name x =? n)%string) rows = Some r ->
  exists r', find (fun x => (ch_name x =? n)%string) rows' = Some r' /\
             unchanged_except_modified r r'.
Proof.
  intros (olds & news & -> & HF). revert r.
  induction HF as [|x y rows olds Hxy _ IH]; intros r; simpl; [discriminate|].
  pose proof Hxy as (_ & _ & Hname & _). rewrite Hname.
  destruct (ch_name x =? n)%string.
  - intros [= <-]. eauto.
  - apply IH.
Qed.

Lemma import_character_other_name c acc ch w acc' w' n :
  import_character c acc ch w = Ok acc' w' ->
  lc_name ch <> n -> resolve (db w) n = None -> resolve (db w') n = None.
Proof.
  unfold import_character. intros H Hn Hr.
  apply bind_Ok in H. destruct H as (id & w1 & H1 & [= _ <-]).
  apply execute_Ok in H1. destruct H1 as (H1 & _).
  revert H1. unfold upsert_character.
  destruct (negb (int2 (lc_level ch))); [discriminate|].
  destruct (find _ (character (db w))) as [old|] eqn:E.
  - intros [= _ <-]. unfold resolve. simpl. now rewrite name_id_touch.
  - destruct (existsb _ (character (db w))); [discriminate|].
    intros [= _ <-]. unfold resolve, name_id in Hr |- *. simpl.
    destruct (find (fun r => (ch_name r =? n)%string) (character (db w))) eqn:En;
      [discriminate|].
    erewrite find_app_r by exact En. simpl.
    apply String.eqb_neq in Hn. now rewrite Hn.
Qed.

Lemma import_characters_other_names c n rows : forall acc w acc' w',
  for_ rows (import_character c) acc w = Ok acc' w' ->
  (forall ch, In ch rows -> lc_name ch <> n) ->
  resolve (db w) n = None -> resolve (db w') n = None.
Proof.
  induction rows as [|ch rows IH]; intros acc w acc' w' H Hn Hr; simpl in H.
  - now injection H as _ <-.
  - apply bind_Ok in H. destruct H as (acc1 & w1 & H1 & H2).
    eapply IH; [exact H2 | intros ch' Hin; apply Hn; now right|].
    eapply import_character_other_name; [exact H1 | apply Hn; now left | exact Hr].
Qed.

Lemma import_character_new_name c acc ch w acc' w' :
  import_character c acc ch w = Ok acc' w' ->
  resolve (db w) (lc_name ch) = None ->
  exists r,
    find (fun x => (ch_name x =? lc_name ch)%string) (character (db w')) = Some r /\
    ch_user_id r = lc_user_id ch /\ ch_level r = Some (lc_level ch) /\
    ch_vocation r = lc_vocation ch /\ ch_world r = lc_world ch /\
    ch_guild r = lc_guild ch.
Proof.
  unfold import_character. intros H Hr.
  apply bind_Ok in H. destruct H as (id & w1 & H1 & [= _ <-]).
  apply execute_Ok in H1. destruct H1 as (H1 & _).
  revert H1. unfold upsert_character.
  destruct (negb (int2 (lc_level ch))); [discriminate|].
  unfold resolve, name_id in Hr.
  destruct (find _ (character (db w))) as [old|] eqn:E; [discriminate|].
  destruct (existsb _ (character (db w))); [discriminate|].
  intros [= _ <-]. simpl. erewrite find_app_r by exact E. simpl.
  rewrite String.eqb_refl. eexists. split; [reflexivity|]. simpl. auto.
Qed.

(** X16: when several legacy characters have one name, the character row
    holds the data of the first one in the order of the legacy ids:
    later ones with that name change nothing but [modified].  Here [ch]
    is the first character of its name the loop meets, and the store had
    no row of that name. *)
Theorem X16_first_character_of_a_name_is_kept c w w' pre ch post :
  import_characters c w = Ok tt w' ->
  select_chars c = pre ++ ch :: post ->
  (forall ch0, In ch0 pre -> lc_name ch0 <> lc_name ch) ->
  resolve (db w) (lc_name ch) = None ->
  exists r,
    find (fun x => (ch_name x =? lc_name ch)%string) (character (db w')) = Some r /\
    ch_user_id r = lc_user_id ch /\ ch_level r = Some (lc_level ch) /\
    ch_vocation r = lc_vocation ch /\ ch_world r = lc_world ch /\
    ch_guild r = lc_guild ch.
Proof.
  intros H Hsplit Hpre Hr. apply import_characters_Ok in H.
  destruct H as (lus & ds & w1 & k1 & w2 & w2' & k2 & w3 & H1 & H2 & E2 & H3 & E3).
  pose proof (@steps_Ok _ _ _ _ _ _ (grows_for_import_death _ _) H2) as G2.
  pose proof (@steps_Ok _ _ _ _ _ _ (grows_for_import_levelup _ _) H3) as G3.
  rewrite <- E2 in G2. rewrite <- E3 in G3.
  rewrite Hsplit, for_app in H1.
  apply bind_Ok in H1. destruct H1 as (acca & wa & Ha & H1). simpl in H1.
  apply bind_Ok in H1. destruct H1 as (accb & wb & Hb & H1).
  pose proof (@steps_Ok _ _ _ _ _ _ (grows_for_import_character c _ _) H1) as G1.
  assert (G : grows (db wb) (db w')) by eauto using grows_trans.
  assert (Hra : resolve (db wa) (lc_name ch) = None)
    by (eapply import_characters_other_names; eassumption).
  destruct (@import_character_new_name _ _ _ _ _ _ Hb Hra)
    as (r & Hf & Hu & Hl & Hv & Hw & Hg).
  destruct G as (Gc & _).
  destruct (@find_name_grow _ _ _ _ Gc Hf) as (r' & Hf' & Hun).
  exists r'. split; [exact Hf'|].
  destruct Hun as (_ & U1 & _ & U2 & U3 & U4 & U5 & _).
  repeat split; congruence.
Qed.

(** *** Settings and roles on a second run *)

Lemma setting_present_extends d d' row :
  extends (server_property d) (server_property d') ->
  extends (server_prefixes d) (server_prefixes d') ->
  setting_present d row = true -> setting_present d' row = true.
Proof.
  unfold setting_present. intros (n1 & ->) (n2 & ->).
  destruct (lp_name row =? "prefixes")%string; rewrite existsb_app;
    intros ->; reflexivity.
Qed.

Lemma import_server_property_present row w w' :
  import_server_property tt row w = Ok tt w' ->
  setting_present (db w') row = true.
Proof.
  unfold setting_present.
  destruct (String.eqb_spec (lp_name row) "prefixes") as [Hk|Hk].
  - unfold import_server_property. cbv zeta. rewrite Hk, String.eqb_refl.
    intros H. apply bind_Ok in H. destruct H as (j & w1 & H1 & H).
    pose proof (loads_after (lp_value row) w) as A1. rewrite H1 in A1.
    simpl in A1. subst w1.
    apply bind_Ok in H. destruct H as (p & w1 & H2 & H).
    pose proof (text_array_after j w) as A2. rewrite H2 in A2.
    simpl in A2. subst w1.
    apply execute_Ok in H. destruct H as (H & _). revert H.
    unfold insert_server_prefixes. destruct p as [p|]; [|discriminate].
    destruct (existsb _ (server_prefixes (db w))) eqn:E; intros [= <-].
    + exact E.
    + simpl. rewrite existsb_app. simpl. rewrite Z.eqb_refl.
      now rewrite orb_true_r.
  - rewrite import_server_property_other by exact Hk.
    destruct (property_document row) as [|j]; [discriminate|].
    intros H. apply execute_Ok in H. destruct H as (H & _).
    destruct (insert_server_property_cases (lp_server_id row) (lp_name row) j
                (clock (stmts w)) (db w)) as [(E & Hq)|(E & Hq)];
      rewrite Hq in H; injection H as <-.
    + exact E.
    + simpl. rewrite existsb_app. simpl. unfold same_property at 2. simpl.
      rewrite Z.eqb_refl, String.eqb_refl. now rewrite orb_true_r.
Qed.

Lemma import_server_properties_present l : forall w w',
  for_ l import_server_property tt w = Ok tt w' ->
  forall row, In row l -> setting_present (db w') row = true.
Proof.
  induction l as [|x l IH]; intros w w' H row Hin; [destruct Hin|].
  simpl in H. apply bind_Ok in H. destruct H as ([] & w1 & H1 & H2).
  destruct Hin as [<-|Hin]; [|eapply IH; eassumption].
  apply import_server_property_present in H1.
  assert (G : grows (db w1) (db w')).
  { change (for_ l import_server_property tt)
      with (import_server_properties (legacy_properties l)) in H2.
    exact (@steps_Ok _ _ _ _ _ _ (grows_import_server_properties _) H2). }
  destruct G as (_ & _ & _ & _ & _ & _ & _ & G1 & G2).
  eapply setting_present_extends; eassumption.
Qed.

Lemma import_server_property_skips row w :
  setting_present (db w) row = true ->
  db (after (import_server_property tt row w)) = db w.
Proof.
  unfold setting_present.
  destruct (String.eqb_spec (lp_name row) "prefixes") as [Hk|Hk]; intros Hp.
  - unfold import_server_property. cbv zeta. rewrite Hk, String.eqb_refl.
    rewrite after_bind.
    pose proof (loads_after (lp_value row) w) as A1.
    destruct (loads (lp_value row) w) as [j w0|e w0]; simpl in A1; subst w0;
      [|reflexivity].
    rewrite after_bind.
    pose proof (text_array_after j w) as A2.
    destruct (text_array j w) as [p w0|e w0]; simpl in A2; subst w0;
      [|reflexivity].
    unfold execute, insert_server_prefixes. destruct p as [p|]; [|reflexivity].
    rewrite Hp. reflexivity.
  - rewrite import_server_property_other by exact Hk.
    destruct (property_document row) as [|j]; [reflexivity|].
    unfold execute, insert_server_property. unfold same_property in Hp.
    rewrite Hp. reflexivity.
Qed.

Lemma import_server_properties_skip l : forall w,
  (forall row, In row l -> setting_present (db w) row = true) ->
  db (after (for_ l import_server_property tt w)) = db w.
Proof.
  induction l as [|x l IH]; intros w Hall; [reflexivity|].
  simpl. rewrite after_bind.
  pose proof (@import_server_property_skips x w (Hall x (or_introl eq_refl))) as Hx.
  destruct (import_server_property tt x w) as [[] w1|e w1]; simpl in Hx;
    [|exact Hx].
  rewrite IH; [exact Hx|].
  intros row Hin. unfold setting_present. rewrite Hx.
  apply Hall. now right.
Qed.

(** X17: once a migration has returned, a second one over the same
    legacy store leaves the server properties, the prefixes and both role
    tables exactly as they are, however far it gets. *)
Theorem X17_second_run_keeps_settings c w w1 :
  import_legacy_db c w = Ok tt w1 ->
  settings_tables (db (after (import_legacy_db c w1))) = settings_tables (db w1).
Proof.
  intros H. unfold import_legacy_db in H.
  apply bind_Ok in H. destruct H as ([] & wa & Ha & H).
  apply bind_Ok in H. destruct H as ([] & wb & Hb & H).
  apply bind_Ok in H. destruct H as ([] & wc & Hc & Hd).
  (* what the first run left behind *)
  pose proof (@import_server_properties_present _ _ _ Hb) as Pb.
  pose proof (import_roles_beside c wb) as Kc. rewrite Hc in Kc.
  pose proof (import_events_beside c wc) as Kd. rewrite Hd in Kd.
  unfold keeps, beside_roles, beside_events in Kc, Kd. simpl in Kc, Kd.
  injection Kc as _ _ _ _ _ _ _ _ _ _ _ C1 C2.
  injection Kd as _ _ _ _ _ _ _ D1 D2 D3 D4.
  destruct (@import_roles_Ok _ _ _ Hc) as (Na & Nj & I1 & I2).
  (* the second run *)
  unfold import_legacy_db. rewrite after_bind.
  pose proof (import_characters_beside c w1) as K1.
  unfold keeps, beside_characters in K1.
  destruct (import_characters c w1) as [[] w2|e w2]; simpl in K1;
    injection K1 as _ _ _ _ A1 A2 A3 A4;
    [|unfold settings_tables; congruence].
  rewrite after_bind.
  assert (P2 : forall row, In row (server_properties c) ->
                           setting_present (db w2) row = true).
  { intros row Hin. unfold setting_present. rewrite A1, A2, D1, D2, C1, C2.
    now apply Pb. }
  pose proof (@import_server_properties_skip _ _ P2) as K2.
  fold (import_server_properties c) in K2.
  destruct (import_server_properties c w2) as [[] w3|e w3]; simpl in K2;
    [|unfold settings_tables; congruence].
  rewrite after_bind.
  pose proof (import_roles_beside c w3) as K3.
  unfold keeps, beside_roles in K3.
  destruct (@import_roles_again c w3 Na Nj) as (w5 & R5 & T1 & T2).
  { intros r y Hr Hy. rewrite K2, A3, D3. now apply (I1 r). }
  { intros r y Hr Hy. rewrite K2, A4, D4. now apply (I2 r). }
  rewrite R5 in K3 |- *. simpl in K3.
  injection K3 as _ _ _ _ _ _ _ _ _ _ _ B1 B2.
  pose proof (import_events_beside c w5) as K4.
  unfold keeps, beside_events in K4.
  injection K4 as _ _ _ _ _ _ _ G1 G2 G3 G4.
  unfold settings_tables. congruence.
Qed.

End Importers.

(* ------------------------------------------------------------------ *)
(** ** The schema manager *)

Section SchemaManager.
Variable jsonb_encoder : Z -> exn + json.
Variable version_le_0 : json -> exn + bool.

Lemma has_app n l1 l2 : Schema.has n (l1 ++ l2) = Schema.has n l1 || Schema.has n l2.
Proof. apply existsb_app. Qed.

Lemma has_trigger_app n t l1 l2 :
  Schema.has_trigger n t (l1 ++ l2)
  = Schema.has_trigger n t l1 || Schema.has_trigger n t l2.
Proof. apply existsb_app. Qed.

Lemma has_one n m : Schema.has n [m] = (n =? m)%string.
Proof. unfold Schema.has. simpl. apply orb_false_r. Qed.

Lemma onto_empty K : Schema.onto K Schema.empty_catalog = K.
Proof.
  destruct K. unfold Schema.onto. simpl. now rewrite !app_nil_r.
Qed.

(** *** A statement that runs on its own objects runs next to others *)

Lemma execute_onto K q D D' :
  Schema.absent K q = true ->
  Schema.execute q D = (inr tt, D') ->
  Schema.execute q (Schema.onto K D) = (inr tt, Schema.onto K D').
Proof.
  destruct q as [name refs|name|name table proc]; simpl; intros Hk.
  - apply negb_true_iff in Hk.
    destruct (Schema.has name (Schema.pg_class D)) eqn:E1; [discriminate|].
    destruct (forallb _ refs) eqn:E2; simpl; [|discriminate].
    intros [= <-]. rewrite has_app, Hk, E1. simpl.
    assert (E3 : forallb (fun r => Schema.has r (Schema.pg_class K ++ Schema.pg_class D))
                         refs = true).
    { rewrite forallb_forall in E2 |- *. intros r Hr.
      rewrite has_app, (E2 r Hr). apply orb_true_r. }
    rewrite E3. simpl. unfold Schema.onto. simpl.
    rewrite app_assoc, has_app, has_one. f_equal. f_equal.
    rewrite (String.eqb_sym name).
    destruct ("global_property" =? name)%string;
      destruct (Schema.has "global_property" (Schema.pg_class D)); reflexivity.
  - apply negb_true_iff in Hk.
    destruct (Schema.has name (Schema.pg_proc D)) eqn:E1; [discriminate|].
    intros [= <-]. rewrite has_app, Hk, E1. simpl.
    unfold Schema.onto. simpl. now rewrite app_assoc.
  - apply negb_true_iff in Hk.
    destruct (Schema.has table (Schema.pg_class D)) eqn:E1; simpl; [|discriminate].
    destruct (Schema.has proc (Schema.pg_proc D)) eqn:E2; simpl; [|discriminate].
    destruct (Schema.has_trigger name table (Schema.pg_trigger D)) eqn:E3;
      [discriminate|].
    intros [= <-]. rewrite !has_app, has_trigger_app, Hk, E1, E2, E3, !orb_true_r.
    simpl. unfold Schema.onto. simpl. now rewrite app_assoc.
Qed.

Lemma await_inr (A B : Type) (m : Schema.run A) (k : A -> Schema.run B) K a K1 :
  m K = (inr a, K1) -> Schema.await m k K = k a K1.
Proof. unfold Schema.await. intros ->. reflexivity. Qed.

Lemma await_inl (A B : Type) (m : Schema.run A) (k : A -> Schema.run B) K e K1 :
  m K = (inl e, K1) -> Schema.await m k K = (inl e, K1).
Proof. unfold Schema.await. intros ->. reflexivity. Qed.

Lemma for_each_onto K l : forall D D',
  forallb (Schema.absent K) l = true ->
  Schema.for_each l Schema.execute D = (inr tt, D') ->
  Schema.for_each l Schema.execute (Schema.onto K D) = (inr tt, Schema.onto K D').
Proof.
  induction l as [|q l IH]; intros D D' Hl H; simpl in H |- *.
  - injection H as <-. reflexivity.
  - simpl in Hl. apply andb_true_iff in Hl. destruct Hl as (Hq & Hl).
    unfold Schema.await in H.
    destruct (Schema.execute q D) as [[e|[]] D1] eqn:E; [discriminate|].
    erewrite await_inr by (apply execute_onto; eassumption).
    now apply IH.
Qed.

(** The lists are in the order of their dependencies: on a catalog that
    has none of the objects, every statement of [create_database] before
    [set_version] is accepted. *)
Lemma create_objects_fresh K :
  Schema.fresh K = true ->
  exists K1 K2,
    Schema.for_each Schema.tables Schema.execute K = (inr tt, K1) /\
    Schema.for_each Schema.functions Schema.execute K1 = (inr tt, K2) /\
    Schema.for_each Schema.triggers Schema.execute K2
    = (inr tt, Schema.onto K (Schema.schema [])).
Proof.
  unfold Schema.fresh. rewrite !forallb_app, !andb_true_iff.
  intros (H1 & H2 & H3).
  set (T1 := {| Schema.pg_class := Schema.pg_class (Schema.schema []);
                Schema.pg_proc := []; Schema.pg_trigger := [];
                Schema.global_property := [] |}).
  set (T2 := {| Schema.pg_class := Schema.pg_class (Schema.schema []);
                Schema.pg_proc := Schema.pg_proc (Schema.schema []);
                Schema.pg_trigger := []; Schema.global_property := [] |}).
  assert (E1 : Schema.for_each Schema.tables Schema.execute Schema.empty_catalog
               = (inr tt, T1)) by (vm_compute; reflexivity).
  assert (E2 : Schema.for_each Schema.functions Schema.execute T1 = (inr tt, T2))
    by (vm_compute; reflexivity).
  assert (E3 : Schema.for_each Schema.triggers Schema.execute T2
               = (inr tt, Schema.schema [])) by (vm_compute; reflexivity).
  exists (Schema.onto K T1), (Schema.onto K T2).
  pose proof (@for_each_onto K _ _ _ H1 E1) as P1. rewrite onto_empty in P1.
  split; [exact P1|].
  split; apply for_each_onto; assumption.
Qed.

Lemma create_database_fresh K :
  Schema.fresh K = true ->
  Schema.create_database jsonb_encoder K
  = Schema.set_version jsonb_encoder 1 (Schema.onto K (Schema.schema [])).
Proof.
  intros H. destruct (create_objects_fresh K H) as (K1 & K2 & H1 & H2 & H3).
  unfold Schema.create_database.
  erewrite await_inr by exact H1. erewrite await_inr by exact H2.
  erewrite await_inr by exact H3. reflexivity.
Qed.

Lemma fresh_global_property K :
  Schema.fresh K = true -> Schema.has "global_property" (Schema.pg_class K) = false.
Proof.
  unfold Schema.fresh. rewrite forallb_forall. intros H.
  apply negb_true_iff.
  apply (H (Schema.CreateTable "global_property" [])).
  apply in_or_app. left. simpl. intuition.
Qed.

Lemma get_version_eq K :
  Schema.get_version K =
  (inr (if Schema.has "global_property" (Schema.pg_class K)
        then Schema.Fetched (Schema.db_version K) else Schema.Int 0), K).
Proof.
  unfold Schema.get_version, Schema.fetch_version.
  destruct (Schema.has "global_property" (Schema.pg_class K)); reflexivity.
Qed.

Lemma has_global_property_schema K rows :
  Schema.has "global_property" (Schema.pg_class (Schema.onto K (Schema.schema rows)))
  = true.
Proof. simpl. rewrite has_app. apply orb_true_r. Qed.

Lemma set_version_schema K rows v :
  Schema.set_version jsonb_encoder v (Schema.onto K (Schema.schema rows)) =
  match jsonb_encoder v with
  | inl e => (inl (Schema.Python e), Schema.onto K (Schema.schema rows))
  | inr j =>
      (inr tt,
       Schema.onto K
         (Schema.schema
            (if existsb (fun r => (fst r =? "db_version")%string) rows
             then map (fun r => if (fst r =? "db_version")%string
                                then (fst r, Some j) else r) rows
             else rows ++ [("db_version"%string, Some j)])))
  end.
Proof.
  unfold Schema.set_version. rewrite has_global_property_schema. simpl.
  destruct (jsonb_encoder v); reflexivity.
Qed.

(** X18: on a database that has none of the tables, functions and
    triggers of the lists, [check_database] creates them all, in the
    order of the lists, and stores the version, provided the connection
    encodes the int 1 for [jsonb]; if the stored version then reads as
    positive, a second [check_database] changes nothing. *)
Theorem X18_fresh_install K j :
  Schema.fresh K = true ->
  jsonb_encoder 1 = inr j ->
  version_le_0 j = inr false ->
  Schema.check_database jsonb_encoder version_le_0 K
  = (inr tt, Schema.onto K (Schema.schema [("db_version"%string, Some j)])) /\
  Schema.check_database jsonb_encoder version_le_0
    (Schema.onto K (Schema.schema [("db_version"%string, Some j)]))
  = (inr tt, Schema.onto K (Schema.schema [("db_version"%string, Some j)])).
Proof.
  intros Hf Hj Hle. split.
  - unfold Schema.check_database.
    erewrite await_inr by apply get_version_eq.
    rewrite (fresh_global_property K Hf).
    rewrite (@await_inr _ _ _ _ K true K) by reflexivity.
    rewrite (@await_inr _ _ _ _ K tt
               (Schema.onto K (Schema.schema [("db_version"%string, Some j)]))).
    + rewrite set_version_schema, Hj. reflexivity.
    + rewrite create_database_fresh by exact Hf.
      rewrite set_version_schema, Hj. reflexivity.
  - unfold Schema.check_database.
    erewrite await_inr by apply get_version_eq.
    rewrite has_global_property_schema.
    assert (E : Schema.db_version
                  (Schema.onto K (Schema.schema [("db_version"%string, Some j)]))
                = Some j) by reflexivity.
    rewrite E. simpl Schema.le_0. rewrite Hle. reflexivity.
Qed.

(** X19: when the connection's codec refuses an int (as asyncpg's own
    text codec for [jsonb] does), [check_database] on a database without
    the objects of the lists creates all of them and then raises at
    [set_version], leaving no version row; every later [check_database]
    raises [TypeError] at [None <= 0] and changes nothing. *)
Theorem X19_refused_version_leaves_schema_unversioned K e :
  Schema.fresh K = true ->
  jsonb_encoder 1 = inl e ->
  Schema.check_database jsonb_encoder version_le_0 K
  = (inl (Schema.Python e), Schema.onto K (Schema.schema [])) /\
  Schema.check_database jsonb_encoder version_le_0 (Schema.onto K (Schema.schema []))
  = (inl (Schema.Python TypeError), Schema.onto K (Schema.schema [])).
Proof.
  intros Hf He. split.
  - unfold Schema.check_database.
    erewrite await_inr by apply get_version_eq.
    rewrite (fresh_global_property K Hf).
    rewrite (@await_inr _ _ _ _ K true K) by reflexivity.
    apply await_inl. rewrite create_database_fresh by exact Hf.
    rewrite set_version_schema, He. reflexivity.
  - unfold Schema.check_database.
    erewrite await_inr by apply get_version_eq.
    rewrite has_global_property_schema.
    reflexivity.
Qed.

(** *** An installation that stopped half way *)

Lemma await_cases (A B : Type) (m : Schema.run A) (k : A -> Schema.run B) K r K' :
  Schema.await m k K = (r, K') ->
  (exists e, m K = (inl e, K') /\ r = inl e) \/
  (exists a K1, m K = (inr a, K1) /\ k a K1 = (r, K')).
Proof.
  unfold Schema.await. destruct (m K) as [[e|a] K1]; intros H; [left | right].
  - injection H as <- <-. eauto.
  - eauto.
Qed.

Lemma await_assoc (A B C : Type) (m : Schema.run A) (k1 : A -> Schema.run B)
    (k2 : B -> Schema.run C) K :
  Schema.await (Schema.await m k1) k2 K
  = Schema.await m (fun a => Schema.await (k1 a) k2) K.
Proof. unfold Schema.await. destruct (m K) as [[e|a] K1]; reflexivity. Qed.

Lemma created_from_refl K : Schema.created_from K K.
Proof. split; [auto | left; auto]. Qed.

Lemma created_from_trans K1 K2 K3 :
  Schema.created_from K1 K2 -> Schema.created_from K2 K3 ->
  Schema.created_from K1 K3.
Proof.
  intros (A1 & B1) (A2 & B2). split; [auto|].
  destruct B2 as [(E & F)|(E & F)]; [|right; auto].
  destruct B1 as [(E1 & F1)|(E1 & F1)]; [left | right]; split; congruence.
Qed.

Lemma execute_created q K r K1 :
  Schema.execute q K = (r, K1) ->
  Schema.created_from K K1 /\ (forall e, r = inl e -> K1 = K).
Proof.
  destruct q as [name refs|name|name table proc]; unfold Schema.execute.
  - destruct (Schema.has name (Schema.pg_class K)) eqn:E1;
      [intros [= <- <-]; split; [apply created_from_refl | auto]|].
    destruct (negb _);
      [intros [= <- <-]; split; [apply created_from_refl | auto]|].
    intros [= <- <-]. split; [|discriminate]. split;
      cbn [Schema.pg_class Schema.global_property].
    + intros n Hn. rewrite has_app, Hn. reflexivity.
    + rewrite has_app, has_one, (String.eqb_sym "global_property").
      destruct (name =? "global_property")%string.
      * right. split; [reflexivity | apply orb_true_r].
      * left. split; [reflexivity | apply orb_false_r].
  - destruct (Schema.has name (Schema.pg_proc K));
      [intros [= <- <-]; split; [apply created_from_refl | auto]|].
    intros [= <- <-]. split; [|discriminate].
    split; [auto | left; auto].
  - destruct (negb _);
      [intros [= <- <-]; split; [apply created_from_refl | auto]|].
    destruct (negb _);
      [intros [= <- <-]; split; [apply created_from_refl | auto]|].
    destruct (Schema.has_trigger _ _ _);
      [intros [= <- <-]; split; [apply created_from_refl | auto]|].
    intros [= <- <-]. split; [|discriminate].
    split; [auto | left; auto].
Qed.

Lemma for_each_created l : forall K r K1,
  Schema.for_each l Schema.execute K = (r, K1) -> Schema.created_from K K1.
Proof.
  induction l as [|q l IH]; intros K r K1 H; simpl in H.
  - injection H as _ <-. apply created_from_refl.
  - apply await_cases in H. destruct H as [(e & H & _)|([] & K' & H & H')].
    + now apply execute_created in H.
    + apply execute_created in H. apply IH in H'.
      eapply created_from_trans; [apply H | exact H'].
Qed.

Lemma set_version_cases v K r K1 :
  Schema.set_version jsonb_encoder v K = (r, K1) ->
  Schema.pg_class K1 = Schema.pg_class K /\
  ((exists e, r = inl e /\ K1 = K) \/
   (exists j, r = inr tt /\ jsonb_encoder v = inr j /\
              Schema.has "global_property" (Schema.pg_class K) = true)).
Proof.
  unfold Schema.set_version.
  destruct (Schema.has "global_property" (Schema.pg_class K)); simpl;
    [|intros [= <- <-]; split; [reflexivity | left; eauto]].
  destruct (jsonb_encoder v) as [e|j]; intros [= <- <-]; (split; [reflexivity|]).
  - left. eauto.
  - right. eauto.
Qed.

Lemma le_0_reads v K r K1 :
  Schema.le_0 version_le_0 v K = (r, K1) ->
  K1 = K /\ forall K', Schema.le_0 version_le_0 v K' = (r, K').
Proof.
  destruct v as [[j|]|z]; simpl.
  - destruct (version_le_0 j); intros [= <- <-]; auto.
  - intros [= <- <-]. auto.
  - intros [= <- <-]. auto.
Qed.

(** The statements of [create_database] from some table of the list on. *)
Lemma create_rest_created l K e K1 :
  Schema.await (Schema.for_each l Schema.execute) (fun _ =>
  Schema.await (Schema.for_each Schema.functions Schema.execute) (fun _ =>
  Schema.await (Schema.for_each Schema.triggers Schema.execute) (fun _ =>
  Schema.set_version jsonb_encoder Schema.LATEST_VERSION))) K = (inl e, K1) ->
  Schema.created_from K K1.
Proof.
  intros H.
  apply await_cases in H. destruct H as [(x & H & _)|([] & Ka & Ha & H)];
    [now apply for_each_created in H|].
  apply for_each_created in Ha.
  apply await_cases in H. destruct H as [(x & H & _)|([] & Kb & Hb & H)];
    [apply for_each_created in H; eapply created_from_trans; eassumption|].
  apply for_each_created in Hb.
  apply await_cases in H. destruct H as [(x & H & _)|([] & Kc & Hc & H)];
    [apply for_each_created in H; eauto using created_from_trans|].
  apply for_each_created in Hc.
  apply set_version_cases in H.
  destruct H as (_ & [(x & _ & ->)|(j & Hr & _)]); [|discriminate].
  eauto using created_from_trans.
Qed.

Lemma create_rest_tables l K r K1 n :
  Schema.await (Schema.for_each l Schema.execute) (fun _ =>
  Schema.await (Schema.for_each Schema.functions Schema.execute) (fun _ =>
  Schema.await (Schema.for_each Schema.triggers Schema.execute) (fun _ =>
  Schema.set_version jsonb_encoder Schema.LATEST_VERSION))) K = (r, K1) ->
  Schema.has n (Schema.pg_class K) = true ->
  Schema.has n (Schema.pg_class K1) = true.
Proof.
  intros H Hn.
  apply await_cases in H. destruct H as [(x & H & _)|([] & Ka & Ha & H)];
    [apply for_each_created in H; now apply H|].
  apply for_each_created in Ha. apply Ha in Hn.
  apply await_cases in H. destruct H as [(x & H & _)|([] & Kb & Hb & H)];
    [apply for_each_created in H; now apply H|].
  apply for_each_created in Hb. apply Hb in Hn.
  apply await_cases in H. destruct H as [(x & H & _)|([] & Kc & Hc & H)];
    [apply for_each_created in H; now apply H|].
  apply for_each_created in Hc. apply Hc in Hn.
  apply set_version_cases in H. destruct H as (-> & _). exact Hn.
Qed.

Lemma create_database_duplicate K :
  Schema.has "character" (Schema.pg_class K) = true ->
  Schema.create_database jsonb_encoder K = (inl (Schema.Postgres Schema.DuplicateTableError), K).
Proof.
  intros H. unfold Schema.create_database, Schema.tables.
  cbn [Schema.for_each]. apply await_inl. apply await_inl.
  unfold Schema.execute. now rewrite H.
Qed.

Lemma create_database_started K r K1 :
  Schema.create_database jsonb_encoder K = (r, K1) -> K1 <> K ->
  Schema.has "character" (Schema.pg_class K1) = true.
Proof.
  intros H Hne.
  destruct (Schema.has "character" (Schema.pg_class K)) eqn:E.
  - rewrite create_database_duplicate in H by exact E.
    injection H as _ <-. now elim Hne.
  - unfold Schema.create_database in H.
    change (Schema.for_each Schema.tables Schema.execute)
      with (Schema.await (Schema.execute (Schema.CreateTable "character" []))
              (fun _ => Schema.for_each (tl Schema.tables) Schema.execute)) in H.
    rewrite await_assoc in H.
    apply await_cases in H. destruct H as [(x & H & _)|([] & Ka & Ha & H)].
    + apply execute_created in H. destruct H as (_ & H).
      elim Hne. now apply (H x).
    + eapply create_rest_tables; [exact H|].
      revert Ha. unfold Schema.execute. rewrite E. cbn [forallb negb].
      intros [= <-]. cbn [Schema.pg_class]. rewrite has_app, has_one.
      apply orb_true_r.
Qed.

Lemma create_database_stores_version K K2 :
  Schema.create_database jsonb_encoder K = (inr tt, K2) ->
  exists K3, Schema.set_version jsonb_encoder 1 K2 = (inr tt, K3).
Proof.
  unfold Schema.create_database. intros H.
  apply await_cases in H. destruct H as [(x & _ & [=])|([] & Ka & _ & H)].
  apply await_cases in H. destruct H as [(x & _ & [=])|([] & Kb & _ & H)].
  apply await_cases in H. destruct H as [(x & _ & [=])|([] & Kc & _ & H)].
  apply set_version_cases in H.
  destruct H as (Hc & [(x & [=] & _)|(j & _ & Hj & Hg)]).
  unfold Schema.set_version. rewrite Hc, Hg.
  unfold Schema.LATEST_VERSION in Hj. rewrite Hj. simpl. eauto.
Qed.

(** X20: an installation that was interrupted is never repaired.  When
    [check_database] raises after it has changed the database, whatever
    the reason, every later [check_database] raises too and changes
    nothing: the tables that exist make [CREATE TABLE "character"] fail,
    or the empty [global_property] makes the version [None]. *)
Theorem X20_interrupted_install_is_never_repaired K e K1 :
  Schema.check_database jsonb_encoder version_le_0 K = (inl e, K1) -> K1 <> K ->
  exists e', Schema.check_database jsonb_encoder version_le_0 K1 = (inl e', K1).
Proof.
  intros H Hne. unfold Schema.check_database in H.
  erewrite await_inr in H by apply get_version_eq.
  apply await_cases in H. destruct H as [(x & H & _)|(b & K' & Hv & H)].
  { apply le_0_reads in H. destruct H as (-> & _). now elim Hne. }
  apply le_0_reads in Hv. destruct Hv as (-> & Hv).
  destruct b; [|discriminate].
  apply await_cases in H. destruct H as [(x & H & _)|([] & K2 & Hc & H)].
  2:{ apply create_database_stores_version in Hc. destruct Hc as (K3 & Hc).
      rewrite Hc in H. discriminate. }
  pose proof (create_database_started H Hne) as Hch.
  apply create_rest_created in H. destruct H as (_ & Hrows).
  pose proof (create_database_duplicate K1 Hch) as Hdup.
  destruct (Schema.has "global_property" (Schema.pg_class K1)) eqn:Eg.
  - destruct Hrows as [(Er & Eh)|(Er & _)].
    + rewrite <- Eh in Hv.
      assert (Ed : Schema.db_version K1 = Schema.db_version K)
        by (unfold Schema.db_version; now rewrite Er).
      eexists. unfold Schema.check_database.
      erewrite await_inr by apply get_version_eq. rewrite Eg, Ed.
      erewrite await_inr by apply Hv.
      apply await_inl. exact Hdup.
    + assert (Ed : Schema.db_version K1 = None)
        by (unfold Schema.db_version; now rewrite Er).
      eexists. unfold Schema.check_database.
      erewrite await_inr by apply get_version_eq. rewrite Eg, Ed.
      apply await_inl. reflexivity.
  - eexists. unfold Schema.check_database.
    erewrite await_inr by apply get_version_eq. rewrite Eg.
    rewrite (@await_inr _ _ _ _ K1 true K1) by reflexivity.
    apply await_inl. exact Hdup.
Qed.

(** *** The version row *)

Lemma db_version_upsert rows j :
  match find (fun r : string * option json => (fst r =? "db_version")%string)
             (if existsb (fun r => (fst r =? "db_version")%string) rows
              then map (fun r => if (fst r =? "db_version")%string
                                 then (fst r, Some j) else r) rows
              else rows ++ [("db_version"%string, Some j)]) with
  | Some r => snd r
  | None => None
  end = Some j.
Proof.
  induction rows as [|[k v] rows IH]; [reflexivity|].
  cbn [existsb map find fst snd app].
  destruct (k =? "db_version")%string eqn:E; cbn [orb find fst snd].
  - rewrite E. reflexivity.
  - revert IH. destruct (existsb _ rows); intros IH; cbn [find fst];
      rewrite E; exact IH.
Qed.

Lemma other_key_upsert rows j k :
  k <> "db_version"%string ->
  find (fun r : string * option json => (fst r =? k)%string)
       (if existsb (fun r => (fst r =? "db_version")%string) rows
        then map (fun r => if (fst r =? "db_version")%string
                           then (fst r, Some j) else r) rows
        else rows ++ [("db_version"%string, Some j)])
  = find (fun r => (fst r =? k)%string) rows.
Proof.
  intros Hk.
  assert (Hn : ("db_version" =? k)%string = false) by (apply String.eqb_neq; congruence).
  destruct (existsb _ rows).
  - induction rows as [|[k0 v] rows IH]; [reflexivity|].
    cbn [map find fst].
    destruct (String.eqb_spec k0 "db_version") as [->|Hd]; cbn [find fst].
    + rewrite Hn. exact IH.
    + destruct (k0 =? k)%string; [reflexivity | exact IH].
  - induction rows as [|[k0 v] rows IH]; cbn [app find fst].
    + now rewrite Hn.
    + destruct (k0 =? k)%string; [reflexivity | exact IH].
Qed.

Lemma keys_upsert rows j :
  NoDup (map fst rows) ->
  NoDup (map fst
           (if existsb (fun r : string * option json => (fst r =? "db_version")%string) rows
            then map (fun r => if (fst r =? "db_version")%string
                               then (fst r, Some j) else r) rows
            else rows ++ [("db_version"%string, Some j)])).
Proof.
  intros H. destruct (existsb _ rows) eqn:E.
  - rewrite map_map. erewrite map_ext; [exact H|].
    intros [k v]. cbn [fst]. destruct (k =? "db_version")%string; reflexivity.
  - rewrite map_app. cbn [map fst].
    apply NoDup_app; [exact H | constructor; [intros [] | constructor] |].
    intros k Hin [<-|[]]. apply in_map_iff in Hin.
    destruct Hin as (r & Hr & Hin).
    assert (E' : existsb (fun r => (fst r =? "db_version")%string) rows = true).
    { apply existsb_exists. exists r. split; [exact Hin|].
      rewrite Hr. apply String.eqb_refl. }
    congruence.
Qed.

(** X21: [set_version] and [get_version] round-trip through the table.
    When [global_property] exists and the codec takes the int,
    [set_version] returns, [get_version] then returns the stored
    document, the values under all other keys are as before, keys that
    were unique stay unique, and nothing but the rows changes; a
    [check_database] that reads the stored version as positive does
    nothing. *)
Theorem X21_version_round_trip K v j :
  Schema.has "global_property" (Schema.pg_class K) = true ->
  jsonb_encoder v = inr j ->
  exists K',
    Schema.set_version jsonb_encoder v K = (inr tt, K') /\
    Schema.get_version K' = (inr (Schema.Fetched (Some j)), K') /\
    (forall k, k <> "db_version"%string ->
               find (fun r => (fst r =? k)%string) (Schema.global_property K')
               = find (fun r => (fst r =? k)%string) (Schema.global_property K)) /\
    (NoDup (map fst (Schema.global_property K)) ->
     NoDup (map fst (Schema.global_property K'))) /\
    (Schema.pg_class K', Schema.pg_proc K', Schema.pg_trigger K')
    = (Schema.pg_class K, Schema.pg_proc K, Schema.pg_trigger K) /\
    (version_le_0 j = inr false ->
     Schema.check_database jsonb_encoder version_le_0 K' = (inr tt, K')).
Proof.
  intros Hg Hj. eexists. split.
  { unfold Schema.set_version. rewrite Hg, Hj. reflexivity. }
  assert (Ev : forall K', Schema.has "global_property" (Schema.pg_class K') = true ->
                 Schema.db_version K' = Some j ->
                 Schema.get_version K' = (inr (Schema.Fetched (Some j)), K')).
  { intros K' H1 H2. now rewrite get_version_eq, H1, H2. }
  assert (Ed : Schema.db_version
                 {| Schema.pg_class := Schema.pg_class K;
                    Schema.pg_proc := Schema.pg_proc K;
                    Schema.pg_trigger := Schema.pg_trigger K;
                    Schema.global_property :=
                      if existsb (fun r => (fst r =? "db_version")%string)
                                 (Schema.global_property K)
                      then map (fun r => if (fst r =? "db_version")%string
                                         then (fst r, Some j) else r)
                               (Schema.global_property K)
                      else Schema.global_property K ++ [("db_version"%string, Some j)] |}
               = Some j).
  { unfold Schema.db_version. cbn [Schema.global_property].
    apply db_version_upsert. }
  cbn [negb]. split; [apply Ev; [exact Hg | exact Ed]|].
  split; [intros k Hk; cbn [Schema.global_property]; now apply other_key_upsert|].
  split; [cbn [Schema.global_property]; apply keys_upsert|].
  split; [reflexivity|].
  intros Hle. unfold Schema.check_database.
  erewrite await_inr by (apply Ev; [exact Hg | exact Ed]).
  simpl Schema.le_0. rewrite Hle. reflexivity.
Qed.

End SchemaManager.

(* ------------------------------------------------------------------ *)
(** ** The theorems at work on the small stores *)

Lemma C1_second_run_witness :
  import_legacy_db example_clock example_json_loads example_json_loads_bytes example_json_dumps text_jsonb example_text_array_other small_legacy (start empty_db)
  = Ok tt (after (import_legacy_db example_clock example_json_loads example_json_loads_bytes example_json_dumps text_jsonb example_text_array_other small_legacy (start empty_db))) /\
  Forall2 unchanged_except_modified
    (character (db (after (import_legacy_db example_clock example_json_loads example_json_loads_bytes example_json_dumps text_jsonb example_text_array_other small_legacy (start empty_db)))))
    (character (db (after (import_legacy_db example_clock example_json_loads example_json_loads_bytes example_json_dumps text_jsonb example_text_array_other small_legacy (after (import_legacy_db example_clock example_json_loads example_json_loads_bytes example_json_dumps text_jsonb example_text_array_other small_legacy (start empty_db))))))) /\
  character_death (db (after (import_legacy_db example_clock example_json_loads example_json_loads_bytes example_json_dumps text_jsonb example_text_array_other small_legacy (after (import_legacy_db example_clock example_json_loads example_json_loads_bytes example_json_dumps text_jsonb example_text_array_other small_legacy (start empty_db))))))
  = character_death (db (after (import_legacy_db example_clock example_json_loads example_json_loads_bytes example_json_dumps text_jsonb example_text_array_other small_legacy (start empty_db)))) /\
  character_levelup (db (after (import_legacy_db example_clock example_json_loads example_json_loads_bytes example_json_dumps text_jsonb example_text_array_other small_legacy (after (import_legacy_db example_clock example_json_loads example_json_loads_bytes example_json_dumps text_jsonb example_text_array_other small_legacy (start empty_db))))))
  = character_levelup (db (after (import_legacy_db example_clock example_json_loads example_json_loads_bytes example_json_dumps text_jsonb example_text_array_other small_legacy (start empty_db)))).
Proof.
  assert (H : import_legacy_db example_clock example_json_loads example_json_loads_bytes example_json_dumps text_jsonb example_text_array_other small_legacy (start empty_db)
              = Ok tt (after (import_legacy_db example_clock example_json_loads example_json_loads_bytes example_json_dumps text_jsonb example_text_array_other small_legacy (start empty_db))))
    by (vm_compute; reflexivity).
  split; [exact H|].
  exact (proj2 (@C1_second_run_adds_no_rows example_clock example_json_loads example_json_loads_bytes example_json_dumps text_jsonb example_text_array_other                   small_legacy _ _ H)).
Defined.

Lemma C2_one_row_witness :
  unique_names (db (start empty_db)) /\
  import_legacy_db example_clock example_json_loads example_json_loads_bytes example_json_dumps text_jsonb example_text_array_other small_legacy (start empty_db)
  = Ok tt (after (import_legacy_db example_clock example_json_loads example_json_loads_bytes example_json_dumps text_jsonb example_text_array_other small_legacy (start empty_db))) /\
  In (legacy_character 7 "Bob" 50) (chars small_legacy) /\
  exists r,
    filter (fun r' => (ch_name r' =? "Bob")%string)
           (character (db (after (import_legacy_db example_clock example_json_loads example_json_loads_bytes example_json_dumps text_jsonb example_text_array_other small_legacy (start empty_db))))) = [r] /\
    ch_name r = "Bob"%string.
Proof.
  assert (H1 : unique_names (db (start empty_db))) by (vm_compute; constructor).
  assert (H2 : import_legacy_db example_clock example_json_loads example_json_loads_bytes example_json_dumps text_jsonb example_text_array_other small_legacy (start empty_db)
               = Ok tt (after (import_legacy_db example_clock example_json_loads example_json_loads_bytes example_json_dumps text_jsonb example_text_array_other small_legacy (start empty_db))))
    by (vm_compute; reflexivity).
  assert (H3 : In (legacy_character 7 "Bob" 50) (chars small_legacy))
    by (simpl; auto).
  split; [exact H1|]. split; [exact H2|]. split; [exact H3|].
  destruct (@C2_one_row_per_name example_clock example_json_loads example_json_loads_bytes example_json_dumps text_jsonb example_text_array_other small_legacy
              _ _ H1 H2 _ H3) as (r & Hf & Hn & _).
  exists r. split; [exact Hf | exact Hn].
Defined.

Lemma C3_conflict_witness :
  int2 50 = true /\ resolve bob_store "Bob" = Some 1 /\
  exists d',
    upsert_character 42 "Bob" 50 None None None 1000 bob_store = (inr 1, d') /\
    character d' =
      map (fun r => if (ch_name r =? "Bob")%string
                    then update_modified_column 1000 r else r)
          (character bob_store).
Proof.
  split; [reflexivity|]. split; [reflexivity|].
  apply (proj1 (C3_conflict_keeps_all_but_modified example_clock example_json_loads example_json_loads_bytes example_json_dumps text_jsonb example_text_array_other));
    reflexivity.
Defined.

(** C3 as worded fails: importing a legacy Bob into a store that has Bob
    moves the row's [modified] from second 5 to the time of the upsert. *)
Lemma C3_counterexample :
  ~ (forall c w r,
        In r (character (db w)) ->
        (exists ch, In ch (chars c) /\ lc_name ch = ch_name r) ->
        exists r',
          In r' (character (db (after (import_characters example_clock c w)))) /\
          ch_id r' = ch_id r /\ ch_modified r' = ch_modified r).
Proof.
  intros H.
  destruct (H bob_legacy (start bob_store) bob_row (or_introl eq_refl))
    as (r' & Hin & _ & Hmod).
  - exists (legacy_character 7 "Bob" 50). split; [left|]; reflexivity.
  - vm_compute in Hin. destruct Hin as [<-|[]]. discriminate Hmod.
Qed.

Lemma C4_levelup_witness :
  utcfromtimestamp 10 = Some 10 /\
  (exists r e, In r (character_levelup (db (start bob_history))) /\
               lu_character_id r = 1 /\ lu_date r = Some e /\
               Z.max (10 - e) (e - 10) <= 15) /\
  import_levelup example_clock 0 (1, 50, 10) (start bob_history)
  = Ok 1%nat (tick (start bob_history)).
Proof.
  assert (H1 : utcfromtimestamp 10 = Some 10) by reflexivity.
  assert (H2 : exists r e, In r (character_levelup (db (start bob_history))) /\
                           lu_character_id r = 1 /\ lu_date r = Some e /\
                           Z.max (10 - e) (e - 10) <= 15).
  { eexists. exists 0. split; [left; reflexivity|].
    split; [reflexivity|]. split; [reflexivity|]. vm_compute. discriminate. }
  split; [exact H1|]. split; [exact H2|].
  exact (proj1 (proj1 (C4_levelup_window example_clock) 0%nat 1 50 10
                  (start bob_history) H1) H2).
Defined.

Lemma C5_death_witness :
  import_characters example_clock (two_deaths 5) (start empty_db)
  = Ok tt (after (import_characters example_clock (two_deaths 5) (start empty_db))) /\
  unique_deaths (db (start empty_db)) /\
  In (legacy_character 7 "Bob" 50) (chars (two_deaths 5)) /\
  (exists skipped_levelups,
     fold_left deaths_spec
       (deaths_of_run (two_deaths 5)
          (db (after (import_characters example_clock (two_deaths 5) (start empty_db)))))
       (death_tables (db (start empty_db)), 0%nat)
     = (death_tables
          (db (after (import_characters example_clock (two_deaths 5) (start empty_db)))),
        1%nat) /\
     stdout (after (import_characters example_clock (two_deaths 5) (start empty_db)))
     = stdout (start empty_db) ++ reported SkippedDeaths 1
         ++ reported SkippedLevelUps skipped_levelups) /\
  exists id,
    resolve (db (after (import_characters example_clock (two_deaths 5) (start empty_db))))
            "Bob" = Some id /\
    List.length
      (filter (death_matches 5 id)
              (character_death
                 (db (after (import_characters example_clock (two_deaths 5)
                               (start empty_db)))))) = 1%nat.
Proof.
  assert (H1 : import_characters example_clock (two_deaths 5) (start empty_db)
               = Ok tt (after (import_characters example_clock (two_deaths 5)
                                 (start empty_db))))
    by (vm_compute; reflexivity).
  assert (H2 : unique_deaths (db (start empty_db))) by (intros i t; simpl; lia).
  assert (H3 : In (legacy_character 7 "Bob" 50) (chars (two_deaths 5)))
    by (simpl; auto).
  split; [exact H1|]. split; [exact H2|]. split; [exact H3|].
  destruct (@C5_death_dedup example_clock (two_deaths 5) _ _ H1)
    as (_ & (skipped & k2 & Hspec & Hout) & Hone).
  split.
  - assert (E : skipped = 1%nat).
    { apply (f_equal snd) in Hspec. vm_compute in Hspec. now symmetry. }
    subst skipped. exists k2. split; [exact Hspec | exact Hout].
  - refine (Hone H2 (legacy_character 7 "Bob" 50)
              {| ld_char_id := 7; ld_level := 50; ld_date := 5;
                 ld_killer := "Alice"; ld_byplayer := 1 |} H3 _ eq_refl).
    simpl. auto.
Defined.

Lemma C6_reminder_witness :
  import_events example_clock small_legacy (start empty_db)
  = Ok tt (after (import_events example_clock small_legacy (start empty_db))) /\
  exists rows,
    event (db (after (import_events example_clock small_legacy (start empty_db)))) = event (db (start empty_db)) ++ rows /\
    map ev_reminder rows = [3; 0].
Proof.
  assert (H : import_events example_clock small_legacy (start empty_db)
              = Ok tt (after (import_events example_clock small_legacy (start empty_db))))
    by (vm_compute; reflexivity).
  split; [exact H|].
  destruct (@C6_reminder_is_4_minus_status example_clock small_legacy _ _ H)
    as (rows & Hrows & HF).
  exists rows. split; [exact Hrows|].
  simpl in HF.
  inversion HF as [|e1 r1 es1 rs1 (_ & _ & E1 & _) HF1]; subst.
  inversion HF1 as [|e2 r2 es2 rs2 (_ & _ & E2 & _) HF2]; subst.
  inversion HF2; subst. simpl. rewrite E1, E2. reflexivity.
Defined.


Lemma C8_prefixes_witness :
  (import_server_properties example_clock example_json_loads example_json_loads_bytes example_json_dumps text_jsonb example_text_array_other small_legacy (start empty_db)
   = Ok tt (after (import_server_properties example_clock example_json_loads example_json_loads_bytes example_json_dumps text_jsonb example_text_array_other small_legacy (start empty_db))) /\
   server_properties small_legacy = [] ++ prefixes_row :: [commandsonly_row] /\
   lp_value prefixes_row = PyStr prefixes_text /\
   example_json_loads prefixes_text = Some (JArr [JStr "!"; JStr "."]) /\
   filter (fun r => spx_server_id r =? 1)
          (server_prefixes
             (db (after (import_server_properties example_clock example_json_loads example_json_loads_bytes example_json_dumps text_jsonb example_text_array_other small_legacy (start empty_db)))))
   = [{| spx_server_id := 1;
         spx_prefixes := TextArray [Some "!"%string; Some "."%string] |}]) /\
  (existsb (fun r => spx_server_id r =? 1) (server_prefixes (db (start question_store)))
   = true /\
   filter (fun r => spx_server_id r =? 1)
          (server_prefixes
             (db (after (import_server_properties example_clock example_json_loads example_json_loads_bytes example_json_dumps text_jsonb example_text_array_other small_legacy
                           (start question_store)))))
   = [{| spx_server_id := 1; spx_prefixes := TextArray [Some "?"%string] |}]) /\
  (server_properties prefixes_legacy = [prefixes_row] /\
   exists w',
     import_server_properties example_clock example_json_loads example_json_loads_bytes example_json_dumps text_jsonb example_text_array_other prefixes_legacy (start empty_db) = Ok tt w' /\
     server_property (db w') = [] /\
     server_prefixes (db w')
     = [{| spx_server_id := 1;
           spx_prefixes := TextArray [Some "!"%string; Some "."%string] |}]).
Proof.
  assert (H1 : import_server_properties example_clock example_json_loads example_json_loads_bytes example_json_dumps text_jsonb example_text_array_other small_legacy (start empty_db)
               = Ok tt (after (import_server_properties example_clock example_json_loads example_json_loads_bytes example_json_dumps text_jsonb example_text_array_other small_legacy
                                 (start empty_db))))
    by (vm_compute; reflexivity).
  assert (H2 : server_properties small_legacy = [] ++ prefixes_row :: [commandsonly_row])
    by reflexivity.
  assert (H3 : lp_name prefixes_row = "prefixes"%string) by reflexivity.
  assert (H4 : lp_value prefixes_row = PyStr prefixes_text) by reflexivity.
  assert (H5 : example_json_loads prefixes_text = Some (JArr [JStr "!"; JStr "."]))
    by (vm_compute; reflexivity).
  assert (H6 : text_items [JStr "!"; JStr "."] = Some [Some "!"%string; Some "."%string])
    by reflexivity.
  assert (H7 : existsb (fun r => spx_server_id r =? lp_server_id prefixes_row)
                       (server_prefixes (db (start empty_db))) = false)
    by reflexivity.
  assert (H8 : forall row0, In row0 [] -> lp_name row0 = "prefixes"%string ->
                            lp_server_id row0 <> lp_server_id prefixes_row)
    by (intros row0 []).
  assert (H9 : existsb (fun r => spx_server_id r =? 1)
                       (server_prefixes (db (start question_store))) = true)
    by reflexivity.
  assert (H10 : server_properties prefixes_legacy = [prefixes_row]) by reflexivity.
  split; [|split].
  - split; [exact H1|]. split; [exact H2|]. split; [exact H4|]. split; [exact H5|].
    exact (proj1 (C8_prefixes_isolated example_clock example_json_loads example_json_loads_bytes example_json_dumps text_jsonb example_text_array_other small_legacy (start empty_db))
             _ _ _ _ _ _ _ H1 H2 H3 H4 H5 H6 H7 H8).
  - split; [exact H9|].
    exact (proj1 (proj2 (C8_prefixes_isolated example_clock example_json_loads example_json_loads_bytes example_json_dumps text_jsonb example_text_array_other small_legacy (start question_store)))
             1 H9).
  - split; [exact H10|].
    exact (proj1 (proj2 (proj2 (C8_prefixes_isolated example_clock example_json_loads example_json_loads_bytes example_json_dumps text_jsonb example_text_array_other prefixes_legacy
                                  (start empty_db))))
             prefixes_row prefixes_text ["!"%string; "."%string] H10 H3 H4 H5).
Defined.

Lemma C9_abort_witness :
  (select_chars overflowing_legacy
   = [] ++ legacy_character 1 "Alice" 40000 :: [legacy_character 2 "Bob" 50] /\
   import_character example_clock overflowing_legacy ([], [])
     (legacy_character 1 "Alice" 40000) (start empty_db)
   = Raised DataError (tick (start empty_db)) /\
   import_characters example_clock overflowing_legacy (start empty_db)
   = Raised DataError (tick (start empty_db))) /\
  (for_ (select_chars fatal_death_legacy)
        (import_character example_clock fatal_death_legacy) ([], []) (start empty_db)
   = Ok ([(1, 49, 0)],
         [(1, 50, 5, "a dragon"%string, 0); (1, 40000, 7, "a rat"%string, 0);
          (1, 50, 9, "Alice"%string, 1)])
        (after (for_ (select_chars fatal_death_legacy)
                     (import_character example_clock fatal_death_legacy) ([], [])
                     (start empty_db))) /\
   import_death example_clock 0 (1, 40000, 7, "a rat"%string, 0)
     (after (for_ [(1, 50, 5, "a dragon"%string, 0)] (import_death example_clock) 0%nat
                  (after (for_ (select_chars fatal_death_legacy)
                               (import_character example_clock fatal_death_legacy)
                               ([], []) (start empty_db)))))
   = Raised DataError
       (after (import_characters example_clock fatal_death_legacy (start empty_db))) /\
   import_characters example_clock fatal_death_legacy (start empty_db)
   = Raised DataError
       (after (import_characters example_clock fatal_death_legacy (start empty_db))) /\
   character_levelup
     (db (after (import_characters example_clock fatal_death_legacy (start empty_db))))
   = []) /\
  (import_levelup example_clock 0 (1, 40000, 100)
     (after (for_ [(1, 49, 0)] (import_levelup example_clock) 0%nat
                  (after (for_ [(1, 50, 5, "a dragon"%string, 0)]
                               (import_death example_clock) 0%nat
                               (after (for_ (select_chars fatal_levelup_legacy)
                                            (import_character example_clock
                                               fatal_levelup_legacy)
                                            ([], []) (start empty_db)))))))
   = Raised DataError
       (after (import_characters example_clock fatal_levelup_legacy (start empty_db))) /\
   import_characters example_clock fatal_levelup_legacy (start empty_db)
   = Raised DataError
       (after (import_characters example_clock fatal_levelup_legacy (start empty_db)))).
Proof.
  split; [|split].
  - assert (H1 : select_chars overflowing_legacy
                 = [] ++ legacy_character 1 "Alice" 40000
                      :: [legacy_character 2 "Bob" 50]) by reflexivity.
    assert (H2 : for_ [] (import_character example_clock overflowing_legacy) ([], [])
                      (start empty_db) = Ok ([], []) (start empty_db)) by reflexivity.
    assert (H3 : import_character example_clock overflowing_legacy ([], [])
                   (legacy_character 1 "Alice" 40000) (start empty_db)
                 = Raised DataError (tick (start empty_db))) by reflexivity.
    split; [exact H1|]. split; [exact H3|].
    exact (proj1 (proj1 (C9_failure_aborts_duplicates_counted example_clock
                           overflowing_legacy (start empty_db))
                    [] _ _ _ _ _ _ H1 H2 H3)).
  - assert (H1 : for_ (select_chars fatal_death_legacy)
                      (import_character example_clock fatal_death_legacy) ([], [])
                      (start empty_db)
                 = Ok ([(1, 49, 0)],
                       [(1, 50, 5, "a dragon"%string, 0);
                        (1, 40000, 7, "a rat"%string, 0);
                        (1, 50, 9, "Alice"%string, 1)])
                      (after (for_ (select_chars fatal_death_legacy)
                                   (import_character example_clock fatal_death_legacy)
                                   ([], []) (start empty_db))))
      by (vm_compute; reflexivity).
    assert (H2 : sorted death_date
                   [(1, 50, 5, "a dragon"%string, 0); (1, 40000, 7, "a rat"%string, 0);
                    (1, 50, 9, "Alice"%string, 1)]
                 = [(1, 50, 5, "a dragon"%string, 0)]
                     ++ (1, 40000, 7, "a rat"%string, 0)
                     :: [(1, 50, 9, "Alice"%string, 1)])
      by (vm_compute; reflexivity).
    assert (H3 : for_ [(1, 50, 5, "a dragon"%string, 0)] (import_death example_clock)
                      0%nat
                      (after (for_ (select_chars fatal_death_legacy)
                                   (import_character example_clock fatal_death_legacy)
                                   ([], []) (start empty_db)))
                 = Ok 0%nat
                      (after (for_ [(1, 50, 5, "a dragon"%string, 0)]
                                   (import_death example_clock) 0%nat
                                   (after (for_ (select_chars fatal_death_legacy)
                                                (import_character example_clock
                                                   fatal_death_legacy)
                                                ([], []) (start empty_db))))))
      by (vm_compute; reflexivity).
    assert (H4 : import_death example_clock 0 (1, 40000, 7, "a rat"%string, 0)
                   (after (for_ [(1, 50, 5, "a dragon"%string, 0)]
                                (import_death example_clock) 0%nat
                                (after (for_ (select_chars fatal_death_legacy)
                                             (import_character example_clock
                                                fatal_death_legacy)
                                             ([], []) (start empty_db)))))
                 = Raised DataError
                     (after (import_characters example_clock fatal_death_legacy
                               (start empty_db))))
      by (vm_compute; reflexivity).
    split; [exact H1|]. split; [exact H4|].
    destruct (proj1 (proj2 (C9_failure_aborts_duplicates_counted example_clock
                              fatal_death_legacy (start empty_db)))
                _ _ _ _ _ _ _ _ _ _ H1 H2 H3 H4) as (E & _ & L).
    split; [exact E | exact L].
  - assert (H1 : for_ (select_chars fatal_levelup_legacy)
                      (import_character example_clock fatal_levelup_legacy) ([], [])
                      (start empty_db)
                 = Ok ([(1, 49, 0); (1, 40000, 100); (1, 51, 200)],
                       [(1, 50, 5, "a dragon"%string, 0)])
                      (after (for_ (select_chars fatal_levelup_legacy)
                                   (import_character example_clock fatal_levelup_legacy)
                                   ([], []) (start empty_db))))
      by (vm_compute; reflexivity).
    assert (H2 : for_ (sorted death_date [(1, 50, 5, "a dragon"%string, 0)])
                      (import_death example_clock) 0%nat
                      (after (for_ (select_chars fatal_levelup_legacy)
                                   (import_character example_clock fatal_levelup_legacy)
                                   ([], []) (start empty_db)))
                 = Ok 0%nat
                      (after (for_ [(1, 50, 5, "a dragon"%string, 0)]
                                   (import_death example_clock) 0%nat
                                   (after (for_ (select_chars fatal_levelup_legacy)
                                                (import_character example_clock
                                                   fatal_levelup_legacy)
                                                ([], []) (start empty_db))))))
      by (vm_compute; reflexivity).
    assert (H3 : sorted levelup_date [(1, 49, 0); (1, 40000, 100); (1, 51, 200)]
                 = [(1, 49, 0)] ++ (1, 40000, 100) :: [(1, 51, 200)])
      by (vm_compute; reflexivity).
    assert (H4 : for_ [(1, 49, 0)] (import_levelup example_clock) 0%nat
                      (after (for_ [(1, 50, 5, "a dragon"%string, 0)]
                                   (import_death example_clock) 0%nat
                                   (after (for_ (select_chars fatal_levelup_legacy)
                                                (import_character example_clock
                                                   fatal_levelup_legacy)
                                                ([], []) (start empty_db)))))
                 = Ok 0%nat
                      (after (for_ [(1, 49, 0)] (import_levelup example_clock) 0%nat
                                   (after (for_ [(1, 50, 5, "a dragon"%string, 0)]
                                                (import_death example_clock) 0%nat
                                                (after (for_ (select_chars
                                                                fatal_levelup_legacy)
                                                             (import_character
                                                                example_clock
                                                                fatal_levelup_legacy)
                                                             ([], [])
                                                             (start empty_db))))))))
      by (vm_compute; reflexivity).
    assert (H5 : import_levelup example_clock 0 (1, 40000, 100)
                   (after (for_ [(1, 49, 0)] (import_levelup example_clock) 0%nat
                                (after (for_ [(1, 50, 5, "a dragon"%string, 0)]
                                             (import_death example_clock) 0%nat
                                             (after (for_ (select_chars
                                                             fatal_levelup_legacy)
                                                          (import_character
                                                             example_clock
                                                             fatal_levelup_legacy)
                                                          ([], [])
                                                          (start empty_db)))))))
                 = Raised DataError
                     (after (import_characters example_clock fatal_levelup_legacy
                               (start empty_db))))
      by (vm_compute; reflexivity).
    split; [exact H5|].
    exact (proj1 (proj1 (proj2 (proj2 (C9_failure_aborts_duplicates_counted
                                         example_clock fatal_levelup_legacy
                                         (start empty_db))))
                    _ _ _ _ _ _ _ _ _ _ _ _ _ H1 H2 eq_refl H3 H4 H5)).
Defined.

(** C9 as worded fails: Alice's level does not fit a [smallint], her
    insert raises, and Bob, whose own insert would succeed, is never
    looked at. *)
Lemma C9_counterexample :
  ~ (forall c w ch,
        In ch (chars c) -> int2 (lc_level ch) = true ->
        resolve (db (after (import_characters example_clock c w))) (lc_name ch)
        <> None).
Proof.
  intros H.
  apply (H overflowing_legacy (start empty_db) (legacy_character 2 "Bob" 50)).
  - right. left. reflexivity.
  - reflexivity.
  - vm_compute. reflexivity.
Qed.

Lemma C10_commandsonly_witness :
  server_properties small_legacy = [prefixes_row] ++ commandsonly_row :: [] /\
  lp_value commandsonly_row = PyStr "0" /\
  (import_server_properties example_clock example_json_loads example_json_loads_bytes example_json_dumps text_jsonb example_text_array_other small_legacy (start empty_db)
   = Ok tt (after (import_server_properties example_clock example_json_loads example_json_loads_bytes example_json_dumps text_jsonb example_text_array_other small_legacy (start empty_db))) /\
   filter (same_property 1 "commandsonly")
          (server_property
             (db (after (import_server_properties example_clock example_json_loads example_json_loads_bytes example_json_dumps text_jsonb example_text_array_other small_legacy (start empty_db)))))
   = [{| sp_server_id := 1; sp_key := "commandsonly";
         sp_value := Some (JBool true) |}]) /\
  (import_server_properties example_clock example_json_loads example_json_loads_bytes example_json_dumps dumps_jsonb example_text_array_other small_legacy (start empty_db)
   = Ok tt (after (import_server_properties example_clock example_json_loads example_json_loads_bytes example_json_dumps dumps_jsonb example_text_array_other small_legacy (start empty_db))) /\
   filter (same_property 1 "commandsonly")
          (server_property
             (db (after (import_server_properties example_clock example_json_loads example_json_loads_bytes example_json_dumps dumps_jsonb example_text_array_other small_legacy (start empty_db)))))
   = [{| sp_server_id := 1; sp_key := "commandsonly";
         sp_value := Some (JStr "true") |}]).
Proof.
  assert (H2 : server_properties small_legacy = [prefixes_row] ++ commandsonly_row :: [])
    by reflexivity.
  assert (H3 : lp_name commandsonly_row = "commandsonly"%string) by reflexivity.
  assert (H4 : existsb (same_property (lp_server_id commandsonly_row) "commandsonly")
                       (server_property (db (start empty_db))) = false)
    by reflexivity.
  assert (H5 : forall row0, In row0 [prefixes_row] ->
                 ~ (lp_server_id row0 = lp_server_id commandsonly_row /\
                    lp_name row0 = "commandsonly"%string)).
  { intros row0 [<-|[]] [_ E]. discriminate E. }
  split; [exact H2|]. split; [reflexivity|]. split.
  - assert (H1 : import_server_properties example_clock example_json_loads example_json_loads_bytes example_json_dumps text_jsonb example_text_array_other small_legacy (start empty_db)
                 = Ok tt (after (import_server_properties example_clock example_json_loads example_json_loads_bytes example_json_dumps text_jsonb example_text_array_other small_legacy
                                   (start empty_db))))
      by (vm_compute; reflexivity).
    split; [exact H1|].
    destruct (@C10_commandsonly_truthiness example_clock example_json_loads example_json_loads_bytes example_json_dumps text_jsonb example_text_array_other small_legacy _ _ _ _ _ H1 H2 H3 H4 H5)
      as ((j & Hj & Hf) & _).
    vm_compute in Hj. injection Hj as <-. exact Hf.
  - assert (H1 : import_server_properties example_clock example_json_loads example_json_loads_bytes example_json_dumps dumps_jsonb example_text_array_other small_legacy (start empty_db)
                 = Ok tt (after (import_server_properties example_clock example_json_loads example_json_loads_bytes example_json_dumps dumps_jsonb example_text_array_other small_legacy
                                   (start empty_db))))
      by (vm_compute; reflexivity).
    split; [exact H1|].
    destruct (@C10_commandsonly_truthiness example_clock example_json_loads example_json_loads_bytes example_json_dumps dumps_jsonb example_text_array_other small_legacy _ _ _ _ _ H1 H2 H3 H4 H5)
      as ((j & Hj & Hf) & _).
    vm_compute in Hj. injection Hj as <-. exact Hf.
Defined.

(** C10 as worded fails: an empty [BLOB] is none of the empty text, the
    number 0 and [NULL], and what is stored for it under asyncpg's own
    [jsonb] codec is JSON false. *)
Lemma C10_counterexample :
  ~ (forall row w',
        lp_name row = "commandsonly"%string ->
        import_server_properties example_clock example_json_loads example_json_loads_bytes example_json_dumps text_jsonb example_text_array_other
          {| chars := []; char_levelups := []; char_deaths := [];
             server_properties := [row]; events := [];
             event_subscribers := []; event_participants := [];
             auto_roles := []; joinable_roles := [] |} (start empty_db) = Ok tt w' ->
        server_property (db w')
        = [{| sp_server_id := lp_server_id row; sp_key := "commandsonly";
              sp_value := Some (JBool false) |}] ->
        lp_value row = PyStr "" \/
        (lp_value row = PyInt 0 \/ exists f, lp_value row = PyFloat f) \/
        lp_value row = PyNone).
Proof.
  intros H.
  destruct (H empty_blob_row
              (after (import_server_properties example_clock example_json_loads example_json_loads_bytes example_json_dumps text_jsonb example_text_array_other empty_blob_legacy (start empty_db)))
              eq_refl)
    as [E|[[E|(f & E)]|E]]; try discriminate E.
  - vm_compute. reflexivity.
  - vm_compute. reflexivity.
Qed.

Lemma X1_roles_witness :
  (forall r, In r (auto_roles small_legacy) -> role_auto_of r <> None) /\
  (forall r, In r (joinable_roles small_legacy) -> role_joinable_of r <> None) /\
  (exists w',
     import_roles example_clock small_legacy (start empty_db) = Ok tt w' /\
     In {| ra_server_id := 1; ra_role_id := 2; ra_rule := "Redd" |} (role_auto (db w')) /\
     NoDup (role_auto (db w')) /\ NoDup (role_joinable (db w'))) /\
  In any_guild_role (auto_roles any_guild_legacy) /\
  role_auto_of any_guild_role = None /\
  exists w',
    import_roles example_clock any_guild_legacy (start empty_db)
    = Raised NotNullViolationError w'.
Proof.
  assert (H1 : forall r, In r (auto_roles small_legacy) -> role_auto_of r <> None)
    by (intros r [<-|[]]; discriminate).
  assert (H2 : forall r, In r (joinable_roles small_legacy) ->
                         role_joinable_of r <> None)
    by (intros r [<-|[]]; discriminate).
  assert (H3 : In any_guild_role (auto_roles any_guild_legacy))
    by (right; left; reflexivity).
  assert (H4 : role_auto_of any_guild_role = None) by reflexivity.
  split; [exact H1|]. split; [exact H2|]. split; [|split; [exact H3|split; [exact H4|]]].
  - destruct (proj1 (X1_import_roles_returns_unless_null example_clock small_legacy
                       (start empty_db)) H1 H2)
      as (w' & H & Ha & _ & _ & _ & _ & _ & N1 & N2).
    exists w'. split; [exact H|].
    split; [exact (Ha _ _ (or_introl eq_refl) eq_refl)|].
    split; [apply N1 | apply N2]; constructor.
  - destruct (proj2 (X1_import_roles_returns_unless_null example_clock any_guild_legacy
                       (start empty_db))
                (or_introl (ex_intro _ any_guild_role (conj H3 H4))))
      as (w' & H & _).
    exists w'. exact H.
Defined.

Lemma X2_roles_witness :
  import_roles example_clock small_legacy (start empty_db)
  = Ok tt (after (import_roles example_clock small_legacy (start empty_db))) /\
  exists w'',
    import_roles example_clock small_legacy
      (after (import_roles example_clock small_legacy (start empty_db))) = Ok tt w'' /\
    role_auto (db w'')
    = role_auto (db (after (import_roles example_clock small_legacy (start empty_db)))) /\
    role_joinable (db w'')
    = role_joinable (db (after (import_roles example_clock small_legacy (start empty_db)))).
Proof.
  assert (H : import_roles example_clock small_legacy (start empty_db)
              = Ok tt (after (import_roles example_clock small_legacy (start empty_db))))
    by (vm_compute; reflexivity).
  split; [exact H|].
  exact (@X2_import_roles_idempotent example_clock small_legacy _ _ H).
Defined.

Lemma X3_properties_witness :
  NoDup (property_keys (db (start empty_db))) /\
  NoDup (prefixes_keys (db (start empty_db))) /\
  NoDup (property_keys
           (db (after (import_server_properties example_clock example_json_loads example_json_loads_bytes example_json_dumps text_jsonb example_text_array_other                          small_legacy (start empty_db))))) /\
  NoDup (prefixes_keys
           (db (after (import_server_properties example_clock example_json_loads example_json_loads_bytes example_json_dumps text_jsonb example_text_array_other                          small_legacy (start empty_db))))).
Proof.
  assert (H1 : NoDup (property_keys (db (start empty_db)))) by constructor.
  assert (H2 : NoDup (prefixes_keys (db (start empty_db)))) by constructor.
  split; [exact H1|]. split; [exact H2|].
  destruct (X3_server_properties_first_write_wins example_clock example_json_loads example_json_loads_bytes example_json_dumps text_jsonb example_text_array_other               small_legacy (start empty_db)) as (_ & _ & N1 & N2).
  split; [exact (N1 H1) | exact (N2 H2)].
Defined.

Lemma X4_property_witness :
  import_server_properties example_clock example_json_loads example_json_loads_bytes example_json_dumps text_jsonb example_text_array_other small_legacy (start empty_db)
  = Ok tt (after (import_server_properties example_clock example_json_loads example_json_loads_bytes example_json_dumps text_jsonb example_text_array_other small_legacy (start empty_db))) /\
  server_properties small_legacy = [prefixes_row] ++ commandsonly_row :: [] /\
  lp_name commandsonly_row <> "prefixes"%string /\
  existsb (same_property (lp_server_id commandsonly_row) (lp_name commandsonly_row))
          (server_property (db (start empty_db))) = false /\
  exists text j,
    property_text example_json_loads example_json_loads_bytes example_json_dumps
      commandsonly_row = inr text /\
    text_jsonb text = inr j /\
    filter (same_property 1 "commandsonly")
           (server_property
              (db (after (import_server_properties example_clock example_json_loads example_json_loads_bytes example_json_dumps text_jsonb example_text_array_other small_legacy (start empty_db)))))
    = [{| sp_server_id := 1; sp_key := "commandsonly"; sp_value := Some j |}].
Proof.
  assert (H1 : import_server_properties example_clock example_json_loads example_json_loads_bytes example_json_dumps text_jsonb example_text_array_other small_legacy (start empty_db)
               = Ok tt (after (import_server_properties example_clock example_json_loads example_json_loads_bytes example_json_dumps text_jsonb example_text_array_other small_legacy
                                 (start empty_db))))
    by (vm_compute; reflexivity).
  assert (H2 : server_properties small_legacy = [prefixes_row] ++ commandsonly_row :: [])
    by reflexivity.
  assert (H3 : lp_name commandsonly_row <> "prefixes"%string) by discriminate.
  assert (H4 : existsb (same_property (lp_server_id commandsonly_row)
                          (lp_name commandsonly_row))
                       (server_property (db (start empty_db))) = false)
    by reflexivity.
  assert (H5 : forall row0, In row0 [prefixes_row] ->
                 ~ (lp_server_id row0 = lp_server_id commandsonly_row /\
                    lp_name row0 = lp_name commandsonly_row)).
  { intros row0 [<-|[]] [_ E]. discriminate E. }
  split; [exact H1|]. split; [exact H2|]. split; [exact H3|]. split; [exact H4|].
  exact (@X4_first_legacy_property_wins example_clock example_json_loads example_json_loads_bytes example_json_dumps text_jsonb example_text_array_other small_legacy _ _ _ _ _ H1 H2 H3 H4 H5).
Defined.

Lemma X5_unreadable_witness :
  server_properties unreadable_legacy = [commandsonly_row] ++ unreadable_row :: [] /\
  example_json_loads "[" = None /\
  exists w1,
    for_ [commandsonly_row] (import_server_property example_clock example_json_loads example_json_loads_bytes example_json_dumps text_jsonb example_text_array_other) tt (start empty_db)
    = Ok tt w1 /\
    import_server_properties example_clock example_json_loads example_json_loads_bytes example_json_dumps text_jsonb example_text_array_other unreadable_legacy (start empty_db)
    = Raised JSONDecodeError w1.
Proof.
  assert (H1 : server_properties unreadable_legacy
               = [commandsonly_row] ++ unreadable_row :: []) by reflexivity.
  assert (H0 : example_json_loads "[" = None) by (vm_compute; reflexivity).
  split; [exact H1|]. split; [exact H0|].
  eexists. split; [vm_compute; reflexivity|].
  refine (@X5_unreadable_property_aborts example_clock example_json_loads example_json_loads_bytes example_json_dumps text_jsonb example_text_array_other unreadable_legacy (start empty_db)
            _ _ _ _ JSONDecodeError H1 _ _ _ _).
  - vm_compute. reflexivity.
  - left. reflexivity.
  - intros s [= <-]. exact H0.
  - intros b E. discriminate E.
Defined.

Lemma X6_events_witness :
  import_events example_clock small_legacy (start empty_db)
  = Ok tt (after (import_events example_clock small_legacy (start empty_db))) /\
  event_seq (db (after (import_events example_clock small_legacy (start empty_db))))
  = event_seq (db (start empty_db)) + Z.of_nat (List.length (events small_legacy)).
Proof.
  assert (H : import_events example_clock small_legacy (start empty_db)
              = Ok tt (after (import_events example_clock small_legacy (start empty_db))))
    by (vm_compute; reflexivity).
  split; [exact H|].
  exact (proj1 (proj2 (@X6_import_events_adds_every_event_each_run example_clock
                         small_legacy _ _ H))).
Defined.

Lemma X7_subscribers_witness :
  import_events example_clock small_legacy (start empty_db)
  = Ok tt (after (import_events example_clock small_legacy (start empty_db))) /\
  In hunt_event (events small_legacy) /\
  exists er,
    In er (event (db (after (import_events example_clock small_legacy (start empty_db))))) /\
    imported_event hunt_event er /\
    In {| es_event_id := ev_id er; es_user_id := 43 |}
       (event_subscriber
          (db (after (import_events example_clock small_legacy (start empty_db))))).
Proof.
  assert (H : import_events example_clock small_legacy (start empty_db)
              = Ok tt (after (import_events example_clock small_legacy (start empty_db))))
    by (vm_compute; reflexivity).
  assert (H2 : In hunt_event (events small_legacy)) by (left; reflexivity).
  split; [exact H|]. split; [exact H2|].
  destruct (@X7_subscribers_follow_their_event example_clock small_legacy _ _ H _ H2)
    as (er & Hin & Him & _ & Hs).
  exists er. split; [exact Hin|]. split; [exact Him|].
  exact (Hs {| ls_event_id := 1; ls_user_id := 43 |} (or_introl eq_refl) eq_refl).
Defined.


Lemma X9_children_witness :
  import_events example_clock small_legacy (start empty_db)
  = Ok tt (after (import_events example_clock small_legacy (start empty_db))) /\
  forall r,
    In r (event_subscriber
            (db (after (import_events example_clock small_legacy (start empty_db))))) ->
    In r (event_subscriber (db (start empty_db))) \/
    subscriber_of_run
      (event_seq (db (start empty_db)))
      (event_seq (db (after (import_events example_clock small_legacy (start empty_db)))))
      r.
Proof.
  assert (H : import_events example_clock small_legacy (start empty_db)
              = Ok tt (after (import_events example_clock small_legacy (start empty_db))))
    by (vm_compute; reflexivity).
  split; [exact H|].
  exact (proj1 (@X9_children_attach_to_new_events example_clock small_legacy _ _ H)).
Defined.

Lemma X10_unfit_witness :
  events unfit_legacy = [hunt_event] ++ crowded_event :: [] /\
  ~ event_fits crowded_event /\
  exists x w2,
    import_events example_clock unfit_legacy (start empty_db) = Raised x w2 /\
    List.length (event (db w2)) = 1%nat /\
    event_subscriber (db w2) = [] /\ event_participant (db w2) = [].
Proof.
  assert (H1 : events unfit_legacy = [hunt_event] ++ crowded_event :: [])
    by reflexivity.
  assert (H2 : ~ event_fits crowded_event).
  { unfold event_fits. simpl. lia. }
  split; [exact H1|]. split; [exact H2|].
  refine (@X10_unfit_event_leaves_no_children example_clock unfit_legacy
            (start empty_db) _ _ _ _ _ H1 _ H2).
  vm_compute. reflexivity.
Defined.

Lemma X12_failure_witness :
  (exists e w1,
      import_characters example_clock overflowing_legacy (start empty_db) = Raised e w1 /\
      import_legacy_db example_clock example_json_loads example_json_loads_bytes example_json_dumps text_jsonb example_text_array_other overflowing_legacy (start empty_db)
      = Raised e w1) /\
  (exists wa e w1,
      import_characters example_clock unreadable_legacy (start empty_db) = Ok tt wa /\
      import_server_properties example_clock example_json_loads example_json_loads_bytes example_json_dumps text_jsonb example_text_array_other unreadable_legacy wa
      = Raised e w1 /\
      import_legacy_db example_clock example_json_loads example_json_loads_bytes example_json_dumps text_jsonb example_text_array_other unreadable_legacy (start empty_db)
      = Raised e w1 /\
      role_auto (db w1) = []).
Proof.
  split.
  - eexists. eexists.
    assert (H : import_characters example_clock overflowing_legacy (start empty_db)
                = Raised DataError
                    (after (import_characters example_clock overflowing_legacy
                              (start empty_db))))
      by (vm_compute; reflexivity).
    split; [exact H|].
    exact (proj1 (proj1 (X12_import_stops_at_first_failure example_clock example_json_loads example_json_loads_bytes example_json_dumps text_jsonb example_text_array_other overflowing_legacy (start empty_db))
                    _ _ H)).
  - eexists. eexists. eexists.
    assert (Ha : import_characters example_clock unreadable_legacy (start empty_db)
                 = Ok tt (after (import_characters example_clock unreadable_legacy
                                   (start empty_db))))
      by (vm_compute; reflexivity).
    assert (Hb : import_server_properties example_clock example_json_loads example_json_loads_bytes example_json_dumps text_jsonb example_text_array_other                    unreadable_legacy
                   (after (import_characters example_clock unreadable_legacy
                             (start empty_db)))
                 = Raised JSONDecodeError
                     (after (import_server_properties example_clock example_json_loads example_json_loads_bytes example_json_dumps text_jsonb example_text_array_other                                unreadable_legacy
                               (after (import_characters example_clock unreadable_legacy
                                         (start empty_db))))))
      by (vm_compute; reflexivity).
    split; [exact Ha|]. split; [exact Hb|].
    destruct (proj2 (X12_import_stops_at_first_failure example_clock example_json_loads example_json_loads_bytes example_json_dumps text_jsonb example_text_array_other unreadable_legacy (start empty_db))
                _ _ _ Ha Hb) as (H & R & _).
    split; [exact H | exact R].
Defined.

Lemma X13_deaths_witness :
  import_characters example_clock small_legacy (start empty_db)
  = Ok tt (after (import_characters example_clock small_legacy (start empty_db))) /\
  exists ds ks,
    character_death (db (after (import_characters example_clock small_legacy
                                  (start empty_db)))) = [] ++ ds /\
    character_death_killer (db (after (import_characters example_clock small_legacy
                                         (start empty_db)))) = [] ++ ks /\
    List.length ds = List.length ks /\
    StronglySorted death_before ds.
Proof.
  assert (H : import_characters example_clock small_legacy (start empty_db)
              = Ok tt (after (import_characters example_clock small_legacy
                                (start empty_db))))
    by (vm_compute; reflexivity).
  split; [exact H|].
  destruct (@X13_deaths_written_in_time_order example_clock small_legacy _ _ H)
    as (ds & ks & E1 & E2 & HF & Hs).
  exists ds, ks. split; [exact E1|]. split; [exact E2|].
  split; [exact (Forall2_length HF) | exact Hs].
Defined.

Lemma X14_levelups_witness :
  import_characters example_clock small_legacy (start empty_db)
  = Ok tt (after (import_characters example_clock small_legacy (start empty_db))) /\
  exists lus,
    character_levelup (db (after (import_characters example_clock small_legacy
                                    (start empty_db)))) = [] ++ lus /\
    StronglySorted levelup_before lus.
Proof.
  assert (H : import_characters example_clock small_legacy (start empty_db)
              = Ok tt (after (import_characters example_clock small_legacy
                                (start empty_db))))
    by (vm_compute; reflexivity).
  split; [exact H|].
  destruct (@X14_levelups_written_in_time_order example_clock small_legacy _ _ H)
    as (lus & E1 & _ & Hs).
  exists lus. split; [exact E1 | exact Hs].
Defined.

Lemma X15_spacing_witness :
  levelups_spaced (db (start empty_db)) /\
  levelups_spaced
    (db (after (import_legacy_db example_clock example_json_loads example_json_loads_bytes example_json_dumps text_jsonb example_text_array_other small_legacy
                  (start empty_db)))).
Proof.
  assert (H : levelups_spaced (db (start empty_db))) by constructor.
  split; [exact H|].
  exact (@X15_levelups_stay_spaced example_clock example_json_loads example_json_loads_bytes example_json_dumps text_jsonb example_text_array_other small_legacy _ H).
Defined.

Lemma X16_namesakes_witness :
  import_characters example_clock small_legacy (start empty_db)
  = Ok tt (after (import_characters example_clock small_legacy (start empty_db))) /\
  select_chars small_legacy
  = [] ++ legacy_character 3 "Bob" 20
       :: [legacy_character 7 "Bob" 50; legacy_character 9 "Eve" 10] /\
  resolve (db (start empty_db)) "Bob" = None /\
  exists r,
    find (fun x => (ch_name x =? "Bob")%string)
         (character (db (after (import_characters example_clock small_legacy
                                  (start empty_db))))) = Some r /\
    ch_level r = Some 20.
Proof.
  assert (H1 : import_characters example_clock small_legacy (start empty_db)
               = Ok tt (after (import_characters example_clock small_legacy
                                 (start empty_db))))
    by (vm_compute; reflexivity).
  assert (H2 : select_chars small_legacy
               = [] ++ legacy_character 3 "Bob" 20
                    :: [legacy_character 7 "Bob" 50; legacy_character 9 "Eve" 10])
    by (vm_compute; reflexivity).
  assert (H3 : forall ch0, In ch0 [] ->
                 lc_name ch0 <> lc_name (legacy_character 3 "Bob" 20))
    by (intros ch0 []).
  assert (H4 : resolve (db (start empty_db)) (lc_name (legacy_character 3 "Bob" 20))
               = None) by reflexivity.
  split; [exact H1|]. split; [exact H2|]. split; [exact H4|].
  destruct (@X16_first_character_of_a_name_is_kept example_clock small_legacy
              _ _ _ _ _ H1 H2 H3 H4) as (r & Hf & _ & Hl & _).
  exists r. split; [exact Hf | exact Hl].
Defined.

Lemma X17_settings_witness :
  import_legacy_db example_clock example_json_loads example_json_loads_bytes example_json_dumps text_jsonb example_text_array_other small_legacy (start empty_db)
  = Ok tt (after (import_legacy_db example_clock example_json_loads example_json_loads_bytes example_json_dumps text_jsonb example_text_array_other small_legacy
                    (start empty_db))) /\
  settings_tables
    (db (after (import_legacy_db example_clock example_json_loads example_json_loads_bytes example_json_dumps text_jsonb example_text_array_other small_legacy
                  (after (import_legacy_db example_clock example_json_loads example_json_loads_bytes example_json_dumps text_jsonb example_text_array_other small_legacy
                            (start empty_db))))))
  = settings_tables
      (db (after (import_legacy_db example_clock example_json_loads example_json_loads_bytes example_json_dumps text_jsonb example_text_array_other small_legacy
                    (start empty_db)))).
Proof.
  assert (H : import_legacy_db example_clock example_json_loads example_json_loads_bytes example_json_dumps text_jsonb example_text_array_other small_legacy
                (start empty_db)
              = Ok tt (after (import_legacy_db example_clock example_json_loads example_json_loads_bytes example_json_dumps text_jsonb example_text_array_other                                 small_legacy (start empty_db))))
    by (vm_compute; reflexivity).
  split; [exact H|].
  exact (@X17_second_run_keeps_settings example_clock example_json_loads example_json_loads_bytes example_json_dumps text_jsonb example_text_array_other small_legacy
           _ _ H).
Defined.

Lemma X18_install_witness :
  Schema.fresh Schema.empty_catalog = true /\
  Schema.json_encoder 1 = inr (JNum 1) /\
  Schema.json_le_0 (JNum 1) = inr false /\
  Schema.check_database Schema.json_encoder Schema.json_le_0 Schema.empty_catalog
  = (inr tt, Schema.schema [("db_version"%string, Some (JNum 1))]) /\
  Schema.check_database Schema.json_encoder Schema.json_le_0
    (Schema.schema [("db_version"%string, Some (JNum 1))])
  = (inr tt, Schema.schema [("db_version"%string, Some (JNum 1))]).
Proof.
  assert (H1 : Schema.fresh Schema.empty_catalog = true) by reflexivity.
  assert (H2 : Schema.json_encoder 1 = inr (JNum 1)) by reflexivity.
  assert (H3 : Schema.json_le_0 (JNum 1) = inr false) by reflexivity.
  split; [exact H1|]. split; [exact H2|]. split; [exact H3|].
  exact (@X18_fresh_install Schema.json_encoder Schema.json_le_0
           Schema.empty_catalog (JNum 1) H1 H2 H3).
Defined.

Lemma X19_refused_witness :
  Schema.fresh Schema.empty_catalog = true /\
  Schema.text_encoder 1 = inl DataError /\
  Schema.check_database Schema.text_encoder Schema.text_le_0 Schema.empty_catalog
  = (inl (Schema.Python DataError), Schema.schema []) /\
  Schema.check_database Schema.text_encoder Schema.text_le_0 (Schema.schema [])
  = (inl (Schema.Python TypeError), Schema.schema []).
Proof.
  assert (H1 : Schema.fresh Schema.empty_catalog = true) by reflexivity.
  assert (H2 : Schema.text_encoder 1 = inl DataError) by reflexivity.
  split; [exact H1|]. split; [exact H2|].
  exact (@X19_refused_version_leaves_schema_unversioned Schema.text_encoder
           Schema.text_le_0 Schema.empty_catalog DataError H1 H2).
Defined.

Lemma X20_interrupted_witness :
  Schema.check_database Schema.json_encoder Schema.json_le_0 Schema.occupied
  = (inl (Schema.Postgres Schema.DuplicateTableError),
     snd (Schema.check_database Schema.json_encoder Schema.json_le_0 Schema.occupied)) /\
  snd (Schema.check_database Schema.json_encoder Schema.json_le_0 Schema.occupied)
  <> Schema.occupied /\
  exists e',
    Schema.check_database Schema.json_encoder Schema.json_le_0
      (snd (Schema.check_database Schema.json_encoder Schema.json_le_0 Schema.occupied))
    = (inl e',
       snd (Schema.check_database Schema.json_encoder Schema.json_le_0 Schema.occupied)).
Proof.
  assert (H1 : Schema.check_database Schema.json_encoder Schema.json_le_0 Schema.occupied
               = (inl (Schema.Postgres Schema.DuplicateTableError),
                  snd (Schema.check_database Schema.json_encoder Schema.json_le_0
                         Schema.occupied)))
    by (vm_compute; reflexivity).
  assert (H2 : snd (Schema.check_database Schema.json_encoder Schema.json_le_0
                      Schema.occupied) <> Schema.occupied)
    by (vm_compute; discriminate).
  split; [exact H1|]. split; [exact H2|].
  exact (@X20_interrupted_install_is_never_repaired Schema.json_encoder
           Schema.json_le_0 _ _ _ H1 H2).
Defined.

Lemma X21_version_witness :
  Schema.has "global_property" (Schema.pg_class Schema.configured) = true /\
  Schema.json_encoder 1 = inr (JNum 1) /\
  exists K',
    Schema.set_version Schema.json_encoder 1 Schema.configured = (inr tt, K') /\
    Schema.get_version K' = (inr (Schema.Fetched (Some (JNum 1))), K') /\
    find (fun r => (fst r =? "motd")%string) (Schema.global_property K')
    = Some ("motd"%string, Some (JStr "hello")).
Proof.
  assert (H1 : Schema.has "global_property" (Schema.pg_class Schema.configured) = true)
    by reflexivity.
  assert (H2 : Schema.json_encoder 1 = inr (JNum 1)) by reflexivity.
  split; [exact H1|]. split; [exact H2|].
  destruct (@X21_version_round_trip Schema.json_encoder Schema.json_le_0
              Schema.configured 1 (JNum 1) H1 H2) as (K' & S1 & S2 & S3 & _).
  exists K'. split; [exact S1|]. split; [exact S2|].
  rewrite S3 by discriminate. reflexivity.
Defined.
